(** * MultiPCM (Sega 315-5560) core: a shallow embedding of
      [src/emu/cores/multipcm.c] and the properties checked against it.

    Integers are [Z] with the C width written out where the source wraps;
    fixed-size arrays are lists read through a checked lookup; pointers into
    the chip ([slot->Sample]) are indices; every access that C leaves
    undefined when out of range returns an error. *)

From stdpp Require Import base list numbers.

Local Open Scope Z_scope.

(** ** Machine integers *)

Definition u8 (z : Z) : Z := z mod 2 ^ 8.
Definition u16 (z : Z) : Z := z mod 2 ^ 16.
Definition u32 (z : Z) : Z := z mod 2 ^ 32.
Definition s8 (z : Z) : Z := (z + 2 ^ 7) mod 2 ^ 8 - 2 ^ 7.
Definition s16 (z : Z) : Z := (z + 2 ^ 15) mod 2 ^ 16 - 2 ^ 15.
Definition s32 (z : Z) : Z := (z + 2 ^ 31) mod 2 ^ 32 - 2 ^ 31.

Definition INT_MAX : Z := 2 ^ 31 - 1.
Definition UINT32_MAX : Z := 2 ^ 32 - 1.

Definition SHIFT : Z := 12.
Definition EG_SHIFT : Z := 16.
Definition LFO_SHIFT : Z := 8.

(** C truth value of an integer. *)
Definition truthy (z : Z) : bool := negb (z =? 0).

(** ** Errors of the total embedding *)

Inductive array : Type :=
| A_ROM | A_data | A_out
| A_Samples | A_Slots | A_Regs
| A_Steps | A_FNS_Table | A_TLSteps
| A_lin2expvol | A_PANTABLE
| A_LFO_table | A_LFO_scale | A_SCALES.

Inductive error : Type :=
| OutOfBounds (a : array) (i : Z)        (* read outside the array *)
| OutOfBoundsWrite (a : array) (i : Z)   (* write outside the array *)
| NullPointer          (* dereference of a pointer never set *)
| Diverges.            (* the loop did not finish within the fuel *)

Inductive result (A : Type) : Type :=
| Ok (a : A)
| Err (e : error).
Arguments Ok {A} a.
Arguments Err {A} e.

#[export] Instance result_bind : MBind result :=
  fun A B (k : A -> result B) (r : result A) =>
    match r with
    | Ok a => k a
    | Err e => Err e
    end.

#[export] Instance result_ret : MRet result := fun A (a : A) => Ok a.

(** [a[i]] for a C array held as a list. *)
Definition index {A : Type} (a : array) (l : list A) (i : Z) : result A :=
  if i <? 0 then Err (OutOfBounds a i)
  else match l !! Z.to_nat i with
       | Some x => Ok x
       | None => Err (OutOfBounds a i)
       end.

(** [a[i] = v]. *)
Definition store {A : Type} (a : array) (l : list A) (i : Z) (v : A)
  : result (list A) :=
  if (0 <=? i) && (i <? Z.of_nat (length l))
  then Ok (<[Z.to_nat i := v]> l)
  else Err (OutOfBoundsWrite a i).

Definition deref {A : Type} (p : option A) : result A :=
  match p with
  | Some x => Ok x
  | None => Err NullPointer
  end.

(** ** Data model *)

(** [struct _Sample] *)
Module Sample.
Record t : Type := mk {
  Start : Z; Loop : Z; End_ : Z;
  AR : Z; DR1 : Z; DR2 : Z; DL : Z; RR : Z;
  KRS : Z;
  LFOVIB : Z;
  AM : Z
}.
Definition zero : t := mk 0 0 0 0 0 0 0 0 0 0 0.
End Sample.

Inductive _STATE : Type := ATTACK | DECAY1 | DECAY2 | RELEASE.

(** [struct _EG] *)
Module EG.
Record t : Type := mk {
  volume : Z;
  state : _STATE;
  step : Z;
  AR : Z; D1R : Z; D2R : Z; RR : Z;
  DL : Z
}.
Definition zero : t := mk 0 ATTACK 0 0 0 0 0 0.
Definition set_volume (v : Z) (e : t) : t :=
  mk v (state e) (step e) (AR e) (D1R e) (D2R e) (RR e) (DL e).
Definition set_state (s : _STATE) (e : t) : t :=
  mk (volume e) s (step e) (AR e) (D1R e) (D2R e) (RR e) (DL e).
Definition set_rates (ar d1r d2r rr dl : Z) (e : t) : t :=
  mk (volume e) (state e) (step e) ar d1r d2r rr dl.
End EG.

(** [struct _LFO]; [table] and [scale] point into the process-wide tables,
    which never change once built, so a pointer is the table it points to. *)
Module LFO.
Record t : Type := mk {
  phase : Z;
  phase_step : Z;
  table : option (list Z);
  scale : option (list Z)
}.
Definition zero : t := mk 0 0 None None.
Definition set_phase (p : Z) (l : t) : t :=
  mk p (phase_step l) (table l) (scale l).
End LFO.

(** [unsigned char Regs[8]] *)
Module Regs.
Record t : Type := mk {
  r0 : Z; r1 : Z; r2 : Z; r3 : Z; r4 : Z; r5 : Z; r6 : Z; r7 : Z
}.
Definition zero : t := mk 0 0 0 0 0 0 0 0.
Definition set (reg : Z) (v : Z) (r : t) : result t :=
  match reg with
  | 0 => Ok (mk v (r1 r) (r2 r) (r3 r) (r4 r) (r5 r) (r6 r) (r7 r))
  | 1 => Ok (mk (r0 r) v (r2 r) (r3 r) (r4 r) (r5 r) (r6 r) (r7 r))
  | 2 => Ok (mk (r0 r) (r1 r) v (r3 r) (r4 r) (r5 r) (r6 r) (r7 r))
  | 3 => Ok (mk (r0 r) (r1 r) (r2 r) v (r4 r) (r5 r) (r6 r) (r7 r))
  | 4 => Ok (mk (r0 r) (r1 r) (r2 r) (r3 r) v (r5 r) (r6 r) (r7 r))
  | 5 => Ok (mk (r0 r) (r1 r) (r2 r) (r3 r) (r4 r) v (r6 r) (r7 r))
  | 6 => Ok (mk (r0 r) (r1 r) (r2 r) (r3 r) (r4 r) (r5 r) v (r7 r))
  | 7 => Ok (mk (r0 r) (r1 r) (r2 r) (r3 r) (r4 r) (r5 r) (r6 r) v)
  | _ => Err (OutOfBounds A_Regs reg)
  end.
End Regs.

(** [struct _SLOT]; [Sample] is the pointer [ptChip->Samples + k], kept as
    the index [k] ([None] is the null pointer of a slot never keyed on). *)
Module SLOT.
Record t : Type := mk {
  Num : Z;
  Regs : Regs.t;
  Playing : Z;
  Sample : option Z;
  Base : Z;
  offset : Z;
  step : Z;
  Pan : Z;
  TL : Z;
  DstTL : Z;
  TLStep : Z;
  Prev : Z;
  EG : EG.t;
  PLFO : LFO.t;
  ALFO : LFO.t;
  Muted : Z
}.
Definition zero : t :=
  mk 0 Regs.zero 0 None 0 0 0 0 0 0 0 0 EG.zero LFO.zero LFO.zero 0.
Definition set_Regs (v : Regs.t) (s : t) : t :=
  mk (Num s) v (Playing s) (Sample s) (Base s) (offset s) (step s) (Pan s)
     (TL s) (DstTL s) (TLStep s) (Prev s) (EG s) (PLFO s) (ALFO s) (Muted s).
Definition set_Playing (v : Z) (s : t) : t :=
  mk (Num s) (Regs s) v (Sample s) (Base s) (offset s) (step s) (Pan s)
     (TL s) (DstTL s) (TLStep s) (Prev s) (EG s) (PLFO s) (ALFO s) (Muted s).
Definition set_Sample (v : option Z) (s : t) : t :=
  mk (Num s) (Regs s) (Playing s) v (Base s) (offset s) (step s) (Pan s)
     (TL s) (DstTL s) (TLStep s) (Prev s) (EG s) (PLFO s) (ALFO s) (Muted s).
Definition set_Base (v : Z) (s : t) : t :=
  mk (Num s) (Regs s) (Playing s) (Sample s) v (offset s) (step s) (Pan s)
     (TL s) (DstTL s) (TLStep s) (Prev s) (EG s) (PLFO s) (ALFO s) (Muted s).
Definition set_offset (v : Z) (s : t) : t :=
  mk (Num s) (Regs s) (Playing s) (Sample s) (Base s) v (step s) (Pan s)
     (TL s) (DstTL s) (TLStep s) (Prev s) (EG s) (PLFO s) (ALFO s) (Muted s).
Definition set_step (v : Z) (s : t) : t :=
  mk (Num s) (Regs s) (Playing s) (Sample s) (Base s) (offset s) v (Pan s)
     (TL s) (DstTL s) (TLStep s) (Prev s) (EG s) (PLFO s) (ALFO s) (Muted s).
Definition set_Pan (v : Z) (s : t) : t :=
  mk (Num s) (Regs s) (Playing s) (Sample s) (Base s) (offset s) (step s) v
     (TL s) (DstTL s) (TLStep s) (Prev s) (EG s) (PLFO s) (ALFO s) (Muted s).
Definition set_TL (v : Z) (s : t) : t :=
  mk (Num s) (Regs s) (Playing s) (Sample s) (Base s) (offset s) (step s)
     (Pan s) v (DstTL s) (TLStep s) (Prev s) (EG s) (PLFO s) (ALFO s)
     (Muted s).
Definition set_DstTL (v : Z) (s : t) : t :=
  mk (Num s) (Regs s) (Playing s) (Sample s) (Base s) (offset s) (step s)
     (Pan s) (TL s) v (TLStep s) (Prev s) (EG s) (PLFO s) (ALFO s) (Muted s).
Definition set_TLStep (v : Z) (s : t) : t :=
  mk (Num s) (Regs s) (Playing s) (Sample s) (Base s) (offset s) (step s)
     (Pan s) (TL s) (DstTL s) v (Prev s) (EG s) (PLFO s) (ALFO s) (Muted s).
Definition set_Prev (v : Z) (s : t) : t :=
  mk (Num s) (Regs s) (Playing s) (Sample s) (Base s) (offset s) (step s)
     (Pan s) (TL s) (DstTL s) (TLStep s) v (EG s) (PLFO s) (ALFO s) (Muted s).
Definition set_EG (v : EG.t) (s : t) : t :=
  mk (Num s) (Regs s) (Playing s) (Sample s) (Base s) (offset s) (step s)
     (Pan s) (TL s) (DstTL s) (TLStep s) (Prev s) v (PLFO s) (ALFO s)
     (Muted s).
Definition set_PLFO (v : LFO.t) (s : t) : t :=
  mk (Num s) (Regs s) (Playing s) (Sample s) (Base s) (offset s) (step s)
     (Pan s) (TL s) (DstTL s) (TLStep s) (Prev s) (EG s) v (ALFO s) (Muted s).
Definition set_ALFO (v : LFO.t) (s : t) : t :=
  mk (Num s) (Regs s) (Playing s) (Sample s) (Base s) (offset s) (step s)
     (Pan s) (TL s) (DstTL s) (TLStep s) (Prev s) (EG s) (PLFO s) v (Muted s).
End SLOT.

(** The process-wide tables that [device_start_multipcm] and [LFO_Init] fill
    from floating-point expressions ([pow], divisions by the sample rate).
    Their contents are data of the model; their sizes are those of the C
    arrays. *)
Record Tables : Type := mkTables {
  LPANTABLE : list Z;          (* [0x800] *)
  RPANTABLE : list Z;          (* [0x800] *)
  lin2expvol : list Z;         (* [0x400] *)
  TLSteps : list Z;            (* [2] *)
  PSCALES : list (list Z);     (* [8][256] *)
  ASCALES : list (list Z)      (* [8][256] *)
}.

Definition Tables_sized (T : Tables) : Prop :=
  length (LPANTABLE T) = 0x800%nat /\
  length (RPANTABLE T) = 0x800%nat /\
  length (lin2expvol T) = 0x400%nat /\
  length (TLSteps T) = 2%nat /\
  length (PSCALES T) = 8%nat /\
  length (ASCALES T) = 8%nat.

(** ** Envelope generator *)

Definition EG_VOLUME_MAX : Z := Z.shiftl 0x3ff EG_SHIFT.

(** [EG_Update]: one step of the envelope; returns the slot and the gain
    [lin2expvol[volume >> EG_SHIFT]].  The [default] arm of the C switch is
    not reachable from the four enumerators. *)
Definition EG_Update (T : Tables) (slot : SLOT.t) : result (SLOT.t * Z) :=
  let eg := SLOT.EG slot in
  let slot :=
    match EG.state eg with
    | ATTACK =>
        let eg := EG.set_volume (s32 (EG.volume eg + EG.AR eg)) eg in
        if EG.volume eg >=? Z.shiftl 0x3ff EG_SHIFT then
          let eg := EG.set_state DECAY1 eg in
          let eg := if EG.D1R eg >=? Z.shiftl 0x400 EG_SHIFT
                    then EG.set_state DECAY2 eg else eg in
          SLOT.set_EG (EG.set_volume (Z.shiftl 0x3ff EG_SHIFT) eg) slot
        else SLOT.set_EG eg slot
    | DECAY1 =>
        let eg := EG.set_volume (s32 (EG.volume eg - EG.D1R eg)) eg in
        let eg := if EG.volume eg <=? 0 then EG.set_volume 0 eg else eg in
        let eg := if Z.shiftr (EG.volume eg) EG_SHIFT
                       <=? s32 (Z.shiftl (EG.DL eg) (10 - 4))
                  then EG.set_state DECAY2 eg else eg in
        SLOT.set_EG eg slot
    | DECAY2 =>
        let eg := EG.set_volume (s32 (EG.volume eg - EG.D2R eg)) eg in
        let eg := if EG.volume eg <=? 0 then EG.set_volume 0 eg else eg in
        SLOT.set_EG eg slot
    | RELEASE =>
        let eg := EG.set_volume (s32 (EG.volume eg - EG.RR eg)) eg in
        if EG.volume eg <=? 0
        then SLOT.set_Playing 0 (SLOT.set_EG (EG.set_volume 0 eg) slot)
        else SLOT.set_EG eg slot
    end in
  g ← index A_lin2expvol (lin2expvol T)
         (Z.shiftr (EG.volume (SLOT.EG slot)) EG_SHIFT);
  Ok (slot, g).

(** [Get_RATE]: [rate] and [val] are [unsigned int]; the sum is narrowed to
    the [int r] that indexes the table. *)
Definition Get_RATE (Steps : list Z) (rate val : Z) : result Z :=
  let r := s32 (u32 (4 * val + rate)) in
  if val =? 0 then index A_Steps Steps 0
  else if val =? 0xf then index A_Steps Steps 0x3f
  else
    let r := if r >? 0x3f then 0x3f else r in
    index A_Steps Steps r.

(** [EG_Calc] is defined below, once the chip is. *)

(** Ranges of the envelope used in the statements. *)

Definition EG_volume_ok (e : EG.t) : Prop :=
  0 <= EG.volume e <= EG_VOLUME_MAX.

(** The rates for which the [int] arithmetic of [EG_Update] stays in range. *)
Definition EG_rates_ok (e : EG.t) : Prop :=
  0 <= EG.AR e <= INT_MAX - EG_VOLUME_MAX /\
  0 <= EG.D1R e <= INT_MAX /\
  0 <= EG.D2R e <= INT_MAX /\
  0 <= EG.RR e <= INT_MAX.

(** What [device_start_multipcm] leaves in [ARStep] and [DRStep]: 64
    non-negative steps, none above the instant attack
    [ARStep[0x3f] = 0x400 << EG_SHIFT]. *)
Definition Steps_ok (Steps : list Z) : Prop :=
  length Steps = 0x40%nat /\
  Forall (fun x => 0 <= x <= Z.shiftl 0x400 EG_SHIFT) Steps.

#[global] Instance Steps_ok_dec (Steps : list Z) : Decision (Steps_ok Steps).
Proof. unfold Steps_ok. apply _. Defined.

Definition same_rates (e1 e2 : EG.t) : Prop :=
  EG.AR e1 = EG.AR e2 /\ EG.D1R e1 = EG.D1R e2 /\
  EG.D2R e1 = EG.D2R e2 /\ EG.RR e1 = EG.RR e2.


(** ** Floating point

    The source computes a few values in [float]/[double]: the voice step
    [pitch / Rate], the LFO phase step and the tables built at start-up.
    The embedding keeps these expressions as written over an abstract
    arithmetic; [float] holds the values of both C types and [f_single] is
    the narrowing to [float]. *)
Class FloatArith : Type := {
  float : Type;
  f_of_Z : Z -> float;              (* (float) i, and integral literals *)
  f_dec : Z -> Z -> float;          (* the literal m * 10^-e *)
  f_single : float -> float;
  fmul : float -> float -> float;
  fdiv : float -> float -> float;
  fpow : float -> float -> float;   (* pow *)
  f_to_u32 : float -> Z             (* (UINT32) v *)
}.

(** ** LFO *)

(** The two triangles of [LFO_Init]. *)
Definition ALFO_TRI_at (i : Z) : Z :=
  if i <? 128 then 255 - (i * 2) else (i * 2) - 256.

Definition PLFO_TRI_at (i : Z) : Z :=
  if i <? 64 then i * 2
  else if i <? 128 then 255 - i * 2
  else if i <? 192 then 256 - i * 2
  else i * 2 - 511.

Definition ALFO_TRI : list Z := map (fun n => ALFO_TRI_at (Z.of_nat n)) (seq 0 256).
Definition PLFO_TRI : list Z := map (fun n => PLFO_TRI_at (Z.of_nat n)) (seq 0 256).

(** [PLFO_Step]: advances the phase and returns the scaled value. *)
Definition PLFO_Step (L : LFO.t) : result (LFO.t * Z) :=
  let L := LFO.set_phase (u16 (LFO.phase L + LFO.phase_step L)) L in
  tab ← deref (LFO.table L);
  p ← index A_LFO_table tab (Z.land (Z.shiftr (LFO.phase L) LFO_SHIFT) 0xff);
  sc ← deref (LFO.scale L);
  p ← index A_LFO_scale sc (p + 128);
  Ok (L, s32 (Z.shiftl p (SHIFT - LFO_SHIFT))).

(** [ALFO_Step] *)
Definition ALFO_Step (L : LFO.t) : result (LFO.t * Z) :=
  let L := LFO.set_phase (u16 (LFO.phase L + LFO.phase_step L)) L in
  tab ← deref (LFO.table L);
  p ← index A_LFO_table tab (Z.land (Z.shiftr (LFO.phase L) LFO_SHIFT) 0xff);
  sc ← deref (LFO.scale L);
  p ← index A_LFO_scale sc p;
  Ok (L, s32 (Z.shiftl p (SHIFT - LFO_SHIFT))).

Section Chip.
Context {FA : FloatArith}.

Definition LFOFreq : list float :=
  [f_dec 168 3; f_dec 2019 3; f_dec 3196 3; f_dec 4206 3;
   f_dec 5215 3; f_dec 5888 3; f_dec 6224 3; f_dec 7066 3].

(** [struct _MultiPCM] *)
Record MultiPCM : Type := mkMultiPCM {
  Samples : list Sample.t;      (* [0x200] *)
  Slots : list SLOT.t;          (* [28] *)
  CurSlot : Z;
  Address : Z;
  BankR : Z;
  BankL : Z;
  Rate : float;
  ROMMask : Z;
  ROMSize : Z;
  ROM : list Z;                 (* ROMSize bytes, each 0..255 *)
  ARStep : list Z;              (* [0x40] *)
  DRStep : list Z;              (* [0x40] *)
  FNS_Table : list Z            (* [0x400] *)
}.

Definition set_Samples (v : list Sample.t) (c : MultiPCM) : MultiPCM :=
  mkMultiPCM v (Slots c) (CurSlot c) (Address c) (BankR c) (BankL c) (Rate c)
    (ROMMask c) (ROMSize c) (ROM c) (ARStep c) (DRStep c) (FNS_Table c).
Definition set_Slots (v : list SLOT.t) (c : MultiPCM) : MultiPCM :=
  mkMultiPCM (Samples c) v (CurSlot c) (Address c) (BankR c) (BankL c) (Rate c)
    (ROMMask c) (ROMSize c) (ROM c) (ARStep c) (DRStep c) (FNS_Table c).
Definition set_CurSlot (v : Z) (c : MultiPCM) : MultiPCM :=
  mkMultiPCM (Samples c) (Slots c) v (Address c) (BankR c) (BankL c) (Rate c)
    (ROMMask c) (ROMSize c) (ROM c) (ARStep c) (DRStep c) (FNS_Table c).
Definition set_Address (v : Z) (c : MultiPCM) : MultiPCM :=
  mkMultiPCM (Samples c) (Slots c) (CurSlot c) v (BankR c) (BankL c) (Rate c)
    (ROMMask c) (ROMSize c) (ROM c) (ARStep c) (DRStep c) (FNS_Table c).
Definition set_BankR (v : Z) (c : MultiPCM) : MultiPCM :=
  mkMultiPCM (Samples c) (Slots c) (CurSlot c) (Address c) v (BankL c) (Rate c)
    (ROMMask c) (ROMSize c) (ROM c) (ARStep c) (DRStep c) (FNS_Table c).
Definition set_BankL (v : Z) (c : MultiPCM) : MultiPCM :=
  mkMultiPCM (Samples c) (Slots c) (CurSlot c) (Address c) (BankR c) v (Rate c)
    (ROMMask c) (ROMSize c) (ROM c) (ARStep c) (DRStep c) (FNS_Table c).
Definition set_ROMMask (v : Z) (c : MultiPCM) : MultiPCM :=
  mkMultiPCM (Samples c) (Slots c) (CurSlot c) (Address c) (BankR c) (BankL c)
    (Rate c) v (ROMSize c) (ROM c) (ARStep c) (DRStep c) (FNS_Table c).
Definition set_ROMSize (v : Z) (c : MultiPCM) : MultiPCM :=
  mkMultiPCM (Samples c) (Slots c) (CurSlot c) (Address c) (BankR c) (BankL c)
    (Rate c) (ROMMask c) v (ROM c) (ARStep c) (DRStep c) (FNS_Table c).
Definition set_ROM (v : list Z) (c : MultiPCM) : MultiPCM :=
  mkMultiPCM (Samples c) (Slots c) (CurSlot c) (Address c) (BankR c) (BankL c)
    (Rate c) (ROMMask c) (ROMSize c) v (ARStep c) (DRStep c) (FNS_Table c).

(** The sample a slot points to. *)
Definition slot_Sample (ptChip : MultiPCM) (slot : SLOT.t) : result Sample.t :=
  k ← deref (SLOT.Sample slot);
  index A_Samples (Samples ptChip) k.

(** The signed 4-bit octave of [EG_Calc]. *)
Definition EG_octave (regs3 : Z) : Z :=
  let octave := Z.land (Z.shiftr regs3 4 - 1) 0xf in
  if truthy (Z.land octave 8) then octave - 16 else octave.

(** The [rate] of [EG_Calc]. *)
Definition EG_rate (regs3 KRS : Z) : Z :=
  if negb (KRS =? 0xf)
  then s32 ((EG_octave regs3 + KRS) * 2 + Z.land (Z.shiftr regs3 3) 1)
  else 0.

(** [EG_Calc]: the [int rate] is passed as [unsigned int], the
    [unsigned int] results are stored in the [int] fields of the EG. *)
Definition EG_Calc (ptChip : MultiPCM) (slot : SLOT.t) : result SLOT.t :=
  smp ← slot_Sample ptChip slot;
  let rate := EG_rate (Regs.r3 (SLOT.Regs slot)) (Sample.KRS smp) in
  ar ← Get_RATE (ARStep ptChip) (u32 rate) (Sample.AR smp);
  d1r ← Get_RATE (DRStep ptChip) (u32 rate) (Sample.DR1 smp);
  d2r ← Get_RATE (DRStep ptChip) (u32 rate) (Sample.DR2 smp);
  rr ← Get_RATE (DRStep ptChip) (u32 rate) (Sample.RR smp);
  Ok (SLOT.set_EG
        (EG.set_rates (s32 ar) (s32 d1r) (s32 d2r) (s32 rr)
           (0xf - Sample.DL smp) (SLOT.EG slot))
        slot).

(** [LFO_ComputeStep] *)
Definition LFO_ComputeStep (T : Tables) (ptChip : MultiPCM) (L : LFO.t)
    (LFOF LFOS : Z) (ALFO : bool) : result LFO.t :=
  f ← index A_SCALES LFOFreq LFOF;
  let step := f_single (fdiv (fmul f (f_of_Z 256)) (Rate ptChip)) in
  let phase_step := f_to_u32 (fmul (f_of_Z (Z.shiftl 1 LFO_SHIFT)) step) in
  if ALFO then
    sc ← index A_SCALES (ASCALES T) LFOS;
    Ok (LFO.mk (LFO.phase L) phase_step (Some ALFO_TRI) (Some sc))
  else
    sc ← index A_SCALES (PSCALES T) LFOS;
    Ok (LFO.mk (LFO.phase L) phase_step (Some PLFO_TRI) (Some sc)).

(** Body shared by [case 6] and [case 7] of [WriteSlot]. *)
Definition WriteSlot_LFO (T : Tables) (ptChip : MultiPCM) (slot : SLOT.t)
    (data : Z) : result SLOT.t :=
  if truthy data then
    let regs := SLOT.Regs slot in
    p ← LFO_ComputeStep T ptChip (SLOT.PLFO slot)
          (Z.land (Z.shiftr (Regs.r6 regs) 3) 7) (Z.land (Regs.r6 regs) 7) false;
    let slot := SLOT.set_PLFO p slot in
    a ← LFO_ComputeStep T ptChip (SLOT.ALFO slot)
          (Z.land (Z.shiftr (Regs.r6 regs) 3) 7) (Z.land (Regs.r7 regs) 7) true;
    Ok (SLOT.set_ALFO a slot)
  else Ok slot.

(** [WriteSlot], every register but 1 (which calls back into 6 and 7). *)
Definition WriteSlot_reg (T : Tables) (ptChip : MultiPCM) (slot : SLOT.t)
    (reg data : Z) : result SLOT.t :=
  regs ← Regs.set reg data (SLOT.Regs slot);
  let slot := SLOT.set_Regs regs slot in
  match reg with
  | 0 => Ok (SLOT.set_Pan (Z.land (Z.shiftr data 4) 0xf) slot)
  | 2 | 3 =>
      let oct := Z.land (Z.shiftr (Regs.r3 regs) 4 - 1) 0xf in
      let pitch := Z.lor (Z.shiftl (Z.land (Regs.r3 regs) 0xf) 6)
                         (Z.shiftr (Regs.r2 regs) 2) in
      pitch ← index A_FNS_Table (FNS_Table ptChip) pitch;
      let pitch := if truthy (Z.land oct 0x8)
                   then Z.shiftr pitch (16 - oct)
                   else u32 (Z.shiftl pitch oct) in
      Ok (SLOT.set_step (f_to_u32 (fdiv (f_of_Z pitch) (Rate ptChip))) slot)
  | 4 =>
      if truthy (Z.land data 0x80) then
        let slot := SLOT.set_Sample (Some (Regs.r1 regs)) slot in
        let slot := SLOT.set_Playing 1 slot in
        smp ← slot_Sample ptChip slot;
        let slot := SLOT.set_Base (Sample.Start smp) slot in
        let slot := SLOT.set_offset 0 slot in
        let slot := SLOT.set_Prev 0 slot in
        let slot := SLOT.set_TL (u32 (Z.shiftl (SLOT.DstTL slot) SHIFT)) slot in
        slot ← EG_Calc ptChip slot;
        let slot := SLOT.set_EG (EG.set_state ATTACK (SLOT.EG slot)) slot in
        let slot := SLOT.set_EG (EG.set_volume 0 (SLOT.EG slot)) slot in
        if SLOT.Base slot >=? 0x100000 then
          if truthy (Z.land (SLOT.Pan slot) 8)
          then Ok (SLOT.set_Base
                     (Z.lor (Z.land (SLOT.Base slot) 0xfffff) (BankL ptChip)) slot)
          else Ok (SLOT.set_Base
                     (Z.lor (Z.land (SLOT.Base slot) 0xfffff) (BankR ptChip)) slot)
        else Ok slot
      else
        if truthy (SLOT.Playing slot) then
          smp ← slot_Sample ptChip slot;
          if negb (Sample.RR smp =? 0xf)
          then Ok (SLOT.set_EG (EG.set_state RELEASE (SLOT.EG slot)) slot)
          else Ok (SLOT.set_Playing 0 slot)
        else Ok slot
  | 5 =>
      let slot := SLOT.set_DstTL (Z.land (Z.shiftr data 1) 0x7f) slot in
      if negb (truthy (Z.land data 1)) then
        if Z.shiftr (SLOT.TL slot) SHIFT >? SLOT.DstTL slot
        then st ← index A_TLSteps (TLSteps T) 0; Ok (SLOT.set_TLStep st slot)
        else st ← index A_TLSteps (TLSteps T) 1; Ok (SLOT.set_TLStep st slot)
      else Ok (SLOT.set_TL (u32 (Z.shiftl (SLOT.DstTL slot) SHIFT)) slot)
  | 6 | 7 => WriteSlot_LFO T ptChip slot data
  | _ => Ok slot
  end.

(** [WriteSlot] *)
Definition WriteSlot (T : Tables) (ptChip : MultiPCM) (slot : SLOT.t)
    (reg data : Z) : result SLOT.t :=
  match reg with
  | 1 =>
      regs ← Regs.set reg data (SLOT.Regs slot);
      let slot := SLOT.set_Regs regs slot in
      smp ← index A_Samples (Samples ptChip) (Regs.r1 regs);
      slot ← WriteSlot_reg T ptChip slot 6 (Sample.LFOVIB smp);
      WriteSlot_reg T ptChip slot 7 (Sample.AM smp)
  | _ => WriteSlot_reg T ptChip slot reg data
  end.

(** ** Rendering *)

(** The voice loop of [MultiPCM_update], statement by statement. *)

(** [csample = (signed short) (ROM[...] << 8)], the ROM being [INT8]. *)
Definition csample_of (b : Z) : Z := s16 (Z.shiftl (s8 b) 8).

(** [sample = (csample*fpart + Prev*((1<<SHIFT)-fpart)) >> SHIFT] *)
Definition interpolate (csample : Z) (slot : SLOT.t) : Z :=
  let fpart := Z.land (SLOT.offset slot) (Z.shiftl 1 SHIFT - 1) in
  Z.shiftr (s32 (csample * fpart + SLOT.Prev slot * (Z.shiftl 1 SHIFT - fpart)))
           SHIFT.

(** [if(slot->Regs[6]&7) { step=step*PLFO_Step(&(slot->PLFO)); step>>=SHIFT; }] *)
Definition vibrato (slot : SLOT.t) (step : Z) : result (SLOT.t * Z) :=
  if truthy (Z.land (Regs.r6 (SLOT.Regs slot)) 7) then
    '(L, p) ← PLFO_Step (SLOT.PLFO slot);
    Ok (SLOT.set_PLFO L slot, Z.shiftr (u32 (step * p)) SHIFT)
  else Ok (slot, step).

(** [slot->offset+=step], the loop back, the latch of [Prev] and the TL
    ramp. *)
Definition advance (smp : Sample.t) (adr csample step : Z) (slot : SLOT.t)
  : SLOT.t :=
  let slot := SLOT.set_offset (u32 (SLOT.offset slot + step)) slot in
  let slot := if SLOT.offset slot >=? u32 (Z.shiftl (Sample.End_ smp) SHIFT)
              then SLOT.set_offset (u32 (Z.shiftl (Sample.Loop smp) SHIFT)) slot
              else slot in
  let slot := if truthy (Z.lxor adr (Z.shiftr (SLOT.offset slot) SHIFT))
              then SLOT.set_Prev csample slot else slot in
  if negb (Z.shiftr (SLOT.TL slot) SHIFT =? SLOT.DstTL slot)
  then SLOT.set_TL (u32 (SLOT.TL slot + SLOT.TLStep slot)) slot
  else slot.

(** [if(slot->Regs[7]&7) { sample=sample*ALFO_Step(&(slot->ALFO)); sample>>=SHIFT; }] *)
Definition tremolo (slot : SLOT.t) (sample : Z) : result (SLOT.t * Z) :=
  if truthy (Z.land (Regs.r7 (SLOT.Regs slot)) 7) then
    '(L, a) ← ALFO_Step (SLOT.ALFO slot);
    Ok (SLOT.set_ALFO L slot, Z.shiftr (s32 (sample * a)) SHIFT)
  else Ok (slot, sample).

(** [(LPANTABLE[vol]*sample)>>SHIFT] and [(RPANTABLE[vol]*sample)>>SHIFT] *)
Definition pan_mix (T : Tables) (vol sample : Z) : result (Z * Z) :=
  l ← index A_PANTABLE (LPANTABLE T) vol;
  r ← index A_PANTABLE (RPANTABLE T) vol;
  Ok (Z.shiftr (s32 (l * sample)) SHIFT, Z.shiftr (s32 (r * sample)) SHIFT).

(** The body for a voice that is playing and not muted: the updated slot
    and what it adds to [smpl] and [smpr]. *)
Definition voice_update (T : Tables) (ptChip : MultiPCM) (slot : SLOT.t)
  : result (SLOT.t * Z * Z) :=
  let vol := Z.lor (Z.shiftr (SLOT.TL slot) SHIFT) (u32 (Z.shiftl (SLOT.Pan slot) 7)) in
  let adr := Z.shiftr (SLOT.offset slot) SHIFT in
  b ← index A_ROM (ROM ptChip) (Z.land (u32 (SLOT.Base slot + adr)) (ROMMask ptChip));
  let csample := csample_of b in
  let sample := interpolate csample slot in
  '(slot, step) ← vibrato slot (SLOT.step slot);
  smp ← slot_Sample ptChip slot;
  let slot := advance smp adr csample step slot in
  '(slot, sample) ← tremolo slot sample;
  '(slot, g) ← EG_Update T slot;
  let sample := Z.shiftr (s32 (sample * g)) 10 in
  '(l, r) ← pan_mix T vol sample;
  Ok (slot, l, r).

(** One iteration of [for(sl=0;sl<28;++sl)]. *)
Definition update_slot (T : Tables) (acc : MultiPCM * Z * Z) (sl : Z)
  : result (MultiPCM * Z * Z) :=
  let '(ptChip, smpl, smpr) := acc in
  slot ← index A_Slots (Slots ptChip) sl;
  if truthy (SLOT.Playing slot) && negb (truthy (SLOT.Muted slot)) then
    '(slot, l, r) ← voice_update T ptChip slot;
    slots ← store A_Slots (Slots ptChip) sl slot;
    Ok (set_Slots slots ptChip, s32 (smpl + l), s32 (smpr + r))
  else Ok acc.

Fixpoint slots_loop (T : Tables) (n : nat) (sl : Z) (acc : MultiPCM * Z * Z)
  : result (MultiPCM * Z * Z) :=
  match n with
  | O => Ok acc
  | S n =>
      acc ← update_slot T acc sl;
      slots_loop T n (sl + 1) acc
  end.

(** One iteration of [for(i=0;i<samples;++i)]. *)
Definition update_sample (T : Tables) (st : MultiPCM * (list Z * list Z)) (i : Z)
  : result (MultiPCM * (list Z * list Z)) :=
  let '(ptChip, (out0, out1)) := st in
  '(ptChip, smpl, smpr) ← slots_loop T 28 0 (ptChip, 0, 0);
  out0 ← store A_out out0 i smpl;
  out1 ← store A_out out1 i smpr;
  Ok (ptChip, (out0, out1)).

Fixpoint samples_loop (T : Tables) (n : nat) (i : Z)
    (st : MultiPCM * (list Z * list Z)) : result (MultiPCM * (list Z * list Z)) :=
  match n with
  | O => Ok st
  | S n =>
      st ← update_sample T st i;
      samples_loop T n (i + 1) st
  end.

(** [MultiPCM_update]; [outputs] are the two caller-owned buffers. *)
Definition MultiPCM_update (T : Tables) (ptChip : MultiPCM) (samples : Z)
    (outputs : list Z * list Z) : result (MultiPCM * (list Z * list Z)) :=
  samples_loop T (Z.to_nat samples) 0 (ptChip, outputs).

(** ** Register interface *)

Definition val2chan : list Z :=
  [ 0;  1;  2;  3;  4;  5;  6; -1;
    7;  8;  9; 10; 11; 12; 13; -1;
   14; 15; 16; 17; 18; 19; 20; -1;
   21; 22; 23; 24; 25; 26; 27; -1].

Definition WriteSlot_at (T : Tables) (ptChip : MultiPCM) (data : Z)
  : result MultiPCM :=
  slot ← index A_Slots (Slots ptChip) (CurSlot ptChip);
  slot ← WriteSlot T ptChip slot (Address ptChip) data;
  slots ← store A_Slots (Slots ptChip) (CurSlot ptChip) slot;
  Ok (set_Slots slots ptChip).

(** [multipcm_w] *)
Definition multipcm_w (T : Tables) (ptChip : MultiPCM) (offset data : Z)
  : result MultiPCM :=
  match offset with
  | 0 =>
      if CurSlot ptChip =? -1 then Ok ptChip
      else WriteSlot_at T ptChip data
  | 1 =>
      ch ← index A_Slots val2chan (Z.land data 0x1f);
      Ok (set_CurSlot ch ptChip)
  | 2 => Ok (set_Address (if data >? 7 then 7 else data) ptChip)
  | _ => Ok ptChip
  end.

(** [multipcm_w_quick] *)
Definition multipcm_w_quick (T : Tables) (ptChip : MultiPCM) (offset data : Z)
  : result MultiPCM :=
  ch ← index A_Slots val2chan (Z.land (Z.shiftr offset 3) 0x1F);
  let ptChip := set_CurSlot ch ptChip in
  let ptChip := set_Address (Z.land offset 0x07) ptChip in
  if CurSlot ptChip =? -1 then Ok ptChip
  else WriteSlot_at T ptChip data.

(** [multipcm_set_bank] *)
Definition multipcm_set_bank (ptChip : MultiPCM) (leftoffs rightoffs : Z)
  : MultiPCM :=
  set_BankR rightoffs (set_BankL leftoffs ptChip).

(** [multipcm_bank_write] *)
Definition multipcm_bank_write (ptChip : MultiPCM) (offset data : Z) : MultiPCM :=
  let ptChip := if truthy (Z.land offset 0x01)
                then set_BankL (u32 (Z.shiftl data 16)) ptChip else ptChip in
  if truthy (Z.land offset 0x02)
  then set_BankR (u32 (Z.shiftl data 16)) ptChip else ptChip.

(** [device_reset_multipcm] *)
Definition device_reset_multipcm (ptChip : MultiPCM) : MultiPCM :=
  set_Slots
    (imap (fun i s => SLOT.set_Playing 0
                        (SLOT.mk (u8 (Z.of_nat i)) (SLOT.Regs s) (SLOT.Playing s)
                           (SLOT.Sample s) (SLOT.Base s) (SLOT.offset s)
                           (SLOT.step s) (SLOT.Pan s) (SLOT.TL s) (SLOT.DstTL s)
                           (SLOT.TLStep s) (SLOT.Prev s) (SLOT.EG s) (SLOT.PLFO s)
                           (SLOT.ALFO s) (SLOT.Muted s)))
          (Slots ptChip))
    ptChip.

(** [multipcm_set_mute_mask] *)
Definition multipcm_set_mute_mask (ptChip : MultiPCM) (MuteMask : Z) : MultiPCM :=
  set_Slots
    (imap (fun CurChn s =>
             SLOT.mk (SLOT.Num s) (SLOT.Regs s) (SLOT.Playing s)
               (SLOT.Sample s) (SLOT.Base s) (SLOT.offset s)
               (SLOT.step s) (SLOT.Pan s) (SLOT.TL s) (SLOT.DstTL s)
               (SLOT.TLStep s) (SLOT.Prev s) (SLOT.EG s) (SLOT.PLFO s)
               (SLOT.ALFO s) (Z.land (Z.shiftr MuteMask (Z.of_nat CurChn)) 0x01))
          (Slots ptChip))
    ptChip.

(** ** ROM *)

(** [for (ROMMask = 1; ROMMask < memsize; ROMMask <<= 1) ;] on [UINT32]. *)
Fixpoint ROMMask_loop (fuel : nat) (mask memsize : Z) : result Z :=
  if mask <? memsize then
    match fuel with
    | O => Err Diverges
    | S fuel => ROMMask_loop fuel (u32 (Z.shiftl mask 1)) memsize
    end
  else Ok mask.

(** [multipcm_alloc_rom]; [realloc] is taken to succeed. *)
Definition multipcm_alloc_rom (fuel : nat) (ptChip : MultiPCM) (memsize : Z)
  : result MultiPCM :=
  if ROMSize ptChip =? memsize then Ok ptChip
  else
    let ptChip := set_ROMSize memsize ptChip in
    let ptChip := set_ROM (replicate (Z.to_nat memsize) 0xFF) ptChip in
    mask ← ROMMask_loop fuel 1 memsize;
    Ok (set_ROMMask (u32 (mask - 1)) ptChip).

(** [memcpy(dst + offset, src, n)] *)
Definition memcpy (dst : list Z) (offset : Z) (src : list Z) (n : Z)
  : result (list Z) :=
  if n =? 0 then Ok dst
  else if Z.of_nat (length dst) <? offset + n
  then Err (OutOfBoundsWrite A_ROM (Z.of_nat (length dst)))
  else if Z.of_nat (length src) <? n
  then Err (OutOfBounds A_data (Z.of_nat (length src)))
  else Ok (take (Z.to_nat offset) dst ++ take (Z.to_nat n) src
           ++ drop (Z.to_nat (offset + n)) dst).

(** The descriptor parsed from the 12 bytes at [ROM + CurSmpl * 12]. *)
Definition parse_Sample (rom : list Z) (CurSmpl : Z) : result Sample.t :=
  let ptSample k := index A_ROM rom (CurSmpl * 12 + k) in
  b0 ← ptSample 0; b1 ← ptSample 1; b2 ← ptSample 2;
  b3 ← ptSample 3; b4 ← ptSample 4;
  b5 ← ptSample 5; b6 ← ptSample 6;
  b7 ← ptSample 7; b8 ← ptSample 8; b9 ← ptSample 9;
  b10 ← ptSample 10; b11 ← ptSample 11;
  Ok {| Sample.Start := Z.lor (Z.lor (Z.shiftl b0 16) (Z.shiftl b1 8)) (Z.shiftl b2 0);
        Sample.Loop := Z.lor (Z.shiftl b3 8) (Z.shiftl b4 0);
        Sample.End_ := 0xffff - Z.lor (Z.shiftl b5 8) (Z.shiftl b6 0);
        Sample.LFOVIB := b7;
        Sample.DR1 := Z.land b8 0xf;
        Sample.AR := Z.land (Z.shiftr b8 4) 0xf;
        Sample.DR2 := Z.land b9 0xf;
        Sample.DL := Z.land (Z.shiftr b9 4) 0xf;
        Sample.RR := Z.land b10 0xf;
        Sample.KRS := Z.land (Z.shiftr b10 4) 0xf;
        Sample.AM := b11 |}.

(** [for (CurSmpl = 0; CurSmpl < 512; CurSmpl ++)] *)
Fixpoint rebuild_loop (n : nat) (CurSmpl : Z) (rom : list Z)
    (samples : list Sample.t) : result (list Sample.t) :=
  match n with
  | O => Ok samples
  | S n =>
      smp ← parse_Sample rom CurSmpl;
      samples ← store A_Samples samples CurSmpl smp;
      rebuild_loop n (CurSmpl + 1) rom samples
  end.

(** [multipcm_write_rom]; [offset + length] is a [UINT32] sum. *)
Definition multipcm_write_rom (ptChip : MultiPCM) (offset length : Z)
    (data : list Z) : result MultiPCM :=
  if offset >? ROMSize ptChip then Ok ptChip
  else
    let length := if u32 (offset + length) >? ROMSize ptChip
                  then u32 (ROMSize ptChip - offset) else length in
    rom ← memcpy (ROM ptChip) offset data length;
    let ptChip := set_ROM rom ptChip in
    if offset <? 0x200 * 12 then
      samples ← rebuild_loop 512 0 (ROM ptChip) (Samples ptChip);
      Ok (set_Samples samples ptChip)
    else Ok ptChip.

(** ** Start-up: the pan/volume table *)

Definition FIX (v : float) : Z :=
  f_to_u32 (f_single (fmul (f_of_Z (Z.shiftl 1 SHIFT)) v)).

(** The attenuation [TL] of entry [i], after [TL/=4.0]. *)
Definition pan_TL (i : Z) : float :=
  let iTL := u8 (Z.land i 0x7f) in
  let SegaDB := f_single (fdiv (fmul (f_of_Z iTL) (f_of_Z (-24))) (f_of_Z 0x40)) in
  let TL := f_single (fpow (f_of_Z 10) (fdiv SegaDB (f_of_Z 20))) in
  f_single (fdiv TL (f_of_Z 4)).

(** [LPAN] and [RPAN] of entry [i]. *)
Definition pan_LR (i : Z) : float * float :=
  let iPAN := u8 (Z.land (Z.shiftr i 7) 0xf) in
  if iPAN =? 0x8 then (f_of_Z 0, f_of_Z 0)
  else if iPAN =? 0x0 then (f_of_Z 1, f_of_Z 1)
  else if truthy (Z.land iPAN 0x8) then
    let iPAN := u8 (0x10 - iPAN) in
    let SegaDB := f_single (fdiv (fmul (f_of_Z iPAN) (f_of_Z (-12))) (f_of_Z 0x4)) in
    let RPAN := f_single (fpow (f_of_Z 10) (fdiv SegaDB (f_of_Z 20))) in
    let RPAN := if Z.land iPAN 0x7 =? 7 then f_of_Z 0 else RPAN in
    (f_of_Z 1, RPAN)
  else
    let SegaDB := f_single (fdiv (fmul (f_of_Z iPAN) (f_of_Z (-12))) (f_of_Z 0x4)) in
    let LPAN := f_single (fpow (f_of_Z 10) (fdiv SegaDB (f_of_Z 20))) in
    let LPAN := if Z.land iPAN 0x7 =? 7 then f_of_Z 0 else LPAN in
    (LPAN, f_of_Z 1).

(** The loop [for(i=0;i<0x800;++i)] of [device_start_multipcm]; the entries
    are stored in [signed int] tables. *)
Definition LPANTABLE_at (i : Z) : Z :=
  s32 (FIX (f_single (fmul (fst (pan_LR i)) (pan_TL i)))).
Definition RPANTABLE_at (i : Z) : Z :=
  s32 (FIX (f_single (fmul (snd (pan_LR i)) (pan_TL i)))).

Definition build_LPANTABLE : list Z :=
  map (fun n => LPANTABLE_at (Z.of_nat n)) (seq 0 0x800).
Definition build_RPANTABLE : list Z :=
  map (fun n => RPANTABLE_at (Z.of_nat n)) (seq 0 0x800).

(** The chip as [device_start_multipcm] leaves it: [calloc] zeroes the
    structure, then the rate and the per-chip tables are stored. *)
Definition device_start_state (rate : float) (ar dr fns : list Z) : MultiPCM :=
  {| Samples := replicate 0x200 Sample.zero;
     Slots := replicate 28 SLOT.zero;
     CurSlot := 0; Address := 0; BankR := 0; BankL := 0;
     Rate := rate;
     ROMMask := 0; ROMSize := 0; ROM := [];
     ARStep := ar; DRStep := dr; FNS_Table := fns |}.

(** [ROM] holds [ROMSize] bytes and the descriptor table its 512 entries. *)
Definition chip_ok (ptChip : MultiPCM) : Prop :=
  Z.of_nat (length (ROM ptChip)) = ROMSize ptChip /\
  length (Samples ptChip) = 0x200%nat.

(** The ROM after [n = min(length, ROMSize - offset)] bytes of [data] have
    been copied to [offset]. *)
Definition ROM_written (ptChip : MultiPCM) (offset length : Z) (data : list Z)
  : list Z :=
  let n := Z.min length (ROMSize ptChip - offset) in
  take (Z.to_nat offset) (ROM ptChip) ++ take (Z.to_nat n) data
  ++ drop (Z.to_nat (offset + n)) (ROM ptChip).

(** [samples] is the table parsed from the first 6144 bytes of [rom]. *)
Definition Samples_parsed (rom : list Z) (samples : list Sample.t) : Prop :=
  length samples = 0x200%nat /\
  forall j, 0 <= j < 0x200 ->
    exists s, samples !! Z.to_nat j = Some s /\ parse_Sample rom j = Ok s.

(** The stream of [n] output samples: the voice loop run [n] times, with
    no buffer in sight. *)
Fixpoint render (T : Tables) (n : nat) (ptChip : MultiPCM)
  : result (MultiPCM * list Z * list Z) :=
  match n with
  | O => Ok (ptChip, [], [])
  | S n =>
      '(ptChip, smpl, smpr) ← slots_loop T 28 0 (ptChip, 0, 0);
      '(ptChip, ls, rs) ← render T n ptChip;
      Ok (ptChip, smpl :: ls, smpr :: rs)
  end.

(** An LFO whose pointers are set: a 256-entry triangle whose values,
    moved by [bias], index the scale table. *)
Definition LFO_ok (bias : Z) (L : LFO.t) : Prop :=
  exists tab sc,
    LFO.table L = Some tab /\ LFO.scale L = Some sc /\
    length tab = 256%nat /\
    Forall (fun p => 0 <= p + bias < Z.of_nat (length sc)) tab.

(** The level [TL >> SHIFT] is a 7-bit value that the ramp moves towards
    [DstTL], by less than one level per sample. *)
Definition TL_ramp_ok (slot : SLOT.t) : Prop :=
  let level := Z.shiftr (SLOT.TL slot) SHIFT in
  0 <= SLOT.TL slot /\ level <= 0x7f /\ 0 <= SLOT.DstTL slot <= 0x7f /\
  (level = SLOT.DstTL slot \/
   (level < SLOT.DstTL slot /\ 0 <= SLOT.TLStep slot <= Z.shiftl 1 SHIFT) \/
   (SLOT.DstTL slot < level /\ - Z.shiftl 1 SHIFT <= SLOT.TLStep slot <= 0)).

(** A voice as key-on and the register writes leave it: a latched sample,
    LFOs set when their depth is, EG rates and volume in range, a 4-bit pan
    and a level that ramps within 7 bits. *)
Definition voice_ok (ptChip : MultiPCM) (slot : SLOT.t) : Prop :=
  (exists k, SLOT.Sample slot = Some k /\
             0 <= k < Z.of_nat (length (Samples ptChip))) /\
  (Z.land (Regs.r6 (SLOT.Regs slot)) 7 <> 0 -> LFO_ok 128 (SLOT.PLFO slot)) /\
  (Z.land (Regs.r7 (SLOT.Regs slot)) 7 <> 0 -> LFO_ok 0 (SLOT.ALFO slot)) /\
  EG_rates_ok (SLOT.EG slot) /\
  EG_volume_ok (SLOT.EG slot) /\
  0 <= SLOT.Pan slot <= 0xf /\
  TL_ramp_ok slot.

(** A chip on which a render call returns: tables of the C sizes, a ROM
    that covers its mask (its size a power of two), 28 voices, each of them
    idle, muted or well formed. *)
Definition render_ok (T : Tables) (ptChip : MultiPCM) : Prop :=
  Tables_sized T /\
  0 <= ROMMask ptChip < Z.of_nat (length (ROM ptChip)) /\
  length (Slots ptChip) = 28%nat /\
  Forall (fun s => SLOT.Playing s = 0 \/ SLOT.Muted s <> 0 \/ voice_ok ptChip s)
         (Slots ptChip).

(** No voice is both playing and unmuted. *)
Definition all_silent (ptChip : MultiPCM) : Prop :=
  Forall (fun s => SLOT.Playing s = 0 \/ SLOT.Muted s <> 0) (Slots ptChip).

#[global] Instance all_silent_dec (ptChip : MultiPCM) : Decision (all_silent ptChip).
Proof. unfold all_silent. apply _. Defined.

End Chip.

(** ** Concrete data on which the definitions are run *)

(** Exact integer arithmetic in place of floating point, for runs in which
    the rounded values play no part. *)
Definition Z_arith : FloatArith :=
  {| float := Z;
     f_of_Z := fun z => z;
     f_dec := fun m e => Z.quot m (10 ^ e);
     f_single := fun x => x;
     fmul := Z.mul;
     fdiv := Z.quot;
     fpow := Z.pow;
     f_to_u32 := fun z => Z.rem z (2 ^ 32) |}.

(** [ARStep] and [DRStep] as the start-up loop computes them. *)
Definition ARStep_sample : list Z :=
  [0; 0; 0; 0; 244; 305; 366; 427; 489; 611; 733; 855; 978; 1222; 1467; 1711;
   1956; 2445; 2934; 3423; 3912; 4890; 5868; 6846; 7825; 9779; 11736; 13689;
   15650; 19554; 23465; 27369; 31298; 39109; 46923; 54738; 62597; 78198;
   93703; 109320; 125246; 156076; 187406; 218014; 250286; 310559; 372976;
   436029; 500573; 611141; 714433; 800917; 884734; 1079250; 1289612; 1463214;
   1672244; 2084579; 2579225; 3043485; 3381650; 3381650; 3381650; 67108864].

Definition DRStep_sample : list Z :=
  [0; 0; 0; 0; 17; 21; 25; 29; 34; 42; 51; 59; 68; 85; 102; 119; 136; 170;
   204; 238; 273; 341; 409; 477; 546; 682; 819; 955; 1092; 1364; 1637; 1910;
   2184; 2729; 3274; 3820; 4368; 5457; 6539; 7629; 8741; 10892; 13079; 15215;
   17467; 21674; 26030; 30431; 34935; 42652; 49861; 55897; 61747; 75322;
   90004; 102120; 116708; 145486; 180008; 212410; 236011; 236011; 236011;
   236011].

(** Flat tables of the right sizes: unit gain in Q12, unit LFO scale in Q8. *)
Definition Tables_sample : Tables :=
  {| LPANTABLE := replicate 0x800 0x400;
     RPANTABLE := replicate 0x800 0x400;
     lin2expvol := replicate 0x400 0x1000;
     TLSteps := [-152; 76];
     PSCALES := replicate 8 (replicate 256 256);
     ASCALES := replicate 8 (replicate 256 256) |}.

(** [FNS_Table] at 44100 Hz: [Rate * (1024 + i) / 1024 * 2^SHIFT]. *)
Definition FNS_Table_sample : list Z :=
  map (fun i => 44100 * (1024 + Z.of_nat i) * 4) (seq 0 0x400).

(** A chip just started at 44100 Hz. *)
Definition chip_sample : @MultiPCM Z_arith :=
  @device_start_state Z_arith 44100 ARStep_sample DRStep_sample FNS_Table_sample.

(** The value a run returned ([d] if it failed). *)
Definition run {A : Type} (r : result A) (d : A) : A :=
  match r with
  | Ok a => a
  | Err _ => d
  end.

(** The 12 header bytes of the byte-order property. *)
Definition header_bytes : list Z :=
  [0x01; 0x02; 0x03; 0x04; 0x05; 0x00; 0x10; 0x00; 0x00; 0x00; 0x00; 0x00].

(** The sample chip after [multipcm_alloc_rom] of 16 and of 6144 bytes. *)
Definition chip_rom_16 : @MultiPCM Z_arith :=
  Eval vm_compute in run (@multipcm_alloc_rom Z_arith 32 chip_sample 16) chip_sample.

Definition chip_rom_6144 : @MultiPCM Z_arith :=
  Eval vm_compute in run (@multipcm_alloc_rom Z_arith 32 chip_sample 6144) chip_sample.

(** That chip after [write_rom(0, 12, header_bytes)], and after a write of
    no byte at offset 0. *)
Definition chip_byte_order : @MultiPCM Z_arith :=
  Eval vm_compute in
    run (@multipcm_write_rom Z_arith chip_rom_6144 0 12 header_bytes) chip_sample.

Definition chip_empty_write : @MultiPCM Z_arith :=
  Eval vm_compute in
    run (@multipcm_write_rom Z_arith chip_rom_6144 0 0 []) chip_sample.

(** Key-on of voice 0 (register 4, data [0x80]), a reset, then key-off
    (register 4, data [0x00]). *)
Definition key_on_reset_key_off : result (@MultiPCM Z_arith) :=
  c ← @multipcm_w Z_arith Tables_sample chip_rom_6144 2 4;
  c ← @multipcm_w Z_arith Tables_sample c 0 0x80;
  @multipcm_w Z_arith Tables_sample (@device_reset_multipcm Z_arith c) 0 0x00.

Definition chip_key_off : @MultiPCM Z_arith :=
  Eval vm_compute in run key_on_reset_key_off chip_sample.

(** A header for sample 0 with [AR = 1] (byte 8 is [0x10]), [KRS = 0] and
    [RR = 0] (byte 10 is [0x00]). *)
Definition header_AR1_KRS0 : list Z :=
  [0x00; 0x00; 0x00; 0x00; 0x00; 0x00; 0x00; 0x00; 0x10; 0x00; 0x00; 0x00].

(** From start-up: allocate and fill the ROM header, select voice 0, write
    [0x90] to register 3 (octave field 9) and key the voice on. *)
Definition key_on_octave_minus_8 : result (@MultiPCM Z_arith) :=
  c ← @multipcm_alloc_rom Z_arith 32 chip_sample 0x2000;
  c ← @multipcm_write_rom Z_arith c 0 12 header_AR1_KRS0;
  c ← @multipcm_w Z_arith Tables_sample c 1 0;
  c ← @multipcm_w Z_arith Tables_sample c 2 3;
  c ← @multipcm_w Z_arith Tables_sample c 0 0x90;
  c ← @multipcm_w Z_arith Tables_sample c 2 4;
  @multipcm_w Z_arith Tables_sample c 0 0x80.

(** A playing, unmuted voice on sample 0 whose two LFOs have the phase
    step [0x100]; [regs6] and [regs7] hold the depth fields. *)
Definition voice_with_depths (regs6 regs7 : Z) : SLOT.t :=
  let lfo tab := LFO.mk 0 0x100 (Some tab) (Some (replicate 256 256)) in
  SLOT.set_ALFO (lfo ALFO_TRI)
    (SLOT.set_PLFO (lfo PLFO_TRI)
       (SLOT.set_Regs (Regs.mk 0 0 0 0 0x80 0 regs6 regs7)
          (SLOT.set_step 0x1000
             (SLOT.set_Sample (Some 0) (SLOT.set_Playing 1 SLOT.zero))))).

(** One rendered sample of that voice on the 16-byte chip. *)
Definition voice_with_depths_next (regs6 regs7 : Z) : SLOT.t * Z * Z :=
  run (@voice_update Z_arith Tables_sample chip_rom_16 (voice_with_depths regs6 regs7))
      (SLOT.zero, 0, 0).

(** A header for sample 0: [Start = 12], [Loop = 0], [End = 0x10],
    [AR = 8], [DR1 = 0xA], [DL = 5], [DR2 = 0xB], [KRS = 0], [RR = 7]. *)
Definition header_envelope : list Z :=
  [0x00; 0x00; 0x0c; 0x00; 0x00; 0xff; 0xef; 0x00; 0x8A; 0x5B; 0x07; 0x00].

(** From start-up: ROM and header, voice 0 selected, octave 0 in register 3,
    level 0 set at once in register 5, key-on. *)
Definition key_on_script : result (@MultiPCM Z_arith) :=
  c ← @multipcm_alloc_rom Z_arith 32 chip_sample 0x2000;
  c ← @multipcm_write_rom Z_arith c 0 12 header_envelope;
  c ← @multipcm_w Z_arith Tables_sample c 1 0;
  c ← @multipcm_w Z_arith Tables_sample c 2 3;
  c ← @multipcm_w Z_arith Tables_sample c 0 0x10;
  c ← @multipcm_w Z_arith Tables_sample c 2 5;
  c ← @multipcm_w Z_arith Tables_sample c 0 0x01;
  c ← @multipcm_w Z_arith Tables_sample c 2 4;
  @multipcm_w Z_arith Tables_sample c 0 0x80.

(** The chip that script leaves, its voice 0, and the slot [EG_Calc]
    returns for that voice. *)
Definition chip_keyed : @MultiPCM Z_arith :=
  Eval vm_compute in run key_on_script chip_sample.

Definition voice_keyed : SLOT.t :=
  Eval vm_compute in default SLOT.zero (Slots chip_keyed !! 0%nat).

Definition voice_keyed_calc : SLOT.t :=
  Eval vm_compute in run (@EG_Calc Z_arith chip_keyed voice_keyed) SLOT.zero.

(** * Further definitions: the state the interface keeps *)

Definition is_byte (z : Z) : Prop := 0 <= z <= 255.

(** The voice [val2chan] gives for a 5-bit selector: every eighth value is a
    gap. *)
Definition chan_of (v : Z) : Z :=
  if Z.land v 7 =? 7 then -1 else v - Z.shiftr v 3.

(** The index [Get_RATE] reads for a rate field [val] is in the table. *)
Definition rate_index_ok (rate val : Z) : Prop :=
  val = 0 \/ val = 0xf \/ 0 <= 4 * val + rate.

(** The fields of a descriptor as [multipcm_write_rom] parses them from
    bytes. *)
Definition Sample_ranged (s : Sample.t) : Prop :=
  0 <= Sample.Start s < 2 ^ 24 /\
  0 <= Sample.Loop s < 2 ^ 16 /\
  0 <= Sample.End_ s < 2 ^ 16 /\
  0 <= Sample.AR s <= 0xf /\ 0 <= Sample.DR1 s <= 0xf /\
  0 <= Sample.DR2 s <= 0xf /\ 0 <= Sample.DL s <= 0xf /\
  0 <= Sample.RR s <= 0xf /\ 0 <= Sample.KRS s <= 0xf /\
  is_byte (Sample.LFOVIB s) /\ is_byte (Sample.AM s).

(** The order in which the envelope goes through its states. *)
Definition state_rank (s : _STATE) : Z :=
  match s with
  | ATTACK => 0
  | DECAY1 => 1
  | DECAY2 => 2
  | RELEASE => 3
  end.

(** [TLSteps] as start-up leaves it: a step down and a step up, each of at
    most one level per sample. *)
Definition TLSteps_ok (T : Tables) : Prop :=
  exists lower raise,
    TLSteps T = [lower; raise] /\
    - Z.shiftl 1 SHIFT <= lower <= 0 /\ 0 <= raise <= Z.shiftl 1 SHIFT.

(** The rows of [PSCALES] and [ASCALES] have their 256 entries. *)
Definition SCALES_ok (T : Tables) : Prop :=
  Forall (fun row => length row = 256%nat) (PSCALES T) /\
  Forall (fun row => length row = 256%nat) (ASCALES T).

(** What the register writes and the render loop keep true of a voice:
    the sample and pitch registers hold bytes, the pan is a 4-bit value, the
    level ramps within 7 bits, the two LFOs are set once a non-zero byte
    has been written to register 6 or 7, and a playing voice has latched
    one of the first 256 descriptors and has its envelope in range. *)
Definition slot_inv (slot : SLOT.t) : Prop :=
  is_byte (Regs.r1 (SLOT.Regs slot)) /\
  is_byte (Regs.r2 (SLOT.Regs slot)) /\
  0 <= SLOT.Pan slot <= 0xf /\
  TL_ramp_ok slot /\
  (Regs.r6 (SLOT.Regs slot) <> 0 \/ Regs.r7 (SLOT.Regs slot) <> 0 ->
     LFO_ok 128 (SLOT.PLFO slot) /\ LFO_ok 0 (SLOT.ALFO slot)) /\
  (SLOT.Playing slot <> 0 ->
     (exists k, SLOT.Sample slot = Some k /\ 0 <= k <= 0xff) /\
     EG_rates_ok (SLOT.EG slot) /\ EG_volume_ok (SLOT.EG slot)).

(** The outcome of a write of [data] to register [reg] of a well-formed
    voice: a well-formed voice, or the one fault there is, a read below a
    step table at key-on. *)
Definition write_result_ok (reg data : Z) (r : result SLOT.t) : Prop :=
  match r with
  | Ok slot' => slot_inv slot'
  | Err e => reg = 4 /\ Z.land data 0x80 <> 0 /\
             exists i, i < 0 /\ e = OutOfBounds A_Steps i
  end.

Section Interface.
Context {FA : FloatArith}.

(** [Address] selects one of the 8 registers and [CurSlot] is a voice or the
    gap value -1. *)
Definition iface_ok (ptChip : MultiPCM) : Prop :=
  0 <= Address ptChip <= 7 /\
  (CurSlot ptChip = -1 \/ 0 <= CurSlot ptChip < 28).

(** The chip between calls of its interface: tables of the C sizes, the
    register-select state in range and every voice well formed. *)
Definition chip_inv (T : Tables) (ptChip : MultiPCM) : Prop :=
  Tables_sized T /\ TLSteps_ok T /\ SCALES_ok T /\
  Steps_ok (ARStep ptChip) /\ Steps_ok (DRStep ptChip) /\
  length (FNS_Table ptChip) = 0x400%nat /\
  length (Samples ptChip) = 0x200%nat /\
  length (Slots ptChip) = 28%nat /\
  iface_ok ptChip /\
  Forall slot_inv (Slots ptChip).

(** Every masked address is inside the ROM. *)
Definition ROM_covers (ptChip : MultiPCM) : Prop :=
  0 <= ROMMask ptChip < Z.of_nat (length (ROM ptChip)).

(** [multipcm_r]: reads return 0. *)
Definition multipcm_r (ptChip : MultiPCM) (offset : Z) : Z := 0.

End Interface.

(** ** Further concrete runs *)

(** Descriptor 0 as parsed from [header_envelope]. *)
Definition sample_envelope : Sample.t :=
  Sample.mk 12 0 0x10 8 0xA 0xB 5 7 0 0 0.

(** The keyed voice keyed on once more, and after a write of 0 to its
    sample register. *)
Definition voice_rekeyed : SLOT.t :=
  Eval vm_compute in
    run (@WriteSlot Z_arith Tables_sample chip_keyed voice_keyed 4 0x80) SLOT.zero.

Definition voice_reselected : SLOT.t :=
  Eval vm_compute in
    run (@WriteSlot Z_arith Tables_sample chip_keyed voice_keyed 1 0) SLOT.zero.

(** The keyed voice after one envelope step, and after one rendered
    sample. *)
Definition voice_keyed_EG_next : SLOT.t * Z :=
  Eval vm_compute in run (EG_Update Tables_sample voice_keyed) (SLOT.zero, 0).

Definition voice_keyed_rendered : SLOT.t * Z * Z :=
  Eval vm_compute in
    run (@voice_update Z_arith Tables_sample chip_keyed voice_keyed)
        (SLOT.zero, 0, 0).

(** The keyed chip after one rendered sample. *)
Definition chip_keyed_rendered : @MultiPCM Z_arith * list Z * list Z :=
  Eval vm_compute in
    run (@render Z_arith Tables_sample 1 chip_keyed) (chip_sample, [], []).

(** The keyed chip after three rendered samples and a key-off of voice 0,
    and that voice. *)
Definition chip_released : @MultiPCM Z_arith :=
  Eval vm_compute in
    run ('(c, _, _) ← @render Z_arith Tables_sample 3 chip_keyed;
         @multipcm_w Z_arith Tables_sample c 0 0x00) chip_sample.

Definition voice_released : SLOT.t :=
  Eval vm_compute in default SLOT.zero (Slots chip_released !! 0%nat).

(** The chip of [key_on_octave_minus_8] before its last write. *)
Definition chip_octave_minus_8 : @MultiPCM Z_arith :=
  Eval vm_compute in
    run (c ← @multipcm_alloc_rom Z_arith 32 chip_sample 0x2000;
         c ← @multipcm_write_rom Z_arith c 0 12 header_AR1_KRS0;
         c ← @multipcm_w Z_arith Tables_sample c 1 0;
         c ← @multipcm_w Z_arith Tables_sample c 2 3;
         c ← @multipcm_w Z_arith Tables_sample c 0 0x90;
         @multipcm_w Z_arith Tables_sample c 2 4) chip_sample.

(** The keyed chip after a key-off of voice 0. *)
Definition chip_keyed_off : @MultiPCM Z_arith :=
  Eval vm_compute in
    run (@multipcm_w Z_arith Tables_sample chip_keyed 0 0x00) chip_sample.

(** The keyed chip with voice 1 muted, after one rendered sample. *)
Definition chip_keyed_other_rendered : @MultiPCM Z_arith * list Z * list Z :=
  Eval vm_compute in
    run (@render Z_arith Tables_sample 1 (@multipcm_set_mute_mask Z_arith chip_keyed 2))
        (chip_sample, [], []).

(** From start-up: ROM and the header with [AR = 1] and [RR = 0], voice 0
    selected, octave 0 in register 3, key-on, three rendered samples,
    key-off; and voice 0 of that chip. *)
Definition chip_held : @MultiPCM Z_arith :=
  Eval vm_compute in
    run (c ← @multipcm_alloc_rom Z_arith 32 chip_sample 0x2000;
         c ← @multipcm_write_rom Z_arith c 0 12 header_AR1_KRS0;
         c ← @multipcm_w Z_arith Tables_sample c 1 0;
         c ← @multipcm_w Z_arith Tables_sample c 2 3;
         c ← @multipcm_w Z_arith Tables_sample c 0 0x10;
         c ← @multipcm_w Z_arith Tables_sample c 2 4;
         c ← @multipcm_w Z_arith Tables_sample c 0 0x80;
         '(c, _, _) ← @render Z_arith Tables_sample 3 c;
         @multipcm_w Z_arith Tables_sample c 0 0x00) chip_sample.

Definition voice_held : SLOT.t :=
  Eval vm_compute in default SLOT.zero (Slots chip_held !! 0%nat).

(** ** Fixed-point arithmetic, and the pan table computed in it *)

(** Binary fixed point in place of floating point: [Some n] is the number
    [n / 2^32], with [n] of at most 96 bits, and [None] is what such a number
    cannot hold (an overflow, a division by zero, a power of a negative
    base).  Results are truncated towards zero; [None] is absorbing, so zero
    times [None] is not zero. *)
Module Fixed.

Definition one : Z := 2 ^ 32.

Definition fits (n : Z) : option Z :=
  if Z.abs n <? 2 ^ 95 then Some n else None.

Definition of_Z (z : Z) : option Z := fits (z * one).

Definition dec (m e : Z) : option Z := fits (Z.quot (m * one) (10 ^ e)).

Definition mul (x y : option Z) : option Z :=
  match x, y with
  | Some a, Some b => fits (Z.quot (a * b) one)
  | _, _ => None
  end.

Definition div (x y : option Z) : option Z :=
  match x, y with
  | Some a, Some b => if b =? 0 then None else fits (Z.quot (a * one) b)
  | _, _ => None
  end.

(** [b^n] for a natural [n]. *)
Fixpoint pow_nat (b : Z) (n : nat) : Z :=
  match n with
  | O => one
  | S n => Z.quot (b * pow_nat b n) one
  end.

(** [b^e] for a fraction [e] of [bits] bits: the product of the repeated
    square roots of [b] at the bits of [e] that are set. *)
Fixpoint pow_frac (root e : Z) (bits : nat) : Z :=
  match bits with
  | O => one
  | S k =>
      let root := Z.sqrt (root * one) in
      let rest := pow_frac root e k in
      if Z.testbit e (Z.of_nat k) then Z.quot (root * rest) one else rest
  end.

Definition pow_pos (b e : Z) : Z :=
  Z.quot (pow_nat b (Z.to_nat (Z.quot e one)) * pow_frac b (Z.rem e one) 32) one.

Definition pow (x y : option Z) : option Z :=
  match x, y with
  | Some b, Some e =>
      if b <? 0 then None
      else if 0 <=? e then fits (pow_pos b e)
      else let p := pow_pos b (- e) in
           if p =? 0 then None else fits (Z.quot (one * one) p)
  | _, _ => None
  end.

Definition to_u32 (x : option Z) : Z :=
  match x with
  | Some n => Z.rem (Z.quot n one) (2 ^ 32)
  | None => 0
  end.

End Fixed.

Definition Fixed_arith : FloatArith :=
  {| float := option Z;
     f_of_Z := Fixed.of_Z;
     f_dec := Fixed.dec;
     f_single := fun x => x;
     fmul := Fixed.mul;
     fdiv := Fixed.div;
     fpow := Fixed.pow;
     f_to_u32 := Fixed.to_u32 |}.

(** The pan tables as the start-up loop builds them in fixed point; the
    other tables flat, as in [Tables_sample]. *)
Definition Tables_fixed : Tables :=
  {| LPANTABLE := @build_LPANTABLE Fixed_arith;
     RPANTABLE := @build_RPANTABLE Fixed_arith;
     lin2expvol := replicate 0x400 0x1000;
     TLSteps := [-152; 76];
     PSCALES := replicate 8 (replicate 256 256);
     ASCALES := replicate 8 (replicate 256 256) |}.

(** A chip just started at 44100 Hz, in fixed point. *)
Definition chip_fixed : @MultiPCM Fixed_arith :=
  @device_start_state Fixed_arith (@f_of_Z Fixed_arith 44100)
    ARStep_sample DRStep_sample FNS_Table_sample.

(** Four bytes of wave data for sample 0, stored from [Start = 12]. *)
Definition wave_bytes : list Z := [0x10; 0x20; 0x30; 0x40].

(** From start-up: ROM, header and wave data; then voices 0 and 1 are given
    pan 0 (register 0 is [0x00]) and pan 8 (register 0 is [0x80]), and both
    the pitch [0x80] in register 2, octave 0 in register 3, level 5 set at
    once in register 5 ([0x0B]) and a key-on; then one sample is
    rendered. *)
Definition key_on_panned : result (@MultiPCM Fixed_arith) :=
  c ← @multipcm_alloc_rom Fixed_arith 32 chip_fixed 0x2000;
  c ← @multipcm_write_rom Fixed_arith c 0 12 header_envelope;
  c ← @multipcm_write_rom Fixed_arith c 12 4 wave_bytes;
  c ← @multipcm_w Fixed_arith Tables_fixed c 1 0;
  c ← @multipcm_w Fixed_arith Tables_fixed c 2 0;
  c ← @multipcm_w Fixed_arith Tables_fixed c 0 0x00;
  c ← @multipcm_w Fixed_arith Tables_fixed c 2 2;
  c ← @multipcm_w Fixed_arith Tables_fixed c 0 0x80;
  c ← @multipcm_w Fixed_arith Tables_fixed c 2 3;
  c ← @multipcm_w Fixed_arith Tables_fixed c 0 0x10;
  c ← @multipcm_w Fixed_arith Tables_fixed c 2 5;
  c ← @multipcm_w Fixed_arith Tables_fixed c 0 0x0B;
  c ← @multipcm_w Fixed_arith Tables_fixed c 2 4;
  c ← @multipcm_w Fixed_arith Tables_fixed c 0 0x80;
  c ← @multipcm_w Fixed_arith Tables_fixed c 1 1;
  c ← @multipcm_w Fixed_arith Tables_fixed c 2 0;
  c ← @multipcm_w Fixed_arith Tables_fixed c 0 0x80;
  c ← @multipcm_w Fixed_arith Tables_fixed c 2 2;
  c ← @multipcm_w Fixed_arith Tables_fixed c 0 0x80;
  c ← @multipcm_w Fixed_arith Tables_fixed c 2 3;
  c ← @multipcm_w Fixed_arith Tables_fixed c 0 0x10;
  c ← @multipcm_w Fixed_arith Tables_fixed c 2 5;
  c ← @multipcm_w Fixed_arith Tables_fixed c 0 0x0B;
  c ← @multipcm_w Fixed_arith Tables_fixed c 2 4;
  c ← @multipcm_w Fixed_arith Tables_fixed c 0 0x80;
  '(c, _, _) ← @render Fixed_arith Tables_fixed 1 c;
  Ok c.

(** The chip that script leaves, its voices 0 and 1, and what the next
    rendered sample of each gives. *)
Definition chip_panned : @MultiPCM Fixed_arith :=
  Eval vm_compute in run key_on_panned chip_fixed.

Definition voice_centre : SLOT.t :=
  Eval vm_compute in default SLOT.zero (Slots chip_panned !! 0%nat).

Definition voice_muted : SLOT.t :=
  Eval vm_compute in default SLOT.zero (Slots chip_panned !! 1%nat).

Definition voice_centre_rendered : SLOT.t * Z * Z :=
  Eval lazy in
    run (@voice_update Fixed_arith Tables_fixed chip_panned voice_centre)
        (SLOT.zero, 0, 0).

Definition voice_muted_rendered : SLOT.t * Z * Z :=
  Eval lazy in
    run (@voice_update Fixed_arith Tables_fixed chip_panned voice_muted)
        (SLOT.zero, 0, 0).

(** * Properties *)

(** ** Arithmetic and lookup facts *)

Lemma s32_small (z : Z) : - 2 ^ 31 <= z < 2 ^ 31 -> s32 z = z.
Proof.
  intros Hz. unfold s32.
  rewrite Z.mod_small by lia. lia.
Qed.

Lemma u32_small (z : Z) : 0 <= z < 2 ^ 32 -> u32 z = z.
Proof. intros Hz. unfold u32. apply Z.mod_small. lia. Qed.

Lemma index_Ok {A : Type} (a : array) (l : list A) (i : Z) (x : A) :
  index a l i = Ok x <-> 0 <= i /\ l !! Z.to_nat i = Some x.
Proof.
  unfold index. destruct (Z.ltb_spec i 0) as [Hi | Hi].
  - split; [discriminate | lia].
  - destruct (l !! Z.to_nat i) as [y |] eqn:Hl.
    + split.
      * intros [= ->]. auto.
      * intros [_ [= ->]]. reflexivity.
    + split; [discriminate | intros [_ [=]]].
Qed.

Lemma index_in_range {A : Type} (a : array) (l : list A) (i : Z) :
  0 <= i < Z.of_nat (length l) -> exists x, index a l i = Ok x.
Proof.
  intros Hi.
  destruct (lookup_lt_is_Some_2 l (Z.to_nat i)) as [x Hx]; [lia |].
  exists x. apply index_Ok. split; [lia | exact Hx].
Qed.

Lemma index_out_of_range {A : Type} (a : array) (l : list A) (i : Z) :
  i < 0 \/ Z.of_nat (length l) <= i -> index a l i = Err (OutOfBounds a i).
Proof.
  intros Hi. unfold index. destruct (Z.ltb_spec i 0) as [Hneg | Hneg]; [done |].
  rewrite lookup_ge_None_2; [done | lia].
Qed.

Lemma index_elem_of {A : Type} (a : array) (l : list A) (i : Z) (x : A) :
  index a l i = Ok x -> x ∈ l.
Proof.
  intros [_ Hl]%index_Ok. apply list_elem_of_lookup. eauto.
Qed.

Lemma bind_Ok {A B : Type} (r : result A) (k : A -> result B) (b : B) :
  r ≫= k = Ok b -> exists a, r = Ok a /\ k a = Ok b.
Proof. destruct r as [a | e]; [eauto | discriminate]. Qed.

Lemma shiftr_EG_range (v : Z) :
  0 <= v <= EG_VOLUME_MAX -> 0 <= Z.shiftr v EG_SHIFT < 0x400.
Proof.
  intros Hv. rewrite Z.shiftr_div_pow2 by (unfold EG_SHIFT; lia).
  change EG_VOLUME_MAX with 67043328 in Hv.
  change (2 ^ EG_SHIFT) with 65536.
  split.
  - apply Z.div_pos; lia.
  - apply Z.div_lt_upper_bound; lia.
Qed.

(** ** Envelope generator *)

(** Splits on the comparison that guards the next [if] of the goal. *)
Ltac case_compare :=
  match goal with
  | |- context [if ?a >=? ?b then _ else _] => destruct (Z.geb_spec a b)
  | |- context [if ?a <=? ?b then _ else _] => destruct (Z.leb_spec a b)
  end.

Lemma EG_Update_step (T : Tables) (slot : SLOT.t) :
  length (lin2expvol T) = 0x400%nat ->
  EG_rates_ok (SLOT.EG slot) ->
  EG_volume_ok (SLOT.EG slot) ->
  exists slot' g,
    EG_Update T slot = Ok (slot', g) /\
    (EG.state (SLOT.EG slot) <> ATTACK ->
       EG.volume (SLOT.EG slot') <= EG.volume (SLOT.EG slot)) /\
    (EG.state (SLOT.EG slot) = ATTACK ->
       EG.volume (SLOT.EG slot) <= EG.volume (SLOT.EG slot')) /\
    EG_volume_ok (SLOT.EG slot').
Proof.
  intros Hlen (HAR & HD1 & HD2 & HRR) Hvol. unfold EG_Update.
  match goal with
  | |- context [index A_lin2expvol _ (Z.shiftr (EG.volume (SLOT.EG ?s)) _)] =>
      set (s1 := s)
  end.
  assert (Hs1 : (EG.state (SLOT.EG slot) <> ATTACK ->
                   EG.volume (SLOT.EG s1) <= EG.volume (SLOT.EG slot)) /\
                (EG.state (SLOT.EG slot) = ATTACK ->
                   EG.volume (SLOT.EG slot) <= EG.volume (SLOT.EG s1)) /\
                EG_volume_ok (SLOT.EG s1)).
  { subst s1. unfold EG_volume_ok in *.
    change EG_VOLUME_MAX with 67043328 in *. change INT_MAX with 2147483647 in *.
    change (Z.shiftl 1023 EG_SHIFT) with 67043328.
    destruct slot as [? ? ? ? ? ? ? ? ? ? ? ? [vol st ? ar d1r d2r rr dl] ? ? ?].
    cbn [SLOT.EG EG.volume EG.AR EG.D1R EG.D2R EG.RR EG.state] in *.
    destruct st; cbn [EG.volume EG.set_volume];
      match goal with
      | |- context [s32 (vol + ?x)] => rewrite (s32_small (vol + x)) by lia
      | |- context [s32 (vol - ?x)] => rewrite (s32_small (vol - x)) by lia
      end;
      repeat case_compare; cbn in *; repeat split; intros; (done || lia). }
  clearbody s1. destruct Hs1 as (Hdec & Hinc & Hok).
  destruct (index_in_range A_lin2expvol (lin2expvol T)
              (Z.shiftr (EG.volume (SLOT.EG s1)) EG_SHIFT)) as [g Hg].
  { rewrite Hlen. pose proof (shiftr_EG_range _ Hok). lia. }
  exists s1, g. rewrite Hg. done.
Qed.

Lemma Get_RATE_elem_of (Steps : list Z) (rate val x : Z) :
  Get_RATE Steps rate val = Ok x -> x ∈ Steps.
Proof.
  unfold Get_RATE.
  destruct (val =? 0); [apply index_elem_of |].
  destruct (val =? 15); apply index_elem_of.
Qed.

Lemma Steps_ok_rate (Steps : list Z) (x : Z) :
  Steps_ok Steps -> x ∈ Steps ->
  s32 x = x /\ 0 <= x <= INT_MAX - EG_VOLUME_MAX.
Proof.
  intros [_ Hall] Hin.
  rewrite list.Forall_forall in Hall. specialize (Hall x Hin).
  change (Z.shiftl 1024 EG_SHIFT) with 67108864 in Hall.
  change INT_MAX with 2147483647. change EG_VOLUME_MAX with 67043328.
  split; [apply s32_small |]; lia.
Qed.

Section EnvelopeRates.
Context {FA : FloatArith}.

Lemma EG_Calc_rates_ok (ptChip : MultiPCM) (s0 s1 : SLOT.t) :
  Steps_ok (ARStep ptChip) -> Steps_ok (DRStep ptChip) ->
  EG_Calc ptChip s0 = Ok s1 ->
  EG_rates_ok (SLOT.EG s1).
Proof.
  intros HA HD. unfold EG_Calc.
  intros (smp & _ & H)%bind_Ok.
  apply bind_Ok in H as (ar & Har & H).
  apply bind_Ok in H as (d1r & Hd1r & H).
  apply bind_Ok in H as (d2r & Hd2r & H).
  apply bind_Ok in H as (rr & Hrr & H).
  injection H as <-.
  apply Get_RATE_elem_of in Har, Hd1r, Hd2r, Hrr.
  destruct (Steps_ok_rate _ _ HA Har) as [-> ?].
  destruct (Steps_ok_rate _ _ HD Hd1r) as [-> ?].
  destruct (Steps_ok_rate _ _ HD Hd2r) as [-> ?].
  destruct (Steps_ok_rate _ _ HD Hrr) as [-> ?].
  unfold EG_rates_ok. cbn.
  change INT_MAX with 2147483647 in *. change EG_VOLUME_MAX with 67043328 in *.
  lia.
Qed.

(** C1. One [EG_Update] step of a voice whose rates [AR], [D1R], [D2R], [RR]
    are those [EG_Calc] produced from the chip's step tables and whose
    volume is within [0, 0x3ff << 16]: the step returns, the volume does not
    increase in DECAY1, DECAY2 and RELEASE, does not decrease in ATTACK, and
    is within [0, 0x3ff << 16] afterwards. *)
Theorem EG_Update_monotone_bounded
    (T : Tables) (ptChip : MultiPCM) (keyed calc slot : SLOT.t) :
  length (lin2expvol T) = 0x400%nat ->
  Steps_ok (ARStep ptChip) -> Steps_ok (DRStep ptChip) ->
  EG_Calc ptChip keyed = Ok calc ->
  same_rates (SLOT.EG slot) (SLOT.EG calc) ->
  0 <= EG.volume (SLOT.EG slot) <= Z.shiftl 0x3ff 16 ->
  exists slot' g,
    EG_Update T slot = Ok (slot', g) /\
    (EG.state (SLOT.EG slot) ∈ [DECAY1; DECAY2; RELEASE] ->
       EG.volume (SLOT.EG slot') <= EG.volume (SLOT.EG slot)) /\
    (EG.state (SLOT.EG slot) = ATTACK ->
       EG.volume (SLOT.EG slot) <= EG.volume (SLOT.EG slot')) /\
    0 <= EG.volume (SLOT.EG slot') <= Z.shiftl 0x3ff 16.
Proof.
  intros Hlen HA HD Hcalc (Har & Hd1 & Hd2 & Hrr) Hvol.
  pose proof (EG_Calc_rates_ok _ _ _ HA HD Hcalc) as Hrates.
  assert (Hr : EG_rates_ok (SLOT.EG slot)).
  { unfold EG_rates_ok in *. rewrite Har, Hd1, Hd2, Hrr. exact Hrates. }
  destruct (EG_Update_step T slot Hlen Hr Hvol) as (slot' & g & Hup & Hdec & Hinc & Hb).
  exists slot', g. repeat split; try done; try apply Hb.
  intros Hst. apply Hdec. intros Heq. rewrite Heq in Hst.
  repeat (apply elem_of_cons in Hst as [Hst | Hst]; [discriminate |]).
  by apply elem_of_nil in Hst.
Qed.

End EnvelopeRates.

(** ** ROM writes and the descriptor table *)

Lemma store_Ok {A : Type} (a : array) (l : list A) (i : Z) (v : A) :
  0 <= i < Z.of_nat (length l) ->
  store a l i v = Ok (<[Z.to_nat i := v]> l).
Proof.
  intros Hi. unfold store.
  destruct (Z.leb_spec 0 i); [| lia].
  destruct (Z.ltb_spec i (Z.of_nat (length l))); [done | lia].
Qed.

Lemma memcpy_Ok (dst : list Z) (offset : Z) (src : list Z) (n : Z) :
  0 <= offset -> 0 <= n ->
  offset + n <= Z.of_nat (length dst) -> n <= Z.of_nat (length src) ->
  memcpy dst offset src n
  = Ok (take (Z.to_nat offset) dst ++ take (Z.to_nat n) src
        ++ drop (Z.to_nat (offset + n)) dst).
Proof.
  intros Ho Hn Hdst Hsrc. unfold memcpy.
  destruct (Z.eqb_spec n 0) as [-> | Hn0].
  - rewrite Z.add_0_r. change (Z.to_nat 0) with 0%nat.
    by rewrite take_0, app_nil_l, take_drop.
  - destruct (Z.ltb_spec (Z.of_nat (length dst)) (offset + n)); [lia |].
    destruct (Z.ltb_spec (Z.of_nat (length src)) n); [lia | done].
Qed.

(** Reads the next byte of the running parse: in range it yields a byte,
    out of range it is the error that ends the parse. *)
Ltac parse_next len :=
  lazymatch goal with
  | |- (index A_ROM ?rom ?i) ≫= _ = _ =>
      let Hlt := fresh "Hlt" in
      let Hge := fresh "Hge" in
      destruct (Z.lt_ge_cases i len) as [Hlt | Hge];
      [ let b := fresh "b" in
        let Hb := fresh "Hb" in
        destruct (index_in_range A_ROM rom i) as [b Hb]; [lia |];
        rewrite Hb; cbn [mbind result_bind]; clear Hb
      | rewrite (index_out_of_range A_ROM rom i) by lia; cbn [mbind result_bind];
        do 2 f_equal; lia ]
  end.

Lemma parse_Sample_oob (rom : list Z) (k : Z) :
  0 <= k ->
  12 * k <= Z.of_nat (length rom) < 12 * k + 12 ->
  parse_Sample rom k = Err (OutOfBounds A_ROM (Z.of_nat (length rom))).
Proof.
  intros Hk Hlen. unfold parse_Sample.
  do 12 (try parse_next (Z.of_nat (length rom))).
  exfalso. lia.
Qed.

Lemma parse_Sample_in_range (rom : list Z) (k : Z) :
  0 <= k -> 12 * k + 12 <= Z.of_nat (length rom) ->
  exists s, parse_Sample rom k = Ok s.
Proof.
  intros Hk Hlen. unfold parse_Sample.
  do 12 (lazymatch goal with
         | |- exists s, (index A_ROM ?rom ?i) ≫= _ = _ =>
             let b := fresh "b" in
             let Hb := fresh "Hb" in
             destruct (index_in_range A_ROM rom i) as [b Hb]; [lia |];
             rewrite Hb; cbn [mbind result_bind]; clear Hb
         end).
  eauto.
Qed.

Lemma rebuild_loop_Ok (n : nat) : forall (k : Z) (rom : list Z) (samples : list Sample.t),
  0 <= k ->
  12 * (k + Z.of_nat n) <= Z.of_nat (length rom) ->
  k + Z.of_nat n <= Z.of_nat (length samples) ->
  exists samples',
    rebuild_loop n k rom samples = Ok samples' /\
    length samples' = length samples /\
    (forall j, k <= j < k + Z.of_nat n ->
       exists s, samples' !! Z.to_nat j = Some s /\ parse_Sample rom j = Ok s) /\
    (forall j : nat, Z.of_nat j < k \/ k + Z.of_nat n <= Z.of_nat j ->
       samples' !! j = samples !! j).
Proof.
  induction n as [| n IH]; intros k rom samples Hk Hrom Hs.
  - exists samples. cbn. split; [done |]. split; [done |].
    split; [intros; lia | done].
  - cbn [rebuild_loop].
    destruct (parse_Sample_in_range rom k) as [s Hp]; [lia .. |].
    rewrite Hp. cbn [mbind result_bind].
    rewrite store_Ok by lia. cbn [mbind result_bind].
    destruct (IH (k + 1) rom (<[Z.to_nat k := s]> samples)) as (r & Hr & Hlen & Hin & Hout);
      [lia | lia | rewrite length_insert; lia |].
    exists r. rewrite Hr, Hlen, length_insert. repeat split.
    + intros j Hj. destruct (Z.eq_dec j k) as [-> | Hne].
      * exists s. split; [| done].
        rewrite Hout by lia.
        apply list_lookup_insert_eq. lia.
      * apply Hin. lia.
    + intros j Hj. rewrite Hout by lia.
      apply list_lookup_insert_ne. lia.
Qed.

Lemma rebuild_loop_oob (n : nat) : forall (k : Z) (rom : list Z) (samples : list Sample.t),
  0 <= k ->
  12 * k <= Z.of_nat (length rom) < 12 * (k + Z.of_nat n) ->
  k + Z.of_nat n <= Z.of_nat (length samples) ->
  rebuild_loop n k rom samples = Err (OutOfBounds A_ROM (Z.of_nat (length rom))).
Proof.
  induction n as [| n IH]; intros k rom samples Hk Hrom Hs; [lia |].
  cbn [rebuild_loop].
  destruct (Z.lt_ge_cases (Z.of_nat (length rom)) (12 * k + 12)) as [Hshort | Hlong].
  - rewrite parse_Sample_oob by lia. done.
  - destruct (parse_Sample_in_range rom k) as [s Hp]; [lia .. |].
    rewrite Hp. cbn [mbind result_bind].
    rewrite store_Ok by lia. cbn [mbind result_bind].
    apply IH; [lia | lia | rewrite length_insert; lia].
Qed.

Section WriteRom.
Context {FA : FloatArith}.

Lemma write_rom_rejected (ptChip : MultiPCM) (offset length : Z) (data : list Z) :
  ROMSize ptChip < offset ->
  multipcm_write_rom ptChip offset length data = Ok ptChip.
Proof.
  intros H. unfold multipcm_write_rom.
  destruct (Z.gtb_spec offset (ROMSize ptChip)); [done | lia].
Qed.

Lemma ROM_written_length (ptChip : MultiPCM) (offset length : Z) (data : list Z) :
  0 <= offset <= ROMSize ptChip -> 0 <= length ->
  Z.of_nat (List.length (ROM ptChip)) = ROMSize ptChip ->
  length <= Z.of_nat (List.length data) ->
  List.length (ROM_written ptChip offset length data) = List.length (ROM ptChip).
Proof.
  intros Ho Hl Hrom Hdata. unfold ROM_written.
  rewrite !length_app, !length_take, length_drop. lia.
Qed.

(** Past the guard and without wrap-around of [offset + length], the copy
    succeeds and the function is the rebuild of the table, or nothing more. *)
Lemma write_rom_accepted (ptChip : MultiPCM) (offset length : Z) (data : list Z) :
  Z.of_nat (List.length (ROM ptChip)) = ROMSize ptChip ->
  0 <= offset <= ROMSize ptChip -> 0 <= length ->
  offset + length < 2 ^ 32 ->
  length <= Z.of_nat (List.length data) ->
  multipcm_write_rom ptChip offset length data
  = let ptChip' := set_ROM (ROM_written ptChip offset length data) ptChip in
    if offset <? 0x200 * 12 then
      samples ← rebuild_loop 512 0 (ROM ptChip') (Samples ptChip');
      Ok (set_Samples samples ptChip')
    else Ok ptChip'.
Proof.
  intros Hrom Ho Hl Hsum Hdata. unfold multipcm_write_rom.
  destruct (Z.gtb_spec offset (ROMSize ptChip)); [lia |].
  rewrite (u32_small (offset + length)) by lia.
  assert (Hcopy : forall n, n = Z.min length (ROMSize ptChip - offset) ->
            memcpy (ROM ptChip) offset data n
            = Ok (ROM_written ptChip offset length data)).
  { intros n ->. unfold ROM_written. apply memcpy_Ok; lia. }
  destruct (Z.gtb_spec (offset + length) (ROMSize ptChip)).
  - rewrite u32_small by lia. rewrite Hcopy by lia. done.
  - rewrite Hcopy by lia. done.
Qed.

Lemma write_rom_rebuilds (ptChip : MultiPCM) (offset length : Z) (data : list Z) :
  chip_ok ptChip ->
  0 <= offset <= ROMSize ptChip -> 0 <= length ->
  offset + length < 2 ^ 32 ->
  length <= Z.of_nat (List.length data) ->
  offset < 0x200 * 12 -> 0x200 * 12 <= ROMSize ptChip ->
  exists samples,
    multipcm_write_rom ptChip offset length data
    = Ok (set_Samples samples
            (set_ROM (ROM_written ptChip offset length data) ptChip)) /\
    Samples_parsed (ROM_written ptChip offset length data) samples.
Proof.
  intros [Hrom Hsmp] Ho Hl Hsum Hdata Hlow Hbig.
  rewrite write_rom_accepted by done. cbn zeta.
  destruct (Z.ltb_spec offset (0x200 * 12)); [| lia].
  cbn [ROM Samples set_ROM].
  pose proof (ROM_written_length ptChip offset length data Ho Hl Hrom Hdata) as Hlen.
  destruct (rebuild_loop_Ok 512 0 (ROM_written ptChip offset length data)
              (Samples ptChip)) as (samples & Hr & Hlen' & Hin & _);
    [lia | lia | lia |].
  exists samples. rewrite Hr. split; [done |].
  split; [lia |]. intros j Hj. apply Hin. lia.
Qed.

Lemma write_rom_reads_past_end (ptChip : MultiPCM) (offset length : Z) (data : list Z) :
  chip_ok ptChip ->
  0 <= offset <= ROMSize ptChip -> 0 <= length ->
  offset + length < 2 ^ 32 ->
  length <= Z.of_nat (List.length data) ->
  offset < 0x200 * 12 -> ROMSize ptChip < 0x200 * 12 ->
  multipcm_write_rom ptChip offset length data
  = Err (OutOfBounds A_ROM (ROMSize ptChip)).
Proof.
  intros [Hrom Hsmp] Ho Hl Hsum Hdata Hlow Hsmall.
  rewrite write_rom_accepted by done. cbn zeta.
  destruct (Z.ltb_spec offset (0x200 * 12)); [| lia].
  cbn [ROM Samples set_ROM].
  pose proof (ROM_written_length ptChip offset length data Ho Hl Hrom Hdata) as Hlen.
  rewrite rebuild_loop_oob by lia.
  cbn [mbind result_bind]. do 3 f_equal. lia.
Qed.

(** C2 (amended). After [write_rom(0, 12, bytes)] with the header bytes
    [01 02 03 04 05 00 10 00 00 00 00 00] on a chip whose ROM has at least
    6144 bytes, descriptor 0 has [Start = 0x010203], [Loop = 0x0405] and
    [End = 0xffff - 0x0010 = 0xffef]: the length is read from bytes 5 and 6. *)
Theorem write_rom_byte_order (ptChip : MultiPCM) :
  chip_ok ptChip -> 0x200 * 12 <= ROMSize ptChip ->
  exists ptChip' s,
    multipcm_write_rom ptChip 0 12 header_bytes = Ok ptChip' /\
    Samples ptChip' !! 0%nat = Some s /\
    Sample.Start s = 0x010203 /\
    Sample.Loop s = 0x0405 /\
    Sample.End_ s = 0xffff - 0x0010 /\
    Sample.End_ s = 0xffef.
Proof.
  intros Hok Hbig.
  destruct (write_rom_rebuilds ptChip 0 12 header_bytes) as (samples & Hw & _ & Hp);
    [done | lia | lia | lia | cbn; lia | lia | lia |].
  destruct (Hp 0) as (s & Hs & Hparse); [lia |].
  exists (set_Samples samples (set_ROM (ROM_written ptChip 0 12 header_bytes) ptChip)), s.
  split; [done |]. split; [exact Hs |].
  unfold ROM_written in Hparse.
  rewrite Z.min_l in Hparse by lia.
  cbn in Hparse. injection Hparse as <-. cbn. done.
Qed.

(** C5 (amended). For a chip whose ROM holds [ROMSize] bytes and a call
    whose [offset + length] does not wrap around 32 bits: with [offset]
    beyond [ROMSize] nothing changes; otherwise the first
    [min(length, ROMSize - offset)] bytes are copied to [offset], the ROM
    keeps its size and no other field changes but the descriptor table,
    which is rebuilt from the first 6144 ROM bytes when [offset < 6144]
    (the ROM having that many) and left alone when [offset >= 6144]. *)
Theorem write_rom_truncates_and_rebuilds
    (ptChip : MultiPCM) (offset length : Z) (data : list Z) :
  chip_ok ptChip ->
  0 <= offset -> 0 <= length -> offset + length < 2 ^ 32 ->
  length <= Z.of_nat (List.length data) ->
  (ROMSize ptChip < offset ->
     multipcm_write_rom ptChip offset length data = Ok ptChip) /\
  (offset <= ROMSize ptChip ->
     (offset < 0x200 * 12 -> 0x200 * 12 <= ROMSize ptChip) ->
     exists samples,
       multipcm_write_rom ptChip offset length data
       = Ok (set_Samples samples
               (set_ROM (ROM_written ptChip offset length data) ptChip)) /\
       Z.of_nat (List.length (ROM_written ptChip offset length data))
       = ROMSize ptChip /\
       (offset < 0x200 * 12 ->
          Samples_parsed (ROM_written ptChip offset length data) samples) /\
       (0x200 * 12 <= offset -> samples = Samples ptChip)).
Proof.
  intros Hok Ho Hl Hsum Hdata. split.
  - apply write_rom_rejected.
  - intros Hin Hbig.
    assert (Hlen : Z.of_nat (List.length (ROM_written ptChip offset length data))
                   = ROMSize ptChip).
    { destruct Hok as [Hrom _]. rewrite ROM_written_length by (done || lia). done. }
    destruct (Z.lt_ge_cases offset (0x200 * 12)) as [Hlow | Hhigh].
    + destruct (write_rom_rebuilds ptChip offset length data) as (samples & Hw & Hp);
        [done | lia | lia | lia | lia | lia | lia |].
      exists samples. repeat split; try done; try apply Hp. lia.
    + exists (Samples ptChip).
      destruct Hok as [Hrom _].
      rewrite write_rom_accepted by (done || lia). cbn zeta.
      destruct (Z.ltb_spec offset (0x200 * 12)); [lia |].
      repeat split; try done; try lia.
Qed.

(** C10 (amended). For every [write_rom] call with [offset < 6144] that
    passes the guard [offset > ROMSize] (a zero in-range length included,
    and [offset + length] not wrapping): the rebuild parses all 512
    descriptors, bytes 0..6143, whatever the ROM size; with
    [ROMSize < 6144] the parse reads outside the ROM, at index [ROMSize]. *)
Theorem write_rom_rebuild_reads_6144
    (ptChip : MultiPCM) (offset length : Z) (data : list Z) :
  chip_ok ptChip ->
  0 <= offset -> 0 <= length -> offset + length < 2 ^ 32 ->
  length <= Z.of_nat (List.length data) ->
  offset < 0x200 * 12 -> offset <= ROMSize ptChip ->
  (ROMSize ptChip < 0x200 * 12 ->
     multipcm_write_rom ptChip offset length data
     = Err (OutOfBounds A_ROM (ROMSize ptChip))) /\
  (0x200 * 12 <= ROMSize ptChip ->
     exists ptChip',
       multipcm_write_rom ptChip offset length data = Ok ptChip' /\
       Samples_parsed (ROM ptChip') (Samples ptChip')).
Proof.
  intros Hok Ho Hl Hsum Hdata Hlow Hin. split.
  - intros Hsmall. apply write_rom_reads_past_end; (done || lia).
  - intros Hbig.
    destruct (write_rom_rebuilds ptChip offset length data) as (samples & Hw & Hp);
      [done | lia | lia | lia | lia | lia | lia |].
    eexists. split; [exact Hw |]. exact Hp.
Qed.

End WriteRom.

(** ** Runs of [multipcm_alloc_rom] and [multipcm_write_rom] *)

Example alloc_rom_16 :
  @multipcm_alloc_rom Z_arith 32 chip_sample 16 = Ok chip_rom_16 /\
  ROMSize chip_rom_16 = 16 /\ ROMMask chip_rom_16 = 15.
Proof. repeat split; vm_compute; reflexivity. Qed.

Example alloc_rom_6144 :
  @multipcm_alloc_rom Z_arith 32 chip_sample 6144 = Ok chip_rom_6144 /\
  ROMSize chip_rom_6144 = 6144 /\ ROMMask chip_rom_6144 = 8191.
Proof. repeat split; vm_compute; reflexivity. Qed.

Lemma write_rom_byte_order_witness :
  exists ptChip' s,
    @multipcm_write_rom Z_arith chip_rom_6144 0 12 header_bytes = Ok ptChip' /\
    Samples ptChip' !! 0%nat = Some s /\
    Sample.Start s = 0x010203 /\
    Sample.Loop s = 0x0405 /\
    Sample.End_ s = 0xffff - 0x0010 /\
    Sample.End_ s = 0xffef.
Proof.
  apply (@write_rom_byte_order Z_arith chip_rom_6144).
  - split; vm_compute; reflexivity.
  - vm_compute. discriminate.
Defined.

(** With the header bytes of the byte-order property, [End] of descriptor 0
    is [0xffef], not [0xfaff]. *)
Lemma write_rom_End_is_not_0xfaff :
  @multipcm_write_rom Z_arith chip_rom_6144 0 12 header_bytes = Ok chip_byte_order /\
  Samples chip_byte_order !! 0%nat
  = Some (Sample.mk 0x010203 0x0405 0xffef 0 0 0 0 0 0 0 0) /\
  0xffef <> 0xfaff.
Proof.
  split; [vm_compute; reflexivity |].
  split; [vm_compute; reflexivity | discriminate].
Qed.

Lemma write_rom_truncates_and_rebuilds_witness :
  exists samples,
    @multipcm_write_rom Z_arith chip_rom_6144 6140 8 [1; 2; 3; 4; 5; 6; 7; 8]
    = Ok (set_Samples samples
            (set_ROM (ROM_written chip_rom_6144 6140 8 [1; 2; 3; 4; 5; 6; 7; 8])
               chip_rom_6144)) /\
    Z.of_nat (List.length (ROM_written chip_rom_6144 6140 8 [1; 2; 3; 4; 5; 6; 7; 8]))
    = ROMSize chip_rom_6144 /\
    Samples_parsed (ROM_written chip_rom_6144 6140 8 [1; 2; 3; 4; 5; 6; 7; 8]) samples.
Proof.
  destruct (@write_rom_truncates_and_rebuilds Z_arith chip_rom_6144 6140 8
              [1; 2; 3; 4; 5; 6; 7; 8]) as [_ Hin].
  - split; vm_compute; reflexivity.
  - lia.
  - lia.
  - lia.
  - simpl. lia.
  - destruct Hin as (samples & Hw & Hlen & Hp & _).
    + vm_compute. discriminate.
    + intros _. vm_compute. discriminate.
    + exists samples. split; [exact Hw |]. split; [exact Hlen |].
      apply Hp. lia.
Defined.

(** A write of no byte at offset 0 leaves an empty window, yet the
    descriptors, all zero after [alloc_rom], are rebuilt from the ROM. *)
Lemma write_rom_empty_window_rebuilds :
  @multipcm_write_rom Z_arith chip_rom_6144 0 0 [] = Ok chip_empty_write /\
  ROM chip_empty_write = ROM chip_rom_6144 /\
  Samples chip_rom_6144 !! 0%nat = Some Sample.zero /\
  Sample.Start <$> Samples chip_empty_write !! 0%nat = Some 0xffffff /\
  Samples chip_empty_write <> Samples chip_rom_6144.
Proof.
  split; [vm_compute; reflexivity |].
  split; [vm_compute; reflexivity |].
  split; [vm_compute; reflexivity |].
  split; [vm_compute; reflexivity |].
  intros H. apply (f_equal (fun l => Sample.Start <$> l !! 0%nat)) in H.
  vm_compute in H. discriminate.
Qed.

Lemma write_rom_rebuild_reads_6144_witness :
  @multipcm_write_rom Z_arith chip_rom_16 16 4 [1; 2; 3; 4]
  = Err (OutOfBounds A_ROM (ROMSize chip_rom_16)).
Proof.
  destruct (@write_rom_rebuild_reads_6144 Z_arith chip_rom_16 16 4 [1; 2; 3; 4])
    as [Hsmall _].
  - split; vm_compute; reflexivity.
  - lia.
  - lia.
  - lia.
  - simpl. lia.
  - lia.
  - vm_compute. discriminate.
  - apply Hsmall. vm_compute. reflexivity.
Defined.

(** A call with [offset < 6144] that the guard rejects: no rebuild, no read
    of the ROM, although the ROM is shorter than 6144 bytes. *)
Lemma write_rom_rejected_reads_nothing :
  100 < 0x200 * 12 /\
  ROMSize chip_rom_16 = 16 /\
  @multipcm_write_rom Z_arith chip_rom_16 100 4 [1; 2; 3; 4] = Ok chip_rom_16.
Proof.
  split; [lia |]. split; vm_compute; reflexivity.
Qed.

(** ** Key-off *)

Section KeyOff.
Context {FA : FloatArith}.

(** C4 (amended). Writing register 4 with the high bit clear stores the
    byte in [Regs[4]] and then: for a playing voice it sets the EG state to
    RELEASE when the latched sample's [RR] is not [0xf] and clears
    [Playing] at once when it is [0xf]; a voice that is not playing is left
    as it is.  In every case with [RR = 0xf] the voice has [Playing = 0]
    after the write, so the next rendered sample skips it. *)
Theorem WriteSlot_key_off
    (T : Tables) (ptChip : MultiPCM) (slot : SLOT.t) (data : Z) :
  Z.land data 0x80 = 0 ->
  exists regs,
    Regs.set 4 data (SLOT.Regs slot) = Ok regs /\
    Regs.r4 regs = data /\
    (SLOT.Playing slot <> 0 ->
       forall smp, slot_Sample ptChip slot = Ok smp ->
         (Sample.RR smp <> 0xf ->
            WriteSlot T ptChip slot 4 data
            = Ok (SLOT.set_EG (EG.set_state RELEASE (SLOT.EG slot))
                    (SLOT.set_Regs regs slot))) /\
         (Sample.RR smp = 0xf ->
            WriteSlot T ptChip slot 4 data
            = Ok (SLOT.set_Playing 0 (SLOT.set_Regs regs slot)))) /\
    (SLOT.Playing slot = 0 ->
       WriteSlot T ptChip slot 4 data = Ok (SLOT.set_Regs regs slot)) /\
    (forall slot' smp,
       WriteSlot T ptChip slot 4 data = Ok slot' ->
       slot_Sample ptChip slot = Ok smp -> Sample.RR smp = 0xf ->
       SLOT.Playing slot' = 0 /\
       forall (c : MultiPCM) smpl smpr sl,
         index A_Slots (Slots c) sl = Ok slot' ->
         update_slot T (c, smpl, smpr) sl = Ok (c, smpl, smpr)).
Proof.
  intros Hoff.
  eexists. split; [reflexivity |]. split; [reflexivity |].
  assert (Hw : WriteSlot T ptChip slot 4 data
               = let slot1 := SLOT.set_Regs
                                (Regs.mk (Regs.r0 (SLOT.Regs slot)) (Regs.r1 (SLOT.Regs slot))
                                   (Regs.r2 (SLOT.Regs slot)) (Regs.r3 (SLOT.Regs slot)) data
                                   (Regs.r5 (SLOT.Regs slot)) (Regs.r6 (SLOT.Regs slot))
                                   (Regs.r7 (SLOT.Regs slot))) slot in
                 if truthy (SLOT.Playing slot) then
                   smp ← slot_Sample ptChip slot;
                   if negb (Sample.RR smp =? 0xf)
                   then Ok (SLOT.set_EG (EG.set_state RELEASE (SLOT.EG slot)) slot1)
                   else Ok (SLOT.set_Playing 0 slot1)
                 else Ok slot1).
  { unfold WriteSlot, WriteSlot_reg. cbn [Regs.set mbind result_bind].
    rewrite Hoff. destruct slot; reflexivity. }
  rewrite Hw. cbn zeta. clear Hw.
  split; [| split].
  - intros Hplay smp Hsmp. unfold truthy.
    destruct (Z.eqb_spec (SLOT.Playing slot) 0) as [? | _]; [done |].
    cbn [negb]. rewrite Hsmp. cbn [mbind result_bind].
    destruct (Z.eqb_spec (Sample.RR smp) 0xf) as [Hf | Hf]; cbn [negb];
      split; intros ?; done.
  - intros ->. reflexivity.
  - intros slot' smp Hres Hsmp Hrr.
    assert (Hpl : SLOT.Playing slot' = 0).
    { unfold truthy in Hres.
      destruct (Z.eqb_spec (SLOT.Playing slot) 0) as [H0 | Hn0]; cbn [negb] in Hres.
      - injection Hres as <-. destruct slot; exact H0.
      - rewrite Hsmp in Hres. cbn [mbind result_bind] in Hres.
        rewrite Hrr in Hres. cbn in Hres. injection Hres as <-. reflexivity. }
    split; [exact Hpl |].
    intros c smpl smpr sl Hsl. unfold update_slot.
    rewrite Hsl. cbn [mbind result_bind]. rewrite Hpl. reflexivity.
Qed.

End KeyOff.

Lemma WriteSlot_key_off_witness :
  @WriteSlot Z_arith Tables_sample chip_rom_16
    (SLOT.set_Sample (Some 0) (SLOT.set_Playing 1 SLOT.zero)) 4 0x00
  = Ok (SLOT.set_EG (EG.set_state RELEASE EG.zero)
          (SLOT.set_Sample (Some 0) (SLOT.set_Playing 1 SLOT.zero))).
Proof.
  destruct (@WriteSlot_key_off Z_arith Tables_sample chip_rom_16
              (SLOT.set_Sample (Some 0) (SLOT.set_Playing 1 SLOT.zero)) 0x00)
    as (regs & Hregs & _ & Hplaying & _).
  - reflexivity.
  - injection Hregs as <-.
    destruct (Hplaying ltac:(vm_compute; discriminate) Sample.zero) as [Hrelease _].
    + vm_compute. reflexivity.
    + apply Hrelease. vm_compute. discriminate.
Defined.

(** Voice 0 is keyed on, the chip is reset, and key-off is written: the
    voice is not playing, its sample has [RR = 0], and the write leaves the
    EG in ATTACK. *)
Lemma key_off_idle_voice_not_released :
  exists slot smp,
    key_on_reset_key_off = Ok chip_key_off /\
    Slots chip_key_off !! 0%nat = Some slot /\
    @slot_Sample Z_arith chip_key_off slot = Ok smp /\
    Sample.RR smp = 0 /\ Sample.RR smp <> 0xf /\
    SLOT.Playing slot = 0 /\
    EG.state (SLOT.EG slot) = ATTACK /\
    EG.state (SLOT.EG slot) <> RELEASE.
Proof.
  exists (default SLOT.zero (Slots chip_key_off !! 0%nat)), Sample.zero.
  split; [vm_compute; reflexivity |].
  split; [vm_compute; reflexivity |].
  split; [vm_compute; reflexivity |].
  split; [vm_compute; reflexivity |].
  split; [vm_compute; discriminate |].
  split; [vm_compute; reflexivity |].
  split; [vm_compute; reflexivity | vm_compute; discriminate].
Qed.

(** ** ROM allocation *)

Lemma u32_double_pow2 (k : Z) :
  0 <= k <= 31 ->
  u32 (Z.shiftl (2 ^ k) 1) = if k =? 31 then 0 else 2 ^ (k + 1).
Proof.
  intros Hk. rewrite Z.shiftl_mul_pow2 by lia.
  change (2 ^ 1) with 2. rewrite Z.mul_comm, <- Z.pow_succ_r by lia.
  unfold Z.succ.
  destruct (Z.eqb_spec k 31) as [-> | Hne]; [reflexivity |].
  apply u32_small. split; [apply Z.pow_nonneg; lia |].
  apply Z.pow_lt_mono_r; lia.
Qed.

Lemma ROMMask_loop_zero (fuel : nat) (memsize : Z) :
  0 < memsize -> ROMMask_loop fuel 0 memsize = Err Diverges.
Proof.
  intros Hm. induction fuel as [| fuel IH]; cbn [ROMMask_loop].
  - destruct (Z.ltb_spec 0 memsize); [done | lia].
  - destruct (Z.ltb_spec 0 memsize); [| lia].
    exact IH.
Qed.

(** Above 2^31 the mask doubles to 2^32, wraps to 0 and stays below
    [memsize]: no amount of fuel ends the loop. *)
Lemma ROMMask_loop_wraps (memsize : Z) (fuel : nat) : forall k,
  2 ^ 31 < memsize -> 0 <= k <= 31 ->
  ROMMask_loop fuel (2 ^ k) memsize = Err Diverges.
Proof.
  induction fuel as [| fuel IH]; intros k Hm Hk; cbn [ROMMask_loop];
    assert (Hlt : 2 ^ k < memsize)
      by (assert (2 ^ k <= 2 ^ 31) by (apply Z.pow_le_mono_r; lia); lia);
    destruct (Z.ltb_spec (2 ^ k) memsize); try lia; try done.
  rewrite u32_double_pow2 by lia.
  destruct (Z.eqb_spec k 31).
  - apply ROMMask_loop_zero. lia.
  - apply IH; lia.
Qed.

(** Up to 2^31 the loop stops at the least power of two not below
    [memsize], within 31 doublings. *)
Lemma ROMMask_loop_least (memsize : Z) (fuel : nat) : forall k,
  memsize <= 2 ^ 31 -> 0 <= k <= 31 -> (31 <= k + Z.of_nat fuel) ->
  (0 < k -> 2 ^ (k - 1) < memsize) ->
  exists k', k <= k' <= 31 /\
    ROMMask_loop fuel (2 ^ k) memsize = Ok (2 ^ k') /\
    memsize <= 2 ^ k' /\
    (0 < k' -> 2 ^ (k' - 1) < memsize).
Proof.
  induction fuel as [| fuel IH]; intros k Hm Hk Hfuel Hprev; cbn [ROMMask_loop].
  - assert (k = 31) as -> by lia.
    destruct (Z.ltb_spec (2 ^ 31) memsize); [lia |].
    exists 31. repeat split; (lia || done).
  - destruct (Z.ltb_spec (2 ^ k) memsize) as [Hlt | Hge].
    + assert (k <> 31) by (intros ->; lia).
      rewrite u32_double_pow2 by lia.
      destruct (Z.eqb_spec k 31); [done |].
      destruct (IH (k + 1)) as (k' & Hk' & Hloop & Hle & Hmin); try lia.
      { intros _. replace (k + 1 - 1) with k by lia. exact Hlt. }
      exists k'. repeat split; (lia || done).
    + exists k. repeat split; (lia || done).
Qed.

Section AllocRom.
Context {FA : FloatArith}.

Lemma alloc_rom_same_size (fuel : nat) (ptChip : MultiPCM) :
  multipcm_alloc_rom fuel ptChip (ROMSize ptChip) = Ok ptChip.
Proof. unfold multipcm_alloc_rom. by rewrite Z.eqb_refl. Qed.

(** For a new size up to 2^31, [alloc_rom] sets [ROMSize], fills the ROM
    with [0xFF] and sets [ROMMask] to the least [2^k - 1 >= size - 1]. *)
Lemma alloc_rom_up_to_2GiB (ptChip : MultiPCM) (memsize : Z) :
  0 <= memsize <= 2 ^ 31 -> ROMSize ptChip <> memsize ->
  exists k, 0 <= k <= 31 /\
    multipcm_alloc_rom 32 ptChip memsize
    = Ok (set_ROMMask (2 ^ k - 1)
            (set_ROM (replicate (Z.to_nat memsize) 0xFF)
               (set_ROMSize memsize ptChip))) /\
    memsize - 1 <= 2 ^ k - 1 /\
    (forall j, 0 <= j -> memsize - 1 <= 2 ^ j - 1 -> 2 ^ k - 1 <= 2 ^ j - 1).
Proof.
  intros Hm Hne. unfold multipcm_alloc_rom.
  destruct (Z.eqb_spec (ROMSize ptChip) memsize); [done |].
  destruct (ROMMask_loop_least memsize 32 0) as (k & Hk & Hloop & Hle & Hmin);
    try lia.
  change (2 ^ 0) with 1 in Hloop. rewrite Hloop. cbn [mbind result_bind].
  exists k. split; [lia |].
  assert (0 < 2 ^ k) by (apply Z.pow_pos_nonneg; lia).
  assert (2 ^ k <= 2 ^ 31) by (apply Z.pow_le_mono_r; lia).
  rewrite u32_small by lia.
  split; [done |]. split; [lia |].
  intros j Hj Hjm.
  destruct (Z.le_gt_cases k j) as [Hkj | Hkj].
  - assert (2 ^ k <= 2 ^ j) by (apply Z.pow_le_mono_r; lia). lia.
  - assert (2 ^ j <= 2 ^ (k - 1)) by (apply Z.pow_le_mono_r; lia).
    specialize (Hmin ltac:(lia)). lia.
Qed.

Lemma alloc_rom_above_2GiB (fuel : nat) (ptChip : MultiPCM) (memsize : Z) :
  2 ^ 31 < memsize -> ROMSize ptChip <> memsize ->
  multipcm_alloc_rom fuel ptChip memsize = Err Diverges.
Proof.
  intros Hm Hne. unfold multipcm_alloc_rom.
  destruct (Z.eqb_spec (ROMSize ptChip) memsize); [done |].
  change 1 with (2 ^ 0).
  rewrite (ROMMask_loop_wraps memsize fuel 0) by lia.
  reflexivity.
Qed.

End AllocRom.

(** C8. [alloc_rom(0x80000001)] on a chip of another size: the mask loop
    never ends, whatever the fuel, where the claim has [ROMMask] set to
    [0xFFFFFFFF]. *)
Theorem alloc_rom_0x80000001_never_returns :
  forall fuel : nat,
    @multipcm_alloc_rom Z_arith fuel chip_sample 0x80000001 = Err Diverges.
Proof.
  intros fuel. apply alloc_rom_above_2GiB; [lia |].
  change (ROMSize chip_sample) with 0. lia.
Qed.

(** ** Envelope rates at key-on *)

Lemma Get_RATE_negative (Steps : list Z) (rate val : Z) :
  1 <= val <= 0xe -> - 2 ^ 31 <= rate -> 4 * val + rate < 0 ->
  Get_RATE Steps (u32 rate) val = Err (OutOfBounds A_Steps (4 * val + rate)).
Proof.
  intros Hv Hr Hneg. unfold Get_RATE.
  destruct (Z.eqb_spec val 0); [lia |].
  destruct (Z.eqb_spec val 15); [lia |].
  assert (Hs : s32 (u32 (4 * val + u32 rate)) = 4 * val + rate).
  { unfold u32. rewrite Zplus_mod_idemp_r.
    unfold s32.
    replace (((4 * val + rate) mod 2 ^ 32 + 2 ^ 31) mod 2 ^ 32)
      with ((4 * val + rate + 2 ^ 31) mod 2 ^ 32)
      by (rewrite Zplus_mod_idemp_l; reflexivity).
    rewrite Z.mod_small by lia. lia. }
  rewrite Hs.
  destruct (Z.gtb_spec (4 * val + rate) 63); [lia |].
  apply index_out_of_range. lia.
Qed.

Lemma Get_RATE_clamped (Steps : list Z) (rate val : Z) :
  1 <= val <= 0xe -> 0 <= rate < 2 ^ 31 - 64 -> 0x3f < 4 * val + rate ->
  Get_RATE Steps rate val = index A_Steps Steps 0x3f.
Proof.
  intros Hv Hr Hbig. unfold Get_RATE.
  destruct (Z.eqb_spec val 0); [lia |].
  destruct (Z.eqb_spec val 15); [lia |].
  rewrite u32_small by lia. rewrite s32_small by lia.
  destruct (Z.gtb_spec (4 * val + rate) 63); [done | lia].
Qed.

(** C9. A register state reached from start-up in which the EG rate index
    is negative: with [Regs[3] = 0x90] the octave is -8, the sample has
    [KRS = 0] and [AR = 1], so [rate = -16] and the index is
    [4*1 - 16 = -12]; the key-on write ends in the out-of-bounds read of
    the step table, whatever the table holds.  Only the upper end of the
    index is clamped. *)
Theorem key_on_negative_rate_index :
  EG_octave 0x90 = -8 /\
  EG_rate 0x90 0 = -16 /\
  (forall Steps, Get_RATE Steps (u32 (EG_rate 0x90 0)) 1
                 = Err (OutOfBounds A_Steps (-12))) /\
  (forall Steps, Get_RATE Steps (u32 (EG_rate 0x70 7)) 0xe
                 = index A_Steps Steps 0x3f) /\
  key_on_octave_minus_8 = Err (OutOfBounds A_Steps (-12)).
Proof.
  split; [reflexivity |]. split; [reflexivity |].
  split; [| split].
  - intros Steps. change (EG_rate 0x90 0) with (-16).
    apply (Get_RATE_negative Steps (-16) 1); lia.
  - intros Steps. change (u32 (EG_rate 0x70 7)) with 26.
    apply Get_RATE_clamped; lia.
  - vm_compute. reflexivity.
Qed.

(** ** A render call returns on a well-formed chip *)

Lemma land_0xff_range (x : Z) : 0 <= Z.land x 0xff < 256.
Proof.
  change 0xff with (Z.ones 8). rewrite Z.land_ones by lia.
  apply Z.mod_pos_bound. lia.
Qed.

Lemma land_mask_range (x mask : Z) : 0 <= mask -> 0 <= Z.land x mask <= mask.
Proof.
  intros Hm. split.
  - apply Z.land_nonneg. by right.
  - pose proof (Z.sub_land_same_l mask x) as Hsub.
    assert (0 <= Z.land mask (Z.lnot x)) by (apply Z.land_nonneg; by left).
    rewrite (Z.land_comm x mask). lia.
Qed.

(** The index into the pan tables stays within their 0x800 entries. *)
Lemma vol_range (level pan : Z) :
  0 <= level <= 0x7f -> 0 <= pan <= 0xf ->
  0 <= Z.lor level (u32 (Z.shiftl pan 7)) < 0x800.
Proof.
  intros Hl Hp.
  assert (Hall : forallb (fun l => forallb (fun p =>
                   (0 <=? Z.lor l (u32 (Z.shiftl p 7)))
                   && (Z.lor l (u32 (Z.shiftl p 7)) <? 0x800))
                   (map Z.of_nat (seq 0 16))) (map Z.of_nat (seq 0 128)) = true)
    by (vm_compute; reflexivity).
  rewrite forallb_forall in Hall.
  specialize (Hall level). rewrite forallb_forall in Hall.
  assert (Hin : forall n k, 0 <= k < Z.of_nat n -> In k (map Z.of_nat (seq 0 n))).
  { intros n k Hk. apply in_map_iff. exists (Z.to_nat k). split; [lia |].
    apply in_seq. lia. }
  specialize (Hall (Hin 128%nat level ltac:(lia)) pan (Hin 16%nat pan ltac:(lia))).
  apply andb_true_iff in Hall as [H1 H2]. lia.
Qed.

Lemma LFO_ok_set_phase (bias p : Z) (L : LFO.t) :
  LFO_ok bias L -> LFO_ok bias (LFO.set_phase p L).
Proof. intros (tab & sc & ? & ? & ? & ?). exists tab, sc. done. Qed.

Lemma PLFO_Step_returns (L : LFO.t) :
  LFO_ok 128 L -> exists L' p, PLFO_Step L = Ok (L', p) /\ LFO_ok 128 L'.
Proof.
  intros Hok. pose proof Hok as (tab & sc & Ht & Hs & Hlen & Hall).
  unfold PLFO_Step. cbn [LFO.set_phase LFO.table LFO.scale LFO.phase].
  rewrite Ht, Hs. cbn [deref mbind result_bind].
  match goal with
  | |- context [index A_LFO_table tab ?i] =>
      destruct (index_in_range A_LFO_table tab i) as [p Hp];
        [pose proof (land_0xff_range (Z.shiftr (u16 (LFO.phase L + LFO.phase_step L)) LFO_SHIFT)); lia |]
  end.
  rewrite Hp. cbn [mbind result_bind].
  rewrite list.Forall_forall in Hall.
  destruct (index_in_range A_LFO_scale sc (p + 128)) as [q Hq].
  { apply Hall. eapply index_elem_of. exact Hp. }
  rewrite Hq. cbn [mbind result_bind].
  eexists _, _. split; [reflexivity |]. by apply LFO_ok_set_phase.
Qed.

Lemma ALFO_Step_returns (L : LFO.t) :
  LFO_ok 0 L -> exists L' a, ALFO_Step L = Ok (L', a) /\ LFO_ok 0 L'.
Proof.
  intros Hok. pose proof Hok as (tab & sc & Ht & Hs & Hlen & Hall).
  unfold ALFO_Step. cbn [LFO.set_phase LFO.table LFO.scale LFO.phase].
  rewrite Ht, Hs. cbn [deref mbind result_bind].
  match goal with
  | |- context [index A_LFO_table tab ?i] =>
      destruct (index_in_range A_LFO_table tab i) as [p Hp];
        [pose proof (land_0xff_range (Z.shiftr (u16 (LFO.phase L + LFO.phase_step L)) LFO_SHIFT)); lia |]
  end.
  rewrite Hp. cbn [mbind result_bind].
  rewrite list.Forall_forall in Hall.
  destruct (index_in_range A_LFO_scale sc p) as [q Hq].
  { specialize (Hall p (index_elem_of _ _ _ _ Hp)). lia. }
  rewrite Hq. cbn [mbind result_bind].
  eexists _, _. split; [reflexivity |]. by apply LFO_ok_set_phase.
Qed.

(** One step of the ramp keeps the level within 7 bits and on its way. *)
Lemma TL_ramp_step (slot : SLOT.t) :
  TL_ramp_ok slot ->
  Z.shiftr (SLOT.TL slot) SHIFT <> SLOT.DstTL slot ->
  TL_ramp_ok (SLOT.set_TL (u32 (SLOT.TL slot + SLOT.TLStep slot)) slot).
Proof.
  unfold TL_ramp_ok. cbn [SLOT.set_TL SLOT.TL SLOT.DstTL SLOT.TLStep].
  change (Z.shiftl 1 SHIFT) with 4096. unfold SHIFT.
  rewrite !Z.shiftr_div_pow2 by lia. change (2 ^ 12) with 4096.
  intros (Hpos & Hlevel & Hdst & Hdir) Hne.
  assert (Hsmall : 0 <= SLOT.TL slot + SLOT.TLStep slot < 2 ^ 32).
  { destruct Hdir as [? | [[? ?] | [? ?]]]; [done | |];
      Z.div_mod_to_equations; lia. }
  rewrite u32_small by done.
  destruct Hdir as [? | [[? ?] | [? ?]]]; [done | |];
    Z.div_mod_to_equations; lia.
Qed.

Section RenderReturns.
Context {FA : FloatArith}.
Variable T : Tables.

Lemma vibrato_returns (ptChip : MultiPCM) (slot : SLOT.t) (step : Z) :
  voice_ok ptChip slot ->
  exists s1 step1,
    vibrato slot step = Ok (s1, step1) /\ voice_ok ptChip s1.
Proof.
  intros Hok. unfold vibrato, truthy.
  destruct (Z.eqb_spec (Z.land (Regs.r6 (SLOT.Regs slot)) 7) 0) as [H0 | Hn0];
    cbn [negb]; [eauto |].
  destruct Hok as (Hs & HP & HA & Hr & Hv & Hpan & Htl).
  destruct (PLFO_Step_returns _ (HP Hn0)) as (L & p & HL & HLok).
  rewrite HL. cbn [mbind result_bind].
  eexists _, _. split; [reflexivity |].
  split; [exact Hs |]. split; [intros _; exact HLok |]. split; [exact HA |].
  done.
Qed.

Lemma tremolo_returns (ptChip : MultiPCM) (slot : SLOT.t) (sample : Z) :
  voice_ok ptChip slot ->
  exists s2 sample2,
    tremolo slot sample = Ok (s2, sample2) /\ voice_ok ptChip s2.
Proof.
  intros Hok. unfold tremolo, truthy.
  destruct (Z.eqb_spec (Z.land (Regs.r7 (SLOT.Regs slot)) 7) 0) as [H0 | Hn0];
    cbn [negb]; [eauto |].
  destruct Hok as (Hs & HP & HA & Hr & Hv & Hpan & Htl).
  destruct (ALFO_Step_returns _ (HA Hn0)) as (L & a & HL & HLok).
  rewrite HL. cbn [mbind result_bind].
  eexists _, _. split; [reflexivity |].
  split; [exact Hs |]. split; [exact HP |]. split; [intros _; exact HLok |].
  done.
Qed.

Lemma advance_ok (ptChip : MultiPCM) (smp : Sample.t) (adr csample step : Z)
    (slot : SLOT.t) :
  voice_ok ptChip slot -> voice_ok ptChip (advance smp adr csample step slot).
Proof.
  intros Hok. unfold advance.
  set (s1 := SLOT.set_offset _ slot).
  set (s2 := if SLOT.offset s1 >=? _ then _ else s1).
  set (s3 := if truthy _ then _ else s2).
  assert (H3 : voice_ok ptChip s3).
  { subst s3 s2 s1.
    repeat match goal with
           | |- context [if ?c then _ else _] => destruct c
           end; exact Hok. }
  clearbody s3.
  destruct (Z.eqb_spec (Z.shiftr (SLOT.TL s3) SHIFT) (SLOT.DstTL s3)) as [Heq | Hne];
    cbn [negb]; [exact H3 |].
  destruct H3 as (Hs & HP & HA & Hr & Hv & Hpan & Htl).
  split; [exact Hs |]. split; [exact HP |]. split; [exact HA |].
  split; [exact Hr |]. split; [exact Hv |]. split; [exact Hpan |].
  by apply TL_ramp_step.
Qed.

(** [EG_Update] keeps the rates and moves the volume within its range. *)
Lemma EG_Update_returns (ptChip : MultiPCM) (slot : SLOT.t) :
  length (lin2expvol T) = 0x400%nat ->
  voice_ok ptChip slot ->
  exists slot' g, EG_Update T slot = Ok (slot', g) /\ voice_ok ptChip slot'.
Proof.
  intros Hlen Hok. pose proof Hok as (Hs & HP & HA & Hr & Hv & Hpan & Htl).
  destruct (EG_Update_step T slot Hlen Hr Hv) as (slot' & g & Hup & _ & _ & Hv').
  exists slot', g. split; [exact Hup |].
  revert Hup Hv'. unfold EG_Update.
  match goal with
  | |- context [index A_lin2expvol _ (Z.shiftr (EG.volume (SLOT.EG ?s)) _)] =>
      set (s1 := s)
  end.
  assert (Hs1 : EG_volume_ok (SLOT.EG s1) -> voice_ok ptChip s1).
  { subst s1.
    destruct (EG.state (SLOT.EG slot));
      repeat match goal with
             | |- context [if ?c then _ else _] => destruct c
             end;
      intros Hvol;
      (split; [exact Hs |]); (split; [exact HP |]); (split; [exact HA |]);
      (split; [exact Hr |]); (split; [exact Hvol |]); done. }
  clearbody s1.
  destruct (index A_lin2expvol _ _) as [g' |]; [| done].
  cbn [mbind result_bind]. intros [= <- _]. exact Hs1.
Qed.

Lemma pan_mix_returns (vol sample : Z) :
  Tables_sized T -> 0 <= vol < 0x800 ->
  exists l r, pan_mix T vol sample = Ok (l, r).
Proof.
  intros (HL & HR & _) Hvol. unfold pan_mix.
  destruct (index_in_range A_PANTABLE (LPANTABLE T) vol) as [l Hl]; [lia |].
  destruct (index_in_range A_PANTABLE (RPANTABLE T) vol) as [r Hr]; [lia |].
  rewrite Hl, Hr. cbn [mbind result_bind]. eauto.
Qed.

Lemma voice_update_returns (ptChip : MultiPCM) (slot : SLOT.t) :
  Tables_sized T ->
  0 <= ROMMask ptChip < Z.of_nat (length (ROM ptChip)) ->
  voice_ok ptChip slot ->
  exists slot' l r,
    voice_update T ptChip slot = Ok (slot', l, r) /\ voice_ok ptChip slot'.
Proof.
  intros HT Hrom Hok. unfold voice_update. cbn zeta.
  match goal with
  | |- context [index A_ROM (ROM ptChip) ?i] =>
      destruct (index_in_range A_ROM (ROM ptChip) i) as [b Hb]
  end.
  { pose proof (land_mask_range
                  (u32 (SLOT.Base slot + Z.shiftr (SLOT.offset slot) SHIFT))
                  (ROMMask ptChip)). lia. }
  rewrite Hb. cbn [mbind result_bind].
  destruct (vibrato_returns ptChip slot (SLOT.step slot) Hok)
    as (s1 & step1 & Hv & Hok1).
  rewrite Hv. cbn [mbind result_bind].
  pose proof Hok1 as ((k & Hk & Hkr) & _).
  destruct (index_in_range A_Samples (Samples ptChip) k) as [smp Hsmp]; [lia |].
  unfold slot_Sample at 1. rewrite Hk. cbn [deref mbind result_bind].
  rewrite Hsmp. cbn [mbind result_bind].
  match goal with
  | |- context [tremolo ?s ?x] =>
      destruct (tremolo_returns ptChip s x) as (s2 & sample2 & Ht & Hok2)
  end.
  { by apply advance_ok. }
  rewrite Ht. cbn [mbind result_bind].
  pose proof HT as (HL & HR & Hlin & Hrest).
  destruct (EG_Update_returns ptChip s2 Hlin Hok2) as (s3 & g & He & Hok3).
  rewrite He. cbn [mbind result_bind].
  destruct Hok as (_ & _ & _ & _ & _ & Hpan & (Htl0 & Hlevel & _)).
  match goal with
  | |- context [pan_mix T ?v ?x] =>
      destruct (pan_mix_returns v x) as (l & r & Hp)
  end.
  { exact HT. }
  { apply vol_range; [| done]. split; [| done].
    apply Z.shiftr_nonneg. done. }
  rewrite Hp. cbn [mbind result_bind]. eauto.
Qed.

Lemma update_slot_returns (ptChip : MultiPCM) (smpl smpr : Z) (sl : nat) :
  render_ok T ptChip -> (sl < 28)%nat ->
  exists ptChip' l r,
    update_slot T (ptChip, smpl, smpr) (Z.of_nat sl) = Ok (ptChip', l, r) /\
    render_ok T ptChip'.
Proof.
  intros Hok Hsl. pose proof Hok as (HT & Hrom & Hlen & Hall).
  unfold update_slot.
  destruct (index_in_range A_Slots (Slots ptChip) (Z.of_nat sl)) as [slot Hslot];
    [lia |].
  rewrite Hslot. cbn [mbind result_bind].
  destruct (truthy (SLOT.Playing slot) && negb (truthy (SLOT.Muted slot))) eqn:Hon;
    [| eauto].
  apply andb_true_iff in Hon as [Hplay Hmute]. unfold truthy in Hplay, Hmute.
  assert (Hvoice : voice_ok ptChip slot).
  { rewrite list.Forall_forall in Hall.
    destruct (Hall slot (index_elem_of _ _ _ _ Hslot)) as [H0 | [Hm | Hv]];
      [| | exact Hv].
    - rewrite H0 in Hplay. discriminate.
    - destruct (Z.eqb_spec (SLOT.Muted slot) 0); [done | discriminate]. }
  destruct (voice_update_returns ptChip slot HT Hrom Hvoice)
    as (slot' & l & r & Hup & Hvoice').
  rewrite Hup. cbn [mbind result_bind].
  rewrite store_Ok by lia. cbn [mbind result_bind].
  eexists _, _, _. split; [reflexivity |].
  split; [exact HT |]. split; [exact Hrom |].
  split; [cbn [Slots set_Slots]; by rewrite length_insert |].
  cbn [Slots set_Slots]. apply Forall_insert; [exact Hall | by right; right].
Qed.

Lemma slots_loop_returns (n : nat) : forall (sl : nat) (ptChip : MultiPCM) (smpl smpr : Z),
  render_ok T ptChip -> (sl + n <= 28)%nat ->
  exists ptChip' l r,
    slots_loop T n (Z.of_nat sl) (ptChip, smpl, smpr) = Ok (ptChip', l, r) /\
    render_ok T ptChip'.
Proof.
  induction n as [| n IH]; intros sl c smpl smpr Hok Hsl; cbn [slots_loop];
    [eauto |].
  destruct (update_slot_returns c smpl smpr sl Hok) as (c1 & l & r & Hup & Hok1);
    [lia |].
  rewrite Hup. cbn [mbind result_bind].
  replace (Z.of_nat sl + 1) with (Z.of_nat (S sl)) by lia.
  apply IH; [exact Hok1 | lia].
Qed.

(** On a well-formed chip the render loop returns [n] samples per channel,
    whatever [n], and leaves the chip well formed. *)
Lemma render_returns (n : nat) : forall ptChip : MultiPCM,
  render_ok T ptChip ->
  exists ptChip' ls rs,
    render T n ptChip = Ok (ptChip', ls, rs) /\ render_ok T ptChip'.
Proof.
  induction n as [| n IH]; intros c Hok; cbn [render]; [eauto |].
  destruct (slots_loop_returns 28 0 c 0 0 Hok) as (c1 & l & r & Hloop & Hok1);
    [lia |].
  change (Z.of_nat 0) with 0 in Hloop. rewrite Hloop. cbn [mbind result_bind].
  destruct (IH c1 Hok1) as (c2 & ls & rs & Hr & Hok2).
  rewrite Hr. cbn [mbind result_bind]. eauto.
Qed.

End RenderReturns.

(** ** Rendering into the output buffers *)

Section Update.
Context {FA : FloatArith}.
Variable T : Tables.

Lemma render_length (n : nat) : forall (ptChip ptChip' : MultiPCM) (ls rs : list Z),
  render T n ptChip = Ok (ptChip', ls, rs) ->
  length ls = n /\ length rs = n.
Proof.
  induction n as [| n IH]; intros c c' ls rs; cbn [render].
  - intros [= <- <- <-]. done.
  - destruct (slots_loop T 28 0 (c, 0, 0)) as [[[c1 l] r] | e]; [| done].
    cbn [mbind result_bind].
    destruct (render T n c1) as [[[c2 ls'] rs'] | e] eqn:Hr; [| done].
    cbn [mbind result_bind]. intros [= <- <- <-].
    destruct (IH _ _ _ _ Hr) as [H1 H2]. cbn [length]. by rewrite H1, H2.
Qed.

Lemma insert_take_drop_next (out : list Z) (i : nat) (v : Z) (ls : list Z) (n : nat) :
  (i < length out)%nat ->
  take (S i) (<[i := v]> out) ++ ls ++ drop (S i + n) (<[i := v]> out)
  = take i out ++ (v :: ls) ++ drop (i + S n) out.
Proof.
  intros Hi.
  rewrite (take_S_r _ i v) by (apply list_lookup_insert_eq; lia).
  rewrite take_insert_ge by lia.
  rewrite drop_insert_lt by lia.
  rewrite <- app_assoc. cbn [app].
  by replace (S i + n)%nat with (i + S n)%nat by lia.
Qed.

(** The sample loop writes the rendered stream over positions
    [i .. i + n) of both buffers and touches nothing else of them. *)
Lemma samples_loop_render (n : nat) :
  forall (i : nat) (ptChip : MultiPCM) (out0 out1 : list Z),
    (i + n <= length out0)%nat -> (i + n <= length out1)%nat ->
    samples_loop T n (Z.of_nat i) (ptChip, (out0, out1))
    = '(ptChip', ls, rs) ← render T n ptChip;
      Ok (ptChip', (take i out0 ++ ls ++ drop (i + n) out0,
                    take i out1 ++ rs ++ drop (i + n) out1)).
Proof.
  induction n as [| n IH]; intros i c out0 out1 H0 H1;
    cbn [samples_loop render mbind result_bind].
  - rewrite Nat.add_0_r. cbn [app]. by rewrite !take_drop.
  - unfold update_sample.
    destruct (slots_loop T 28 0 (c, 0, 0)) as [[[c1 l] r] | e];
      cbn [mbind result_bind]; [| done].
    rewrite !store_Ok by lia. cbn [mbind result_bind].
    rewrite Nat2Z.id.
    replace (Z.of_nat i + 1) with (Z.of_nat (S i)) by lia.
    rewrite IH by (rewrite length_insert; lia).
    destruct (render T n c1) as [[[c2 ls] rs] | e]; cbn [mbind result_bind]; [| done].
    by rewrite !insert_take_drop_next by lia.
Qed.

Lemma update_slot_skips (ptChip : MultiPCM) (smpl smpr sl : Z) (slot : SLOT.t) :
  index A_Slots (Slots ptChip) sl = Ok slot ->
  SLOT.Playing slot = 0 \/ SLOT.Muted slot <> 0 ->
  update_slot T (ptChip, smpl, smpr) sl = Ok (ptChip, smpl, smpr).
Proof.
  intros Hsl Hidle. unfold update_slot. rewrite Hsl. cbn [mbind result_bind].
  unfold truthy. destruct Hidle as [-> | Hm]; [done |].
  destruct (Z.eqb_spec (SLOT.Muted slot) 0); [done |].
  cbn [negb]. by rewrite andb_false_r.
Qed.

Lemma slots_loop_silent (ptChip : MultiPCM) (n : nat) : forall (sl : nat) (smpl smpr : Z),
  all_silent ptChip ->
  (sl + n <= length (Slots ptChip))%nat ->
  slots_loop T n (Z.of_nat sl) (ptChip, smpl, smpr) = Ok (ptChip, smpl, smpr).
Proof.
  induction n as [| n IH]; intros sl smpl smpr Hs Hlen; cbn [slots_loop]; [done |].
  destruct (index_in_range A_Slots (Slots ptChip) (Z.of_nat sl)) as [slot Hslot]; [lia |].
  rewrite (update_slot_skips _ _ _ _ slot Hslot).
  - cbn [mbind result_bind].
    replace (Z.of_nat sl + 1) with (Z.of_nat (S sl)) by lia.
    apply IH; [done | lia].
  - unfold all_silent in Hs. rewrite list.Forall_forall in Hs.
    apply Hs. eapply index_elem_of. exact Hslot.
Qed.

Lemma render_silent (n : nat) (ptChip : MultiPCM) :
  length (Slots ptChip) = 28%nat -> all_silent ptChip ->
  render T n ptChip = Ok (ptChip, replicate n 0, replicate n 0).
Proof.
  intros Hlen Hs. induction n as [| n IH]; cbn [render]; [done |].
  pose proof (slots_loop_silent ptChip 28 0 0 0 Hs ltac:(lia)) as Hloop.
  change (Z.of_nat 0) with 0 in Hloop. rewrite Hloop.
  cbn [mbind result_bind]. rewrite IH. done.
Qed.

(** C6. [update(N, out_l, out_r)] on buffers of at least [N] entries: the
    first [N] entries of each buffer become the rendered stream, which is
    computed without reading the buffers, the entries from [N] on keep
    their contents, and a stream has exactly [N] samples per channel; on a
    well-formed chip the call returns; if no voice is both playing and
    unmuted the call returns, leaves the chip as it was and the [N] samples
    of both channels are zero. *)
Theorem MultiPCM_update_overwrites (ptChip : MultiPCM) (samples : Z) :
  (forall ptChip' ls rs,
     render T (Z.to_nat samples) ptChip = Ok (ptChip', ls, rs) ->
     length ls = Z.to_nat samples /\ length rs = Z.to_nat samples) /\
  (forall out0 out1 : list Z,
     samples <= Z.of_nat (length out0) -> samples <= Z.of_nat (length out1) ->
     MultiPCM_update T ptChip samples (out0, out1)
     = '(ptChip', ls, rs) ← render T (Z.to_nat samples) ptChip;
       Ok (ptChip', (ls ++ drop (Z.to_nat samples) out0,
                     rs ++ drop (Z.to_nat samples) out1))) /\
  (render_ok T ptChip ->
   exists ptChip' ls rs,
     render T (Z.to_nat samples) ptChip = Ok (ptChip', ls, rs) /\
     render_ok T ptChip' /\
     forall out0 out1 : list Z,
       samples <= Z.of_nat (length out0) -> samples <= Z.of_nat (length out1) ->
       MultiPCM_update T ptChip samples (out0, out1)
       = Ok (ptChip', (ls ++ drop (Z.to_nat samples) out0,
                       rs ++ drop (Z.to_nat samples) out1))) /\
  (length (Slots ptChip) = 28%nat -> all_silent ptChip ->
   forall out0 out1 : list Z,
     samples <= Z.of_nat (length out0) -> samples <= Z.of_nat (length out1) ->
     MultiPCM_update T ptChip samples (out0, out1)
     = Ok (ptChip, (replicate (Z.to_nat samples) 0 ++ drop (Z.to_nat samples) out0,
                    replicate (Z.to_nat samples) 0 ++ drop (Z.to_nat samples) out1))).
Proof.
  assert (Hup : forall out0 out1 : list Z,
     samples <= Z.of_nat (length out0) -> samples <= Z.of_nat (length out1) ->
     MultiPCM_update T ptChip samples (out0, out1)
     = '(ptChip', ls, rs) ← render T (Z.to_nat samples) ptChip;
       Ok (ptChip', (ls ++ drop (Z.to_nat samples) out0,
                     rs ++ drop (Z.to_nat samples) out1))).
  { intros out0 out1 H0 H1. unfold MultiPCM_update.
    change 0 with (Z.of_nat 0).
    rewrite samples_loop_render by lia. done. }
  split; [apply render_length |]. split; [exact Hup |]. split.
  - intros Hok.
    destruct (render_returns T (Z.to_nat samples) ptChip Hok)
      as (c' & ls & rs & Hr & Hok').
    exists c', ls, rs. split; [exact Hr |]. split; [exact Hok' |].
    intros out0 out1 H0 H1. rewrite Hup by done. by rewrite Hr.
  - intros Hlen Hs out0 out1 H0 H1.
    rewrite Hup by done. rewrite render_silent by done. done.
Qed.

End Update.

(** ** The voice loop, stage by stage *)

Lemma PLFO_Step_phase (L L' : LFO.t) (p : Z) :
  PLFO_Step L = Ok (L', p) ->
  L' = LFO.set_phase (u16 (LFO.phase L + LFO.phase_step L)) L.
Proof.
  unfold PLFO_Step. cbn [LFO.set_phase LFO.table LFO.scale LFO.phase].
  destruct (deref (LFO.table L)) as [tab |]; [| done]. cbn [mbind result_bind].
  destruct (index A_LFO_table tab _) as [q |]; [| done]. cbn [mbind result_bind].
  destruct (deref (LFO.scale L)) as [sc |]; [| done]. cbn [mbind result_bind].
  destruct (index A_LFO_scale sc _) as [q' |]; [| done]. cbn [mbind result_bind].
  by intros [= <- _].
Qed.

Lemma ALFO_Step_phase (L L' : LFO.t) (a : Z) :
  ALFO_Step L = Ok (L', a) ->
  L' = LFO.set_phase (u16 (LFO.phase L + LFO.phase_step L)) L.
Proof.
  unfold ALFO_Step. cbn [LFO.set_phase LFO.table LFO.scale LFO.phase].
  destruct (deref (LFO.table L)) as [tab |]; [| done]. cbn [mbind result_bind].
  destruct (index A_LFO_table tab _) as [q |]; [| done]. cbn [mbind result_bind].
  destruct (deref (LFO.scale L)) as [sc |]; [| done]. cbn [mbind result_bind].
  destruct (index A_LFO_scale sc _) as [q' |]; [| done]. cbn [mbind result_bind].
  by intros [= <- _].
Qed.

Lemma vibrato_inv (slot s1 : SLOT.t) (step step1 : Z) :
  vibrato slot step = Ok (s1, step1) ->
  (Z.land (Regs.r6 (SLOT.Regs slot)) 7 = 0 /\ s1 = slot /\ step1 = step) \/
  (Z.land (Regs.r6 (SLOT.Regs slot)) 7 <> 0 /\
   exists L p, PLFO_Step (SLOT.PLFO slot) = Ok (L, p) /\
               s1 = SLOT.set_PLFO L slot /\
               step1 = Z.shiftr (u32 (step * p)) SHIFT).
Proof.
  unfold vibrato, truthy.
  destruct (Z.eqb_spec (Z.land (Regs.r6 (SLOT.Regs slot)) 7) 0) as [H0 | Hn0];
    cbn [negb].
  - intros [= <- <-]. by left.
  - destruct (PLFO_Step (SLOT.PLFO slot)) as [[L p] |]; [| done].
    cbn [mbind result_bind]. intros [= <- <-]. right. eauto 6.
Qed.

Lemma tremolo_inv (slot s2 : SLOT.t) (sample sample2 : Z) :
  tremolo slot sample = Ok (s2, sample2) ->
  (Z.land (Regs.r7 (SLOT.Regs slot)) 7 = 0 /\ s2 = slot /\ sample2 = sample) \/
  (Z.land (Regs.r7 (SLOT.Regs slot)) 7 <> 0 /\
   exists L a, ALFO_Step (SLOT.ALFO slot) = Ok (L, a) /\
               s2 = SLOT.set_ALFO L slot /\
               sample2 = Z.shiftr (s32 (sample * a)) SHIFT).
Proof.
  unfold tremolo, truthy.
  destruct (Z.eqb_spec (Z.land (Regs.r7 (SLOT.Regs slot)) 7) 0) as [H0 | Hn0];
    cbn [negb].
  - intros [= <- <-]. by left.
  - destruct (ALFO_Step (SLOT.ALFO slot)) as [[L a] |]; [| done].
    cbn [mbind result_bind]. intros [= <- <-]. right. eauto 6.
Qed.

(** [advance] touches [offset], [Prev] and [TL] only. *)
Lemma advance_frame (smp : Sample.t) (adr csample step : Z) (slot : SLOT.t) :
  let slot' := advance smp adr csample step slot in
  SLOT.Regs slot' = SLOT.Regs slot /\
  SLOT.PLFO slot' = SLOT.PLFO slot /\
  SLOT.ALFO slot' = SLOT.ALFO slot /\
  SLOT.EG slot' = SLOT.EG slot.
Proof.
  unfold advance. cbn zeta.
  repeat match goal with
         | |- context [if ?b then _ else _] => destruct b
         end; done.
Qed.

(** [EG_Update] touches the EG and [Playing] only. *)
Lemma EG_Update_frame (T : Tables) (slot slot' : SLOT.t) (g : Z) :
  EG_Update T slot = Ok (slot', g) ->
  SLOT.Regs slot' = SLOT.Regs slot /\
  SLOT.PLFO slot' = SLOT.PLFO slot /\
  SLOT.ALFO slot' = SLOT.ALFO slot /\
  SLOT.offset slot' = SLOT.offset slot.
Proof.
  unfold EG_Update.
  match goal with
  | |- context [index A_lin2expvol _ (Z.shiftr (EG.volume (SLOT.EG ?s)) _)] =>
      set (s1 := s)
  end.
  assert (Hs : SLOT.Regs s1 = SLOT.Regs slot /\
               SLOT.PLFO s1 = SLOT.PLFO slot /\
               SLOT.ALFO s1 = SLOT.ALFO slot /\
               SLOT.offset s1 = SLOT.offset slot).
  { subst s1. destruct (EG.state (SLOT.EG slot));
      repeat match goal with
             | |- context [if ?b then _ else _] => destruct b
             end; done. }
  clearbody s1.
  destruct (index A_lin2expvol _ _) as [g' |]; [| done].
  cbn [mbind result_bind]. by intros [= <- _].
Qed.

Section VoiceUpdate.
Context {FA : FloatArith}.

(** The stages a successful [voice_update] went through. *)
Lemma voice_update_inv (T : Tables) (ptChip : MultiPCM) (slot slot' : SLOT.t) (l r : Z) :
  voice_update T ptChip slot = Ok (slot', l, r) ->
  let vol := Z.lor (Z.shiftr (SLOT.TL slot) SHIFT) (u32 (Z.shiftl (SLOT.Pan slot) 7)) in
  let adr := Z.shiftr (SLOT.offset slot) SHIFT in
  exists b s1 step1 smp s2 sample2 g,
    index A_ROM (ROM ptChip)
          (Z.land (u32 (SLOT.Base slot + adr)) (ROMMask ptChip)) = Ok b /\
    vibrato slot (SLOT.step slot) = Ok (s1, step1) /\
    slot_Sample ptChip slot = Ok smp /\
    tremolo (advance smp adr (csample_of b) step1 s1)
            (interpolate (csample_of b) slot) = Ok (s2, sample2) /\
    EG_Update T s2 = Ok (slot', g) /\
    pan_mix T vol (Z.shiftr (s32 (sample2 * g)) 10) = Ok (l, r).
Proof.
  unfold voice_update. cbn zeta.
  destruct (index A_ROM (ROM ptChip) _) as [b |] eqn:Hb; [| done].
  cbn [mbind result_bind].
  destruct (vibrato slot (SLOT.step slot)) as [[s1 step1] |] eqn:Hv; [| done].
  cbn [mbind result_bind].
  assert (Hsame : slot_Sample ptChip s1 = slot_Sample ptChip slot).
  { destruct (vibrato_inv _ _ _ _ Hv) as [(_ & -> & _) | (_ & L & p & _ & -> & _)]; done. }
  rewrite Hsame.
  destruct (slot_Sample ptChip slot) as [smp |] eqn:Hsmp; [| done].
  cbn [mbind result_bind].
  destruct (tremolo _ _) as [[s2 sample2] |] eqn:Ht; [| done].
  cbn [mbind result_bind].
  destruct (EG_Update T s2) as [[s3 g] |] eqn:He; [| done].
  cbn [mbind result_bind].
  destruct (pan_mix T _ _) as [[l' r'] |] eqn:Hp; [| done].
  cbn [mbind result_bind]. intros [= <- <- <-].
  exists b, s1, step1, smp, s2, sample2, g. done.
Qed.

(** C3 (amended). For a playing, unmuted voice and one rendered sample: the
    PLFO phase advances by [phase_step] (modulo 2^16) when [Regs[6] & 7] is
    not 0 and keeps its value when it is 0; the same for the ALFO phase with
    [Regs[7] & 7]; the PLFO result multiplies the step by which the offset
    advances only when [Regs[6] & 7 != 0], and the ALFO result multiplies
    the interpolated sample only when [Regs[7] & 7 != 0]. *)
Theorem voice_update_LFO_conditional
    (T : Tables) (ptChip : MultiPCM) (slot slot' : SLOT.t) (l r : Z) :
  voice_update T ptChip slot = Ok (slot', l, r) ->
  let d6 := Z.land (Regs.r6 (SLOT.Regs slot)) 7 in
  let d7 := Z.land (Regs.r7 (SLOT.Regs slot)) 7 in
  let vol := Z.lor (Z.shiftr (SLOT.TL slot) SHIFT) (u32 (Z.shiftl (SLOT.Pan slot) 7)) in
  let adr := Z.shiftr (SLOT.offset slot) SHIFT in
  (d6 <> 0 -> LFO.phase (SLOT.PLFO slot')
              = u16 (LFO.phase (SLOT.PLFO slot) + LFO.phase_step (SLOT.PLFO slot))) /\
  (d6 = 0 -> SLOT.PLFO slot' = SLOT.PLFO slot) /\
  (d7 <> 0 -> LFO.phase (SLOT.ALFO slot')
              = u16 (LFO.phase (SLOT.ALFO slot) + LFO.phase_step (SLOT.ALFO slot))) /\
  (d7 = 0 -> SLOT.ALFO slot' = SLOT.ALFO slot) /\
  exists b smp step1 sample1 g,
    index A_ROM (ROM ptChip)
          (Z.land (u32 (SLOT.Base slot + adr)) (ROMMask ptChip)) = Ok b /\
    slot_Sample ptChip slot = Ok smp /\
    (d6 = 0 -> step1 = SLOT.step slot) /\
    (d6 <> 0 -> exists p, PLFO_Step (SLOT.PLFO slot) = Ok (SLOT.PLFO slot', p) /\
                          step1 = Z.shiftr (u32 (SLOT.step slot * p)) SHIFT) /\
    SLOT.offset slot' = SLOT.offset (advance smp adr (csample_of b) step1 slot) /\
    (d7 = 0 -> sample1 = interpolate (csample_of b) slot) /\
    (d7 <> 0 -> exists a, ALFO_Step (SLOT.ALFO slot) = Ok (SLOT.ALFO slot', a) /\
                          sample1 = Z.shiftr (s32 (interpolate (csample_of b) slot * a))
                                             SHIFT) /\
    pan_mix T vol (Z.shiftr (s32 (sample1 * g)) 10) = Ok (l, r).
Proof.
  intros Hup. cbn zeta.
  destruct (voice_update_inv _ _ _ _ _ _ Hup)
    as (b & s1 & step1 & smp & s2 & sample2 & g & Hb & Hv & Hsmp & Ht & He & Hp).
  set (adr := Z.shiftr (SLOT.offset slot) SHIFT) in *.
  destruct (EG_Update_frame _ _ _ _ He) as (_ & HeP & HeA & HeO).
  pose proof (advance_frame smp adr (csample_of b) step1 s1) as Hadv.
  cbn zeta in Hadv. destruct Hadv as (HaR & HaP & HaA & _).
  (* the vibrato stage leaves everything but the PLFO *)
  assert (Hs1 : SLOT.Regs s1 = SLOT.Regs slot /\ SLOT.ALFO s1 = SLOT.ALFO slot /\
                SLOT.offset (advance smp adr (csample_of b) step1 s1)
                = SLOT.offset (advance smp adr (csample_of b) step1 slot)).
  { destruct (vibrato_inv _ _ _ _ Hv) as [(_ & -> & _) | (_ & L & p & _ & -> & _)];
      [done |].
    split; [done |]. split; [done |].
    unfold advance. cbn.
    repeat match goal with
           | |- context [if ?c then _ else _] => destruct c
           end; done. }
  destruct Hs1 as (Hs1R & Hs1A & Hs1O).
  (* the tremolo stage leaves everything but the ALFO *)
  assert (Hs2 : SLOT.PLFO s2 = SLOT.PLFO s1 /\
                SLOT.offset s2 = SLOT.offset (advance smp adr (csample_of b) step1 slot)).
  { rewrite <- Hs1O, <- HaP.
    destruct (tremolo_inv _ _ _ _ Ht) as [(_ & -> & _) | (_ & L & a & _ & -> & _)];
      done. }
  destruct Hs2 as (Hs2P & Hs2O).
  assert (HP : SLOT.PLFO slot' = SLOT.PLFO s1) by congruence.
  assert (HO : SLOT.offset slot'
               = SLOT.offset (advance smp adr (csample_of b) step1 slot))
    by congruence.
  assert (Hvib :
    (Z.land (Regs.r6 (SLOT.Regs slot)) 7 = 0 /\
     SLOT.PLFO slot' = SLOT.PLFO slot /\ step1 = SLOT.step slot) \/
    (Z.land (Regs.r6 (SLOT.Regs slot)) 7 <> 0 /\
     exists p, PLFO_Step (SLOT.PLFO slot) = Ok (SLOT.PLFO slot', p) /\
               step1 = Z.shiftr (u32 (SLOT.step slot * p)) SHIFT)).
  { destruct (vibrato_inv _ _ _ _ Hv) as [(H6 & Hs & Hst) | (H6 & L & p & HL & Hs & Hst)].
    - left. subst s1. done.
    - right. split; [done |]. exists p. subst s1. cbn in HP. rewrite HP. done. }
  assert (Htre :
    (Z.land (Regs.r7 (SLOT.Regs slot)) 7 = 0 /\
     SLOT.ALFO slot' = SLOT.ALFO slot /\
     sample2 = interpolate (csample_of b) slot) \/
    (Z.land (Regs.r7 (SLOT.Regs slot)) 7 <> 0 /\
     exists a, ALFO_Step (SLOT.ALFO slot) = Ok (SLOT.ALFO slot', a) /\
               sample2 = Z.shiftr (s32 (interpolate (csample_of b) slot * a)) SHIFT)).
  { destruct (tremolo_inv _ _ _ _ Ht) as [(H7 & Hs & Hsa) | (H7 & L & a & HL & Hs & Hsa)];
      rewrite HaR, Hs1R in H7.
    - left. subst s2. split; [done |]. split; [congruence | done].
    - right. split; [done |]. exists a.
      rewrite HaA, Hs1A in HL. subst s2. cbn in HeA. rewrite HeA. done. }
  clear Hv Ht He HeP HeA HeO HaR HaP HaA Hs1R Hs1A Hs1O Hs2P Hs2O HP.
  assert (Hphase : forall L L' p, PLFO_Step L = Ok (L', p) ->
            LFO.phase L' = u16 (LFO.phase L + LFO.phase_step L)).
  { intros L L' p HL. by rewrite (PLFO_Step_phase _ _ _ HL). }
  assert (Hphase' : forall L L' a, ALFO_Step L = Ok (L', a) ->
            LFO.phase L' = u16 (LFO.phase L + LFO.phase_step L)).
  { intros L L' a HL. by rewrite (ALFO_Step_phase _ _ _ HL). }
  split.
  { intros H6. destruct Hvib as [(? & _) | (_ & p & HL & _)]; [done |]. eauto. }
  split.
  { intros H6. destruct Hvib as [(_ & ? & _) | (? & _)]; done. }
  split.
  { intros H7. destruct Htre as [(? & _) | (_ & a & HL & _)]; [done |]. eauto. }
  split.
  { intros H7. destruct Htre as [(_ & ? & _) | (? & _)]; done. }
  exists b, smp, step1, sample2, g.
  split; [exact Hb |]. split; [exact Hsmp |].
  split.
  { intros H6. destruct Hvib as [(_ & _ & ?) | (? & _)]; done. }
  split.
  { intros H6. destruct Hvib as [(? & _) | (_ & Hex)]; done. }
  split; [exact HO |].
  split.
  { intros H7. destruct Htre as [(_ & _ & ?) | (? & _)]; done. }
  split.
  { intros H7. destruct Htre as [(? & _) | (_ & Hex)]; done. }
  exact Hp.
Qed.

End VoiceUpdate.

Lemma voice_update_LFO_conditional_witness :
  @voice_update Z_arith Tables_sample chip_rom_16 (voice_with_depths 1 1)
  = Ok (voice_with_depths_next 1 1) /\
  LFO.phase (SLOT.PLFO (voice_with_depths_next 1 1).1.1) = 0x100 /\
  LFO.phase (SLOT.ALFO (voice_with_depths_next 1 1).1.1) = 0x100.
Proof.
  assert (Hrun : @voice_update Z_arith Tables_sample chip_rom_16
                   (voice_with_depths 1 1)
                 = Ok ((voice_with_depths_next 1 1).1.1,
                       (voice_with_depths_next 1 1).1.2,
                       (voice_with_depths_next 1 1).2))
    by (vm_compute; reflexivity).
  split; [vm_compute; reflexivity |].
  pose proof (@voice_update_LFO_conditional Z_arith Tables_sample chip_rom_16
                (voice_with_depths 1 1) _ _ _ Hrun) as H.
  cbn zeta in H. destruct H as (HP & _ & HA & _).
  split.
  - rewrite HP; [reflexivity | vm_compute; discriminate].
  - rewrite HA; [reflexivity | vm_compute; discriminate].
Defined.

(** A playing, unmuted voice with both depth fields 0 and phase steps
    [0x100]: after one rendered sample neither phase has moved. *)
Lemma voice_update_depth_0_keeps_phases :
  exists slot' l r,
    @voice_update Z_arith Tables_sample chip_rom_16 (voice_with_depths 0 0)
    = Ok (slot', l, r) /\
    SLOT.Playing (voice_with_depths 0 0) = 1 /\
    SLOT.Muted (voice_with_depths 0 0) = 0 /\
    LFO.phase_step (SLOT.PLFO (voice_with_depths 0 0)) = 0x100 /\
    LFO.phase_step (SLOT.ALFO (voice_with_depths 0 0)) = 0x100 /\
    LFO.phase (SLOT.PLFO slot') = LFO.phase (SLOT.PLFO (voice_with_depths 0 0)) /\
    LFO.phase (SLOT.ALFO slot') = LFO.phase (SLOT.ALFO (voice_with_depths 0 0)) /\
    LFO.phase (SLOT.PLFO slot')
    <> u16 (LFO.phase (SLOT.PLFO (voice_with_depths 0 0))
            + LFO.phase_step (SLOT.PLFO (voice_with_depths 0 0))) /\
    LFO.phase (SLOT.ALFO slot')
    <> u16 (LFO.phase (SLOT.ALFO (voice_with_depths 0 0))
            + LFO.phase_step (SLOT.ALFO (voice_with_depths 0 0))).
Proof.
  eexists _, _, _.
  split; [vm_compute; reflexivity |].
  repeat split; try (vm_compute; reflexivity); vm_compute; discriminate.
Qed.

(** ** The pan/volume table *)

(** A property of the 128 levels, checked level by level. *)
Lemma forall_TL (P : Z -> bool) :
  forallb P (map Z.of_nat (seq 0 128)) = true ->
  forall tl, 0 <= tl <= 0x7f -> P tl = true.
Proof.
  intros Hall tl Htl.
  rewrite forallb_forall in Hall. apply Hall.
  apply in_map_iff. exists (Z.to_nat tl). split; [lia |].
  apply in_seq. lia.
Qed.

Lemma TL_index_centre (tl : Z) :
  0 <= tl <= 0x7f ->
  Z.lor (Z.shiftl 0 7) tl = tl /\
  u8 (Z.land (Z.shiftr tl 7) 0xf) = 0.
Proof.
  intros Htl.
  pose proof (forall_TL
    (fun t => (Z.lor (Z.shiftl 0 7) t =? t) && (u8 (Z.land (Z.shiftr t 7) 0xf) =? 0))
    eq_refl tl Htl) as H.
  cbv beta in H. apply andb_true_iff in H as [H1 H2]. lia.
Qed.

Lemma TL_index_muted (tl : Z) :
  0 <= tl <= 0x7f ->
  Z.lor (Z.shiftl 8 7) tl = 0x400 + tl /\
  Z.lor tl (u32 (Z.shiftl 8 7)) = 0x400 + tl /\
  u8 (Z.land (Z.shiftr (0x400 + tl) 7) 0xf) = 8.
Proof.
  intros Htl.
  pose proof (forall_TL
    (fun t => (Z.lor (Z.shiftl 8 7) t =? 0x400 + t)
              && (Z.lor t (u32 (Z.shiftl 8 7)) =? 0x400 + t)
              && (u8 (Z.land (Z.shiftr (0x400 + t) 7) 0xf) =? 8))
    eq_refl tl Htl) as H.
  cbv beta in H. apply andb_true_iff in H as [H H3].
  apply andb_true_iff in H as [H1 H2]. lia.
Qed.

Section PanTable.
Context {FA : FloatArith}.

Lemma index_build_LPANTABLE (i : Z) :
  0 <= i < 0x800 ->
  index A_PANTABLE build_LPANTABLE i = Ok (LPANTABLE_at i).
Proof.
  intros Hi. apply index_Ok. split; [lia |].
  unfold build_LPANTABLE. rewrite list_lookup_fmap.
  rewrite lookup_seq_lt by lia. cbn. f_equal. f_equal. lia.
Qed.

Lemma index_build_RPANTABLE (i : Z) :
  0 <= i < 0x800 ->
  index A_PANTABLE build_RPANTABLE i = Ok (RPANTABLE_at i).
Proof.
  intros Hi. apply index_Ok. split; [lia |].
  unfold build_RPANTABLE. rewrite list_lookup_fmap.
  rewrite lookup_seq_lt by lia. cbn. f_equal. f_equal. lia.
Qed.

(** What the table needs of the floating-point arithmetic: the finite
    numbers include every attenuation [TL] of the table, zero times a finite
    number is zero, and [FIX] of zero is 0. *)
Variable finite : float -> Prop.
Hypothesis pan_TL_finite : forall i, 0 <= i < 0x800 -> finite (pan_TL i).
Hypothesis fmul_zero_l :
  forall x, finite x -> f_single (fmul (f_of_Z 0) x) = f_of_Z 0.
Hypothesis FIX_zero : FIX (f_of_Z 0) = 0.

Lemma pan_centre_equal (tl : Z) :
  0 <= tl <= 0x7f -> LPANTABLE_at tl = RPANTABLE_at tl.
Proof.
  intros Htl. destruct (TL_index_centre tl Htl) as [_ Hpan].
  unfold LPANTABLE_at, RPANTABLE_at, pan_LR. rewrite Hpan. reflexivity.
Qed.

Lemma pan_muted_zero (tl : Z) :
  0 <= tl <= 0x7f ->
  LPANTABLE_at (0x400 + tl) = 0 /\ RPANTABLE_at (0x400 + tl) = 0.
Proof.
  intros Htl. destruct (TL_index_muted tl Htl) as (_ & _ & Hpan).
  unfold LPANTABLE_at, RPANTABLE_at, pan_LR. rewrite Hpan.
  cbn [Z.eqb Pos.eqb fst snd].
  rewrite fmul_zero_l by (apply pan_TL_finite; lia).
  rewrite FIX_zero. done.
Qed.

(** C7. In the table built at start-up, for every [TL] in [0, 0x7f]: the
    left and right entries at index [(0 << 7) | TL] are equal and the two
    entries at index [(8 << 7) | TL] are 0; so one rendered sample of a
    voice whose [TL >> SHIFT] is that level adds the same value to both
    channels when [Pan = 0] and adds 0 to both when [Pan = 8]. *)
Theorem pan_table_centre_and_mute (tl : Z) :
  0 <= tl <= 0x7f ->
  (exists v,
     index A_PANTABLE build_LPANTABLE (Z.lor (Z.shiftl 0 7) tl) = Ok v /\
     index A_PANTABLE build_RPANTABLE (Z.lor (Z.shiftl 0 7) tl) = Ok v) /\
  index A_PANTABLE build_LPANTABLE (Z.lor (Z.shiftl 8 7) tl) = Ok 0 /\
  index A_PANTABLE build_RPANTABLE (Z.lor (Z.shiftl 8 7) tl) = Ok 0 /\
  forall (T : Tables) (ptChip : MultiPCM) (slot slot' : SLOT.t) (l r : Z),
    LPANTABLE T = build_LPANTABLE -> RPANTABLE T = build_RPANTABLE ->
    Z.shiftr (SLOT.TL slot) SHIFT = tl ->
    voice_update T ptChip slot = Ok (slot', l, r) ->
    (SLOT.Pan slot = 0 -> l = r) /\
    (SLOT.Pan slot = 8 -> l = 0 /\ r = 0).
Proof.
  intros Htl.
  destruct (TL_index_centre tl Htl) as [Hc _].
  destruct (TL_index_muted tl Htl) as (Hm & Hm' & _).
  destruct (pan_muted_zero tl Htl) as [HL0 HR0].
  split; [| split; [| split]].
  - exists (LPANTABLE_at tl). rewrite Hc.
    rewrite index_build_LPANTABLE, index_build_RPANTABLE by lia.
    by rewrite pan_centre_equal.
  - rewrite Hm, index_build_LPANTABLE by lia. by rewrite HL0.
  - rewrite Hm, index_build_RPANTABLE by lia. by rewrite HR0.
  - intros T c slot slot' l r HLT HRT Hlevel Hup.
    destruct (voice_update_inv _ _ _ _ _ _ Hup)
      as (b & s1 & step1 & smp & s2 & sample2 & g & _ & _ & _ & _ & _ & Hp).
    unfold pan_mix in Hp. rewrite HLT, HRT, Hlevel in Hp.
    split.
    + intros Hpan. rewrite Hpan in Hp.
      change (u32 (Z.shiftl 0 7)) with 0 in Hp. rewrite Z.lor_0_r in Hp.
      rewrite index_build_LPANTABLE, index_build_RPANTABLE in Hp by lia.
      cbn [mbind result_bind] in Hp. rewrite pan_centre_equal in Hp by lia.
      by injection Hp as <- <-.
    + intros Hpan. rewrite Hpan, Hm' in Hp.
      rewrite index_build_LPANTABLE, index_build_RPANTABLE in Hp by lia.
      cbn [mbind result_bind] in Hp. rewrite HL0, HR0 in Hp.
      by injection Hp as <- <-.
Qed.

End PanTable.

(** In fixed point every attenuation of the table is a number: it depends
    on the level bits of the index only, and the 128 levels are computed. *)
Lemma pan_TL_fixed_finite (i : Z) :
  0 <= i < 0x800 -> is_Some (@pan_TL Fixed_arith i).
Proof.
  intros Hi.
  assert (Ht : 0 <= Z.land i 0x7f <= 0x7f).
  { change (Z.land i 0x7f) with (Z.land i (Z.ones 7)).
    rewrite Z.land_ones by lia. change (2 ^ 7) with 128.
    pose proof (Z.mod_pos_bound i 128). lia. }
  assert (E : @pan_TL Fixed_arith i = @pan_TL Fixed_arith (Z.land i 0x7f)).
  { unfold pan_TL. rewrite <- Z.land_assoc. reflexivity. }
  rewrite E.
  assert (Hall : forallb (fun t => bool_decide (is_Some (@pan_TL Fixed_arith t)))
                   (map Z.of_nat (seq 0 128)) = true)
    by (vm_compute; reflexivity).
  pose proof (forall_TL _ Hall _ Ht) as H. cbv beta in H.
  by apply bool_decide_eq_true in H.
Qed.

(** Zero times a number is zero in fixed point, and zero times [None] is
    not. *)
Lemma fixed_fmul_zero_l (x : @float Fixed_arith) :
  is_Some x ->
  @f_single Fixed_arith (@fmul Fixed_arith (@f_of_Z Fixed_arith 0) x)
  = @f_of_Z Fixed_arith 0.
Proof. intros [b ->]. reflexivity. Qed.

Lemma fixed_fmul_zero_None :
  @f_single Fixed_arith (@fmul Fixed_arith (@f_of_Z Fixed_arith 0) None)
  <> @f_of_Z Fixed_arith 0.
Proof. discriminate. Qed.

Lemma pan_table_centre_and_mute_witness :
  0 <= 5 <= 0x7f /\
  (index A_PANTABLE (@build_LPANTABLE Fixed_arith) (Z.lor (Z.shiftl 0 7) 5) = Ok 825 /\
   index A_PANTABLE (@build_RPANTABLE Fixed_arith) (Z.lor (Z.shiftl 0 7) 5) = Ok 825) /\
  index A_PANTABLE (@build_LPANTABLE Fixed_arith) (Z.lor (Z.shiftl 8 7) 5) = Ok 0 /\
  index A_PANTABLE (@build_RPANTABLE Fixed_arith) (Z.lor (Z.shiftl 8 7) 5) = Ok 0 /\
  (LPANTABLE Tables_fixed = @build_LPANTABLE Fixed_arith /\
   RPANTABLE Tables_fixed = @build_RPANTABLE Fixed_arith) /\
  (Z.shiftr (SLOT.TL voice_centre) SHIFT = 5 /\ SLOT.Pan voice_centre = 0 /\
   @voice_update Fixed_arith Tables_fixed chip_panned voice_centre
   = Ok voice_centre_rendered /\
   snd (fst voice_centre_rendered) = 3403 /\ snd voice_centre_rendered = 3403) /\
  (Z.shiftr (SLOT.TL voice_muted) SHIFT = 5 /\ SLOT.Pan voice_muted = 8 /\
   @voice_update Fixed_arith Tables_fixed chip_panned voice_muted
   = Ok voice_muted_rendered /\
   snd (fst voice_muted_rendered) = 0 /\ snd voice_muted_rendered = 0).
Proof.
  assert (Htl : 0 <= 5 <= 0x7f) by lia.
  assert (Hfix : @FIX Fixed_arith (@f_of_Z Fixed_arith 0) = 0)
    by (vm_compute; reflexivity).
  assert (HL : index A_PANTABLE (@build_LPANTABLE Fixed_arith)
                 (Z.lor (Z.shiftl 0 7) 5) = Ok 825) by reflexivity.
  assert (Hc : @voice_update Fixed_arith Tables_fixed chip_panned voice_centre
               = Ok voice_centre_rendered) by reflexivity.
  assert (Hm : @voice_update Fixed_arith Tables_fixed chip_panned voice_muted
               = Ok voice_muted_rendered) by reflexivity.
  destruct (@pan_table_centre_and_mute Fixed_arith is_Some
              pan_TL_fixed_finite fixed_fmul_zero_l Hfix 5 Htl)
    as ((v & HLv & HRv) & HL0 & HR0 & Hrender).
  split; [exact Htl |].
  split.
  { split; [exact HL |].
    rewrite HL in HLv. injection HLv as <-. exact HRv. }
  split; [exact HL0 |]. split; [exact HR0 |].
  split; [split; reflexivity |].
  split.
  - destruct (Hrender Tables_fixed chip_panned voice_centre
                (fst (fst voice_centre_rendered)) (snd (fst voice_centre_rendered))
                (snd voice_centre_rendered) eq_refl eq_refl eq_refl Hc)
      as [Heq _].
    split; [reflexivity |]. split; [reflexivity |]. split; [exact Hc |].
    split; [reflexivity |]. rewrite <- (Heq eq_refl). reflexivity.
  - destruct (Hrender Tables_fixed chip_panned voice_muted
                (fst (fst voice_muted_rendered)) (snd (fst voice_muted_rendered))
                (snd voice_muted_rendered) eq_refl eq_refl eq_refl Hm)
      as [_ Hzero].
    split; [reflexivity |]. split; [reflexivity |]. split; [exact Hm |].
    exact (Hzero eq_refl).
Defined.

(** ** Runs of the envelope and of the render loop *)

Lemma EG_Update_monotone_bounded_witness :
  EG.state (SLOT.EG voice_keyed) = ATTACK /\
  EG.AR (SLOT.EG voice_keyed) = 31298 /\
  exists slot' g,
    EG_Update Tables_sample voice_keyed = Ok (slot', g) /\
    EG.volume (SLOT.EG voice_keyed) <= EG.volume (SLOT.EG slot') /\
    0 <= EG.volume (SLOT.EG slot') <= Z.shiftl 0x3ff 16.
Proof.
  split; [vm_compute; reflexivity |]. split; [vm_compute; reflexivity |].
  destruct (@EG_Update_monotone_bounded Z_arith Tables_sample chip_keyed
              voice_keyed voice_keyed_calc voice_keyed)
    as (slot' & g & Hup & _ & Hinc & Hb).
  - vm_compute. reflexivity.
  - apply (bool_decide_eq_true_1 (Steps_ok (ARStep chip_keyed))).
    vm_compute. reflexivity.
  - apply (bool_decide_eq_true_1 (Steps_ok (DRStep chip_keyed))).
    vm_compute. reflexivity.
  - vm_compute. reflexivity.
  - vm_compute. repeat split; reflexivity.
  - vm_compute. split; discriminate.
  - exists slot', g. split; [exact Hup |]. split; [| exact Hb].
    apply Hinc. vm_compute. reflexivity.
Defined.

Lemma voice_keyed_ok : @voice_ok Z_arith chip_keyed voice_keyed.
Proof.
  split.
  { exists 0. split; [vm_compute; reflexivity |].
    vm_compute. split; [discriminate | reflexivity]. }
  split; [intros H; exfalso; apply H; vm_compute; reflexivity |].
  split; [intros H; exfalso; apply H; vm_compute; reflexivity |].
  split; [vm_compute; repeat split; discriminate |].
  split; [vm_compute; split; discriminate |].
  split; [vm_compute; split; discriminate |].
  split; [vm_compute; discriminate |].
  split; [vm_compute; discriminate |].
  split; [vm_compute; split; discriminate |].
  left. vm_compute. reflexivity.
Qed.

Lemma chip_keyed_render_ok : @render_ok Z_arith Tables_sample chip_keyed.
Proof.
  split; [repeat split |].
  split; [vm_compute; split; [discriminate | reflexivity] |].
  split; [vm_compute; reflexivity |].
  assert (Hslots : Slots chip_keyed = voice_keyed :: replicate 27 SLOT.zero)
    by (vm_compute; reflexivity).
  rewrite Hslots. constructor.
  - right. right. exact voice_keyed_ok.
  - apply Forall_replicate. left. reflexivity.
Qed.

Lemma MultiPCM_update_overwrites_witness :
  @MultiPCM_update Z_arith Tables_sample chip_rom_16 4
    ([9; 9; 9; 9; 9], [7; 7; 7; 7; 7])
  = Ok (chip_rom_16, ([0; 0; 0; 0; 9], [0; 0; 0; 0; 7])) /\
  exists ptChip' ls rs,
    @render Z_arith Tables_sample 2 chip_keyed = Ok (ptChip', ls, rs) /\
    @MultiPCM_update Z_arith Tables_sample chip_keyed 2 ([9; 9; 9], [7; 7; 7])
    = Ok (ptChip', (ls ++ [9], rs ++ [7])).
Proof.
  split.
  - destruct (@MultiPCM_update_overwrites Z_arith Tables_sample chip_rom_16 4)
      as (_ & _ & _ & Hsilent).
    apply (Hsilent eq_refl).
    + apply (bool_decide_eq_true_1 (all_silent chip_rom_16)).
      vm_compute. reflexivity.
    + simpl. lia.
    + simpl. lia.
  - destruct (@MultiPCM_update_overwrites Z_arith Tables_sample chip_keyed 2)
      as (_ & _ & Hreturns & _).
    destruct (Hreturns chip_keyed_render_ok) as (c' & ls & rs & Hr & _ & Hup).
    exists c', ls, rs. split; [exact Hr |].
    apply (Hup [9; 9; 9] [7; 7; 7]); simpl; lia.
Defined.

(** The keyed voice is heard from the second sample on, and what the
    buffers held is gone from the first two entries. *)
Example MultiPCM_update_keyed_voice :
  exists ptChip',
    @MultiPCM_update Z_arith Tables_sample chip_keyed 2 ([9; 9; 9], [7; 7; 7])
    = Ok (ptChip', ([0; -256; 9], [0; -256; 7])).
Proof. eexists. vm_compute. reflexivity. Qed.

(** * Further properties *)

(** ** The register ports *)

Lemma land_0x1f_range (x : Z) : 0 <= Z.land x 0x1f < 32.
Proof.
  change 0x1f with (Z.ones 5). rewrite Z.land_ones by lia.
  apply Z.mod_pos_bound. lia.
Qed.

Lemma land_7_range (x : Z) : 0 <= Z.land x 7 < 8.
Proof.
  change 7 with (Z.ones 3). rewrite Z.land_ones by lia.
  apply Z.mod_pos_bound. lia.
Qed.

(** A property of the values below [n], checked value by value. *)
Lemma forall_below (n : nat) (P : Z -> bool) :
  forallb P (map Z.of_nat (seq 0 n)) = true ->
  forall v, 0 <= v < Z.of_nat n -> P v = true.
Proof.
  intros Hall v Hv.
  rewrite forallb_forall in Hall. apply Hall.
  apply in_map_iff. exists (Z.to_nat v). split; [lia |].
  apply in_seq. lia.
Qed.

Lemma val2chan_spec (v : Z) :
  0 <= v < 32 ->
  index A_Slots val2chan v = Ok (chan_of v) /\
  (chan_of v = -1 <-> Z.land v 7 = 7) /\
  (chan_of v = -1 \/ 0 <= chan_of v < 28).
Proof.
  intros Hv.
  pose proof (forall_below 32
    (fun v => match index A_Slots val2chan v with
              | Ok ch => (ch =? chan_of v)
                         && (Bool.eqb (ch =? -1) (Z.land v 7 =? 7))
                         && ((ch =? -1) || ((0 <=? ch) && (ch <? 28)))
              | Err _ => false
              end) eq_refl v Hv) as H.
  cbv beta in H.
  destruct (index A_Slots val2chan v) as [ch |]; [| discriminate].
  apply andb_true_iff in H as [H H3]. apply andb_true_iff in H as [H1 H2].
  apply Z.eqb_eq in H1. subst ch. split; [reflexivity |].
  apply Bool.eqb_prop in H2. split.
  - rewrite <- !Z.eqb_eq. by rewrite H2.
  - apply orb_true_iff in H3 as [H3 | H3]; [left; lia | right; lia].
Qed.

Section Ports.
Context {FA : FloatArith}.
Variable T : Tables.

(** X1. A write to port 1 never fails: it selects voice [v - v/8] for the
    5-bit selector [v = data & 0x1f], a value in 0..27, unless the low three
    bits of the data are all set, when it selects the gap -1. *)
Theorem multipcm_w_slot_select (ptChip : MultiPCM) (data : Z) :
  let ch := chan_of (Z.land data 0x1f) in
  multipcm_w T ptChip 1 data = Ok (set_CurSlot ch ptChip) /\
  (ch = -1 <-> Z.land data 7 = 7) /\
  (ch <> -1 -> 0 <= ch < 28 /\
              ch = Z.land data 0x1f - Z.shiftr (Z.land data 0x1f) 3).
Proof.
  cbn zeta. pose proof (land_0x1f_range data) as Hv.
  destruct (val2chan_spec _ Hv) as (Hidx & Hgap & Hrange).
  unfold multipcm_w. rewrite Hidx. cbn [mbind result_bind].
  split; [reflexivity |].
  assert (Hlow : Z.land (Z.land data 0x1f) 7 = Z.land data 7).
  { rewrite <- Z.land_assoc. reflexivity. }
  rewrite Hlow in Hgap. split; [exact Hgap |].
  intros Hne. split; [destruct Hrange; done |].
  unfold chan_of in *. rewrite Hlow in *.
  destruct (Z.eqb_spec (Z.land data 7) 7); done.
Qed.

Lemma WriteSlot_at_inv (ptChip ptChip' : MultiPCM) (data : Z) :
  WriteSlot_at T ptChip data = Ok ptChip' ->
  exists slot slot',
    index A_Slots (Slots ptChip) (CurSlot ptChip) = Ok slot /\
    WriteSlot T ptChip slot (Address ptChip) data = Ok slot' /\
    ptChip' = set_Slots (<[Z.to_nat (CurSlot ptChip) := slot']> (Slots ptChip)) ptChip.
Proof.
  unfold WriteSlot_at.
  intros (slot & Hslot & H)%bind_Ok.
  apply bind_Ok in H as (slot' & Hw & H).
  apply bind_Ok in H as (slots & Hst & H).
  injection H as <-.
  exists slot, slot'. split; [done |]. split; [done |].
  unfold store in Hst.
  destruct ((0 <=? CurSlot ptChip) && _); [| done].
  by injection Hst as <-.
Qed.

(** X2. The register-select state stays in range: after any port write of a
    byte, and after any quick write, [Address] is one of the 8 registers and
    [CurSlot] is one of the 28 voices or the gap -1. *)
Theorem multipcm_w_keeps_iface (ptChip ptChip' : MultiPCM) (offset data : Z) :
  is_byte data -> iface_ok ptChip ->
  (multipcm_w T ptChip offset data = Ok ptChip' -> iface_ok ptChip') /\
  (multipcm_w_quick T ptChip offset data = Ok ptChip' -> iface_ok ptChip').
Proof.
  intros Hd Hok. split.
  - unfold multipcm_w.
    destruct offset as [| [p | [p | p |] |] | p];
      try (lazy beta iota; intros [= <-]; exact Hok).
    + (* port 0 *)
      destruct (CurSlot ptChip =? -1); [by intros [= <-] |].
      intros (slot & slot' & _ & _ & ->)%WriteSlot_at_inv. exact Hok.
    + (* port 2 *)
      intros [= <-]. destruct Hok as [_ Hcur]. split; [| exact Hcur].
      cbn. unfold is_byte in Hd. destruct (Z.gtb_spec data 7); lia.
    + (* port 1 *)
      destruct (val2chan_spec _ (land_0x1f_range data)) as (Hidx & _ & Hch).
      rewrite Hidx. intros [= <-].
      destruct Hok as [Haddr _]. split; [exact Haddr | exact Hch].
  - unfold multipcm_w_quick.
    pose proof (land_0x1f_range (Z.shiftr offset 3)) as Hv.
    destruct (val2chan_spec _ Hv) as (Hidx & _ & Hrange).
    rewrite Hidx. cbn [mbind result_bind].
    set (c1 := set_Address _ (set_CurSlot _ ptChip)).
    assert (Hc1 : iface_ok c1).
    { pose proof (land_7_range offset) as H7.
      split; [subst c1; cbn; lia | exact Hrange]. }
    destruct (CurSlot c1 =? -1); [by intros [= <-] |].
    intros (slot & slot' & _ & _ & ->)%WriteSlot_at_inv. exact Hc1.
Qed.

(** X3. A quick write is the three port writes in a row: the voice selector
    [offset >> 3] to port 1, the register [offset & 7] to port 2, the data
    to port 0. *)
Theorem multipcm_w_quick_is_three_writes (ptChip : MultiPCM) (offset data : Z) :
  multipcm_w_quick T ptChip offset data
  = (c ← multipcm_w T ptChip 1 (Z.shiftr offset 3);
     c ← multipcm_w T c 2 (Z.land offset 0x07);
     multipcm_w T c 0 data).
Proof.
  unfold multipcm_w_quick, multipcm_w.
  destruct (index A_Slots val2chan _) as [ch |]; [| reflexivity].
  cbn [mbind result_bind].
  pose proof (land_7_range offset) as H7.
  destruct (Z.gtb_spec (Z.land offset 7) 7); [lia |].
  reflexivity.
Qed.

End Ports.

(** ** Envelope rates *)

Lemma s32_u32_sum (a b : Z) :
  - 2 ^ 31 <= a + b < 2 ^ 31 -> s32 (u32 (a + u32 b)) = a + b.
Proof.
  intros H. unfold u32. rewrite Zplus_mod_idemp_r. unfold s32.
  replace (((a + b) mod 2 ^ 32 + 2 ^ 31) mod 2 ^ 32)
    with ((a + b + 2 ^ 31) mod 2 ^ 32)
    by (rewrite Zplus_mod_idemp_l; reflexivity).
  rewrite Z.mod_small by lia. lia.
Qed.

(** The entry [Get_RATE] reads for a rate field between 1 and 14: the sum,
    clamped from above only. *)
Lemma Get_RATE_index (Steps : list Z) (rate val : Z) :
  1 <= val <= 0xe -> - 2 ^ 31 <= 4 * val + rate < 2 ^ 31 ->
  Get_RATE Steps (u32 rate) val
  = index A_Steps Steps (if 4 * val + rate >? 0x3f then 0x3f else 4 * val + rate).
Proof.
  intros Hv Hr. unfold Get_RATE.
  destruct (Z.eqb_spec val 0); [lia |].
  destruct (Z.eqb_spec val 15); [lia |].
  rewrite s32_u32_sum by lia. reflexivity.
Qed.

Lemma Get_RATE_returns_iff (Steps : list Z) (rate val : Z) :
  length Steps = 0x40%nat ->
  0 <= val <= 0xf -> - 2 ^ 30 <= rate < 2 ^ 30 ->
  (exists x, Get_RATE Steps (u32 rate) val = Ok x) <-> rate_index_ok rate val.
Proof.
  intros Hlen Hv Hr. unfold rate_index_ok.
  destruct (Z.eq_dec val 0) as [-> | H0].
  { split; [by left |]. intros _. unfold Get_RATE. cbn [Z.eqb].
    apply index_in_range. lia. }
  destruct (Z.eq_dec val 0xf) as [-> | Hf].
  { split; [by right; left |]. intros _. unfold Get_RATE. cbn [Z.eqb Pos.eqb].
    apply index_in_range. lia. }
  rewrite Get_RATE_index by lia.
  split.
  - intros [x Hx]. right; right.
    destruct (Z.gtb_spec (4 * val + rate) 63); [lia |].
    apply index_Ok in Hx. lia.
  - intros [? | [? | Hpos]]; [lia | lia |].
    apply index_in_range.
    destruct (Z.gtb_spec (4 * val + rate) 63); lia.
Qed.

(** A failing [Get_RATE] on a 64-entry table is a read below the table. *)
Lemma Get_RATE_total (Steps : list Z) (rate val : Z) :
  length Steps = 0x40%nat ->
  (exists x, Get_RATE Steps rate val = Ok x) \/
  (exists i, i < 0 /\ Get_RATE Steps rate val = Err (OutOfBounds A_Steps i)).
Proof.
  intros Hlen. unfold Get_RATE.
  destruct (val =? 0); [left; apply index_in_range; lia |].
  destruct (val =? 15); [left; apply index_in_range; lia |].
  set (r := s32 _).
  destruct (Z.gtb_spec r 63); [left; apply index_in_range; lia |].
  destruct (Z.lt_ge_cases r 0).
  - right. exists r. split; [done |]. apply index_out_of_range. lia.
  - left. apply index_in_range. lia.
Qed.

Lemma land_1_range (x : Z) : 0 <= Z.land x 1 < 2.
Proof.
  change (Z.land x 1) with (Z.land x (Z.ones 1)). rewrite Z.land_ones by lia.
  apply Z.mod_pos_bound. lia.
Qed.

Lemma EG_octave_range (regs3 : Z) : - 8 <= EG_octave regs3 <= 7.
Proof.
  unfold EG_octave. cbn zeta.
  set (o := Z.land _ 0xf).
  assert (Ho : 0 <= o < 16).
  { subst o. change 0xf with (Z.ones 4). rewrite Z.land_ones by lia.
    apply Z.mod_pos_bound. lia. }
  clearbody o.
  pose proof (forall_below 16
    (fun o => Bool.eqb (truthy (Z.land o 8)) (8 <=? o)) eq_refl o Ho) as H.
  apply Bool.eqb_prop in H. rewrite H.
  destruct (Z.leb_spec 8 o); lia.
Qed.

Lemma EG_rate_range (regs3 KRS : Z) :
  0 <= KRS <= 0xf -> - 16 <= EG_rate regs3 KRS <= 45.
Proof.
  intros HK. unfold EG_rate.
  destruct (Z.eqb_spec KRS 0xf); cbn [negb]; [lia |].
  pose proof (EG_octave_range regs3).
  pose proof (land_1_range (Z.shiftr regs3 3)) as Hb.
  rewrite s32_small by lia. lia.
Qed.

Section Envelope.
Context {FA : FloatArith}.

Lemma EG_Calc_inv (ptChip : MultiPCM) (slot slot' : SLOT.t) :
  EG_Calc ptChip slot = Ok slot' ->
  exists smp ar d1r d2r rr,
    slot_Sample ptChip slot = Ok smp /\
    slot' = SLOT.set_EG
              (EG.set_rates ar d1r d2r rr (0xf - Sample.DL smp) (SLOT.EG slot))
              slot.
Proof.
  unfold EG_Calc.
  intros (smp & Hsmp & H)%bind_Ok.
  apply bind_Ok in H as (ar & _ & H).
  apply bind_Ok in H as (d1r & _ & H).
  apply bind_Ok in H as (d2r & _ & H).
  apply bind_Ok in H as (rr & _ & H).
  injection H as <-. eauto 10.
Qed.

(** X4. When the envelope rates can be computed.  With step tables of 64
    entries and a descriptor whose rate fields and [KRS] are 4-bit values,
    [EG_Calc] returns exactly when each of [AR], [DR1], [DR2], [RR] is 0,
    is 0xf, or gives a non-negative index [4 * field + rate]; this is the
    case whenever [KRS] is 0xf or the sum of the signed octave and [KRS] is
    not negative. *)
Theorem EG_Calc_returns_iff (ptChip : MultiPCM) (slot : SLOT.t) (smp : Sample.t) :
  length (ARStep ptChip) = 0x40%nat -> length (DRStep ptChip) = 0x40%nat ->
  slot_Sample ptChip slot = Ok smp ->
  0 <= Sample.KRS smp <= 0xf ->
  0 <= Sample.AR smp <= 0xf -> 0 <= Sample.DR1 smp <= 0xf ->
  0 <= Sample.DR2 smp <= 0xf -> 0 <= Sample.RR smp <= 0xf ->
  let rate := EG_rate (Regs.r3 (SLOT.Regs slot)) (Sample.KRS smp) in
  ((exists slot', EG_Calc ptChip slot = Ok slot') <->
   rate_index_ok rate (Sample.AR smp) /\ rate_index_ok rate (Sample.DR1 smp) /\
   rate_index_ok rate (Sample.DR2 smp) /\ rate_index_ok rate (Sample.RR smp)) /\
  (Sample.KRS smp = 0xf \/
   0 <= EG_octave (Regs.r3 (SLOT.Regs slot)) + Sample.KRS smp ->
   exists slot', EG_Calc ptChip slot = Ok slot').
Proof.
  intros HA HD Hsmp HK Har Hd1 Hd2 Hrr rate.
  pose proof (EG_rate_range (Regs.r3 (SLOT.Regs slot)) _ HK) as Hrate.
  fold rate in Hrate.
  assert (Hr : - 2 ^ 30 <= rate < 2 ^ 30) by lia.
  pose proof (Get_RATE_returns_iff _ rate _ HA Har Hr) as Iar.
  pose proof (Get_RATE_returns_iff _ rate _ HD Hd1 Hr) as Id1.
  pose proof (Get_RATE_returns_iff _ rate _ HD Hd2 Hr) as Id2.
  pose proof (Get_RATE_returns_iff _ rate _ HD Hrr Hr) as Irr.
  assert (Hiff : (exists slot', EG_Calc ptChip slot = Ok slot') <->
            rate_index_ok rate (Sample.AR smp) /\
            rate_index_ok rate (Sample.DR1 smp) /\
            rate_index_ok rate (Sample.DR2 smp) /\
            rate_index_ok rate (Sample.RR smp)).
  { rewrite <- Iar, <- Id1, <- Id2, <- Irr. unfold EG_Calc. rewrite Hsmp.
    cbn [mbind result_bind]. fold rate.
    destruct (Get_RATE (ARStep ptChip) (u32 rate) (Sample.AR smp)) as [ar |];
      cbn [mbind result_bind]; [| split; [intros [? [=]] | intros ([? [=]] & _)]].
    destruct (Get_RATE (DRStep ptChip) (u32 rate) (Sample.DR1 smp)) as [d1r |];
      cbn [mbind result_bind];
      [| split; [intros [? [=]] | intros (_ & [? [=]] & _)]].
    destruct (Get_RATE (DRStep ptChip) (u32 rate) (Sample.DR2 smp)) as [d2r |];
      cbn [mbind result_bind];
      [| split; [intros [? [=]] | intros (_ & _ & [? [=]] & _)]].
    destruct (Get_RATE (DRStep ptChip) (u32 rate) (Sample.RR smp)) as [rr |];
      cbn [mbind result_bind];
      [| split; [intros [? [=]] | intros (_ & _ & _ & [? [=]])]].
    split; eauto 10. }
  split; [exact Hiff |].
  intros Hpos. apply Hiff.
  assert (H0 : 0 <= rate).
  { subst rate. unfold EG_rate.
    destruct (Z.eqb_spec (Sample.KRS smp) 0xf); cbn [negb]; [lia |].
    destruct Hpos as [? | Hpos]; [done |].
    pose proof (EG_octave_range (Regs.r3 (SLOT.Regs slot))).
    pose proof (land_1_range (Z.shiftr (Regs.r3 (SLOT.Regs slot)) 3)) as Hb.
    rewrite s32_small by lia. lia. }
  unfold rate_index_ok. repeat split; right; right; lia.
Qed.

End Envelope.

(** ** Register writes to a voice *)

Section Registers.
Context {FA : FloatArith}.
Variable T : Tables.

Lemma LFO_ComputeStep_inv (ptChip : MultiPCM) (L L' : LFO.t) (LFOF LFOS : Z)
    (ALFO : bool) :
  LFO_ComputeStep T ptChip L LFOF LFOS ALFO = Ok L' ->
  exists sc,
    index A_SCALES (if ALFO then ASCALES T else PSCALES T) LFOS = Ok sc /\
    LFO.phase L' = LFO.phase L /\
    LFO.table L' = Some (if ALFO then ALFO_TRI else PLFO_TRI) /\
    LFO.scale L' = Some sc.
Proof.
  unfold LFO_ComputeStep.
  intros (f & _ & H)%bind_Ok. cbn zeta in H.
  destruct ALFO; apply bind_Ok in H as (sc & Hsc & [= <-]); eauto.
Qed.

(** What [case 6] and [case 7] leave alone: everything but the two LFOs,
    and their phases. *)
Lemma WriteSlot_LFO_frame (ptChip : MultiPCM) (slot slot' : SLOT.t) (data : Z) :
  WriteSlot_LFO T ptChip slot data = Ok slot' ->
  exists P A,
    slot' = SLOT.set_ALFO A (SLOT.set_PLFO P slot) /\
    LFO.phase P = LFO.phase (SLOT.PLFO slot) /\
    LFO.phase A = LFO.phase (SLOT.ALFO slot).
Proof.
  unfold WriteSlot_LFO. destruct (truthy data).
  - intros (P & HP & H)%bind_Ok. cbn zeta in H.
    apply bind_Ok in H as (A & HA & [= <-]).
    apply LFO_ComputeStep_inv in HP as (_ & _ & HPp & _).
    apply LFO_ComputeStep_inv in HA as (_ & _ & HAp & _).
    exists P, A. done.
  - intros [= <-]. exists (SLOT.PLFO slot), (SLOT.ALFO slot).
    by destruct slot.
Qed.

(** X5. Key-on.  A write to register 4 with bit 7 set that returns has
    latched descriptor [Regs[1]]: the voice plays from offset 0 with no
    previous sample, its level jumps to the target level, the envelope
    starts in ATTACK at volume 0 with the decay level [0xf - DL], and the
    base address is the descriptor's [Start], or for [Start >= 0x100000]
    its low 20 bits or-ed with the left bank when bit 3 of the pan is set
    and with the right bank otherwise. *)
Theorem WriteSlot_key_on (ptChip : MultiPCM) (slot slot' : SLOT.t) (data : Z) :
  Z.land data 0x80 <> 0 ->
  WriteSlot T ptChip slot 4 data = Ok slot' ->
  exists smp,
    index A_Samples (Samples ptChip) (Regs.r1 (SLOT.Regs slot)) = Ok smp /\
    SLOT.Sample slot' = Some (Regs.r1 (SLOT.Regs slot)) /\
    SLOT.Playing slot' = 1 /\
    SLOT.offset slot' = 0 /\ SLOT.Prev slot' = 0 /\
    SLOT.TL slot' = u32 (Z.shiftl (SLOT.DstTL slot) SHIFT) /\
    EG.state (SLOT.EG slot') = ATTACK /\
    EG.volume (SLOT.EG slot') = 0 /\
    EG.DL (SLOT.EG slot') = 0xf - Sample.DL smp /\
    SLOT.Base slot' =
      (if Sample.Start smp >=? 0x100000 then
         Z.lor (Z.land (Sample.Start smp) 0xfffff)
               (if truthy (Z.land (SLOT.Pan slot) 8)
                then BankL ptChip else BankR ptChip)
       else Sample.Start smp) /\
    Regs.r4 (SLOT.Regs slot') = data /\
    SLOT.step slot' = SLOT.step slot /\ SLOT.Pan slot' = SLOT.Pan slot /\
    SLOT.PLFO slot' = SLOT.PLFO slot /\ SLOT.ALFO slot' = SLOT.ALFO slot.
Proof.
  intros Hon. unfold WriteSlot, WriteSlot_reg.
  cbn [Regs.set mbind result_bind]. unfold truthy at 1.
  destruct (Z.eqb_spec (Z.land data 128) 0) as [? | _]; [done |].
  cbn [negb].
  intros (smp & Hsmp & H)%bind_Ok. cbn zeta in H.
  apply bind_Ok in H as (s1 & Hcalc & H).
  apply EG_Calc_inv in Hcalc as (smp' & ar & d1r & d2r & rr & Hsmp' & ->).
  assert (smp' = smp) as ->.
  { destruct slot. cbn in Hsmp, Hsmp'. congruence. }
  exists smp. split.
  { destruct slot. exact Hsmp. }
  destruct slot as [num regs pl sm base off stp pan tl dst tls prev eg pl' al mu].
  cbn in H |- *.
  destruct (Z.geb_spec (Sample.Start smp) 1048576);
    [destruct (truthy (Z.land pan 8)) |];
    injection H as <-; cbn; done.
Qed.

(** X6. The level register.  A write of [data] to register 5 never fails
    when [TLSteps] has its two entries.  The target level becomes
    [(data >> 1) & 0x7f].  With bit 0 set the level is the target at once;
    with bit 0 clear the level keeps its value and the ramp step is
    [TLSteps[0]] when the level is above the target and [TLSteps[1]]
    otherwise. *)
Theorem WriteSlot_level (ptChip : MultiPCM) (slot : SLOT.t) (data : Z)
    (lower raise : Z) :
  TLSteps T = [lower; raise] ->
  exists slot',
    WriteSlot T ptChip slot 5 data = Ok slot' /\
    SLOT.DstTL slot' = Z.land (Z.shiftr data 1) 0x7f /\
    (Z.land data 1 <> 0 ->
       SLOT.TL slot' = u32 (Z.shiftl (SLOT.DstTL slot') SHIFT) /\
       Z.shiftr (SLOT.TL slot') SHIFT = SLOT.DstTL slot' /\
       SLOT.TLStep slot' = SLOT.TLStep slot) /\
    (Z.land data 1 = 0 ->
       SLOT.TL slot' = SLOT.TL slot /\
       SLOT.TLStep slot' =
         if Z.shiftr (SLOT.TL slot) SHIFT >? SLOT.DstTL slot'
         then lower else raise).
Proof.
  intros HT. unfold WriteSlot, WriteSlot_reg.
  cbn [Regs.set mbind result_bind]. cbn zeta. rewrite HT.
  destruct slot as [num regs pl sm base off stp pan tl dst tls prev eg pl' al mu].
  cbn [SLOT.DstTL SLOT.TL SLOT.set_DstTL SLOT.set_Regs SLOT.TLStep].
  set (d := Z.land (Z.shiftr data 1) 0x7f).
  assert (Hd : 0 <= d <= 0x7f) by (apply land_mask_range; lia).
  unfold truthy.
  destruct (Z.eqb_spec (Z.land data 1) 0) as [H0 | Hn0]; cbn [negb].
  - destruct (Z.gtb_spec (Z.shiftr tl SHIFT) d);
      cbn [index Z.ltb Z.compare Z.to_nat lookup list_lookup mbind result_bind];
      eexists; (split; [reflexivity |]); cbn; (split; [reflexivity |]);
      (split; [done |]); intros _; (split; [reflexivity |]);
      destruct (Z.gtb_spec (Z.shiftr tl SHIFT) d); (reflexivity || lia).
  - eexists. split; [reflexivity |]. cbn. split; [reflexivity |].
    split; [| done]. intros _. split; [reflexivity |]. split; [| reflexivity].
    rewrite u32_small.
    + rewrite Z.shiftr_shiftl_l by (unfold SHIFT; lia).
      rewrite Z.sub_diag. apply Z.shiftl_0_r.
    + rewrite Z.shiftl_mul_pow2 by (unfold SHIFT; lia).
      change (2 ^ SHIFT) with 4096. lia.
Qed.

(** X7. Selecting a sample.  A write of [data] to register 1 reads
    descriptor [data] and copies its [LFOVIB] and [AM] bytes into registers
    6 and 7, as if they had been written; it does not touch what the voice
    is playing: [Playing], the latched sample, the base, the offset, the
    pitch step, the level and the envelope keep their values, and so do
    the phases of the two LFOs. *)
Theorem WriteSlot_sample_select (ptChip : MultiPCM) (slot slot' : SLOT.t)
    (data : Z) :
  WriteSlot T ptChip slot 1 data = Ok slot' ->
  exists smp,
    index A_Samples (Samples ptChip) data = Ok smp /\
    SLOT.Regs slot' =
      Regs.mk (Regs.r0 (SLOT.Regs slot)) data (Regs.r2 (SLOT.Regs slot))
        (Regs.r3 (SLOT.Regs slot)) (Regs.r4 (SLOT.Regs slot))
        (Regs.r5 (SLOT.Regs slot)) (Sample.LFOVIB smp) (Sample.AM smp) /\
    SLOT.Playing slot' = SLOT.Playing slot /\
    SLOT.Sample slot' = SLOT.Sample slot /\
    SLOT.Base slot' = SLOT.Base slot /\
    SLOT.offset slot' = SLOT.offset slot /\
    SLOT.step slot' = SLOT.step slot /\
    SLOT.TL slot' = SLOT.TL slot /\ SLOT.DstTL slot' = SLOT.DstTL slot /\
    SLOT.EG slot' = SLOT.EG slot /\
    LFO.phase (SLOT.PLFO slot') = LFO.phase (SLOT.PLFO slot) /\
    LFO.phase (SLOT.ALFO slot') = LFO.phase (SLOT.ALFO slot).
Proof.
  unfold WriteSlot, WriteSlot_reg.
  cbn [Regs.set mbind result_bind]. cbn zeta.
  intros (smp & Hsmp & H)%bind_Ok.
  apply bind_Ok in H as (s1 & H1 & H2).
  apply WriteSlot_LFO_frame in H1 as (P1 & A1 & -> & HP1 & HA1).
  apply WriteSlot_LFO_frame in H2 as (P2 & A2 & -> & HP2 & HA2).
  exists smp. split; [by destruct slot |].
  destruct slot. cbn in *. split; [reflexivity |].
  repeat (split; [reflexivity |]). split; congruence.
Qed.

End Registers.

(** ** The descriptor table and the ROM *)

Lemma lor_range (a b n : Z) :
  0 <= n -> 0 <= a < 2 ^ n -> 0 <= b < 2 ^ n -> 0 <= Z.lor a b < 2 ^ n.
Proof.
  intros Hn Ha Hb.
  assert (H0 : 0 <= Z.lor a b) by (apply Z.lor_nonneg; lia).
  split; [exact H0 |].
  destruct (Z.eq_dec (Z.lor a b) 0) as [-> | Hne];
    [apply Z.pow_pos_nonneg; lia |].
  apply Z.log2_lt_pow2; [lia |].
  rewrite Z.log2_lor by lia.
  destruct (Z.eq_dec a 0) as [-> | Ha0]; destruct (Z.eq_dec b 0) as [-> | Hb0].
  - done.
  - rewrite Z.max_r by (cbn; apply Z.log2_nonneg).
    apply Z.log2_lt_pow2; lia.
  - rewrite Z.max_l by (cbn; apply Z.log2_nonneg).
    apply Z.log2_lt_pow2; lia.
  - apply Z.max_lub_lt; apply Z.log2_lt_pow2; lia.
Qed.

Lemma land_0xf_range (x : Z) : 0 <= Z.land x 0xf <= 0xf.
Proof. apply land_mask_range. lia. Qed.

Lemma parse_Sample_ranged (rom : list Z) (k : Z) (s : Sample.t) :
  Forall is_byte rom -> parse_Sample rom k = Ok s -> Sample_ranged s.
Proof.
  intros Hrom. rewrite list.Forall_forall in Hrom. unfold parse_Sample.
  intros (b0 & H0 & H)%bind_Ok. apply bind_Ok in H as (b1 & H1 & H).
  apply bind_Ok in H as (b2 & H2 & H). apply bind_Ok in H as (b3 & H3 & H).
  apply bind_Ok in H as (b4 & H4 & H). apply bind_Ok in H as (b5 & H5 & H).
  apply bind_Ok in H as (b6 & H6 & H). apply bind_Ok in H as (b7 & H7 & H).
  apply bind_Ok in H as (b8 & H8 & H). apply bind_Ok in H as (b9 & H9 & H).
  apply bind_Ok in H as (b10 & H10 & H). apply bind_Ok in H as (b11 & H11 & H).
  injection H as <-.
  apply index_elem_of, Hrom in H0, H1, H2, H3, H4, H5, H6, H7, H11.
  unfold Sample_ranged. unfold is_byte in *. cbn.
  rewrite !Z.shiftl_mul_pow2 by lia.
  change (2 ^ 16) with 65536. change (2 ^ 8) with 256. change (2 ^ 0) with 1.
  assert (HStart : 0 <= Z.lor (Z.lor (b0 * 65536) (b1 * 256)) (b2 * 1) < 2 ^ 24).
  { apply lor_range; [lia | | lia]. apply lor_range; lia. }
  assert (HLoop : 0 <= Z.lor (b3 * 256) (b4 * 1) < 2 ^ 16)
    by (apply lor_range; lia).
  assert (HEnd : 0 <= Z.lor (b5 * 256) (b6 * 1) < 2 ^ 16)
    by (apply lor_range; lia).
  pose proof (land_0xf_range b8). pose proof (land_0xf_range (Z.shiftr b8 4)).
  pose proof (land_0xf_range b9). pose proof (land_0xf_range (Z.shiftr b9 4)).
  pose proof (land_0xf_range b10). pose proof (land_0xf_range (Z.shiftr b10 4)).
  change (2 ^ 24) with 16777216 in *. change (2 ^ 16) with 65536 in *.
  lia.
Qed.

Lemma memcpy_bytes (dst : list Z) (offset : Z) (src : list Z) (n : Z)
    (rom : list Z) :
  Forall is_byte dst -> Forall is_byte src ->
  memcpy dst offset src n = Ok rom -> Forall is_byte rom.
Proof.
  intros Hd Hs. unfold memcpy.
  destruct (n =? 0); [by intros [= <-] |].
  destruct (_ <? _); [done |]. destruct (_ <? _); [done |].
  intros [= <-]. apply Forall_app. split; [by apply Forall_take |].
  apply Forall_app. split; [by apply Forall_take | by apply Forall_drop].
Qed.

(** The entries the rebuild loop has passed are parsed from the ROM; the
    others are as they were. *)
Lemma rebuild_loop_inv (n : nat) : forall (k : Z) (rom : list Z)
    (samples samples' : list Sample.t),
  0 <= k ->
  rebuild_loop n k rom samples = Ok samples' ->
  length samples' = length samples /\
  forall (j : nat) (s : Sample.t), samples' !! j = Some s ->
    if bool_decide (k <= Z.of_nat j < k + Z.of_nat n)
    then parse_Sample rom (Z.of_nat j) = Ok s
    else samples !! j = Some s.
Proof.
  induction n as [| n IH]; intros k rom samples samples' Hk; cbn [rebuild_loop].
  - intros [= <-]. split; [done |]. intros j s Hj.
    rewrite bool_decide_eq_false_2 by lia. exact Hj.
  - intros (smp & Hp & H)%bind_Ok.
    apply bind_Ok in H as (s1 & Hst & H).
    unfold store in Hst.
    destruct ((0 <=? k) && (k <? Z.of_nat (length samples))) eqn:Hin; [| done].
    injection Hst as <-.
    apply andb_true_iff in Hin as [_ Hin%Z.ltb_lt].
    apply IH in H as [Hlen H]; [| lia].
    rewrite length_insert in Hlen. split; [exact Hlen |].
    intros j s Hj. specialize (H j s Hj).
    destruct (decide (Z.of_nat j = k)) as [<- | Hne].
    + rewrite bool_decide_eq_false_2 in H by lia.
      rewrite bool_decide_eq_true_2 by lia.
      rewrite Nat2Z.id in H.
      rewrite list_lookup_insert_eq in H by lia.
      by injection H as <-.
    + destruct (decide (k + 1 <= Z.of_nat j < k + 1 + Z.of_nat n)).
      * rewrite bool_decide_eq_true_2 in H by done.
        rewrite bool_decide_eq_true_2 by lia. exact H.
      * rewrite bool_decide_eq_false_2 in H by done.
        rewrite bool_decide_eq_false_2 by lia.
        rewrite list_lookup_insert_ne in H by lia. exact H.
Qed.

Section Rom.
Context {FA : FloatArith}.

(** X8. Descriptors are parsed into their field widths.  After a ROM write
    in the header area that returns, on a ROM and data of bytes, every
    descriptor has a 24-bit [Start], 16-bit [Loop] and [End], 4-bit rates,
    [DL] and [KRS], and byte-wide [LFOVIB] and [AM]; the ROM still holds
    bytes. *)
Theorem write_rom_descriptors_ranged (ptChip ptChip' : MultiPCM)
    (offset length : Z) (data : list Z) :
  List.length (Samples ptChip) = 0x200%nat ->
  Forall is_byte (ROM ptChip) -> Forall is_byte data ->
  0 <= offset <= ROMSize ptChip -> offset < 0x200 * 12 ->
  multipcm_write_rom ptChip offset length data = Ok ptChip' ->
  Forall Sample_ranged (Samples ptChip') /\ Forall is_byte (ROM ptChip').
Proof.
  intros Hlen Hrom Hdata Ho Hhead. unfold multipcm_write_rom.
  destruct (Z.gtb_spec offset (ROMSize ptChip)) as [Hgt | _]; [lia |].
  intros (rom & Hcopy & H)%bind_Ok. cbn zeta in H.
  destruct (Z.ltb_spec offset (0x200 * 12)); [| lia].
  apply bind_Ok in H as (samples & Hre & [= <-]).
  cbn [ROM Samples set_ROM set_Samples] in *.
  pose proof (memcpy_bytes _ _ _ _ _ Hrom Hdata Hcopy) as Hbytes.
  split; [| exact Hbytes].
  apply rebuild_loop_inv in Hre as [Hlen' Hre]; [| lia].
  apply list.Forall_forall. intros s [j Hj]%list_elem_of_lookup.
  specialize (Hre j s Hj).
  assert (j < 512)%nat.
  { apply lookup_lt_Some in Hj. rewrite Hlen', Hlen in Hj. exact Hj. }
  rewrite bool_decide_eq_true_2 in Hre by lia.
  by apply (parse_Sample_ranged rom (Z.of_nat j)).
Qed.

(** The table [rebuild_loop] returns is a function of the ROM. *)
Lemma rebuild_loop_unique (rom : list Z) (s1 s2 r1 r2 : list Sample.t) :
  List.length s1 = 0x200%nat -> List.length s2 = 0x200%nat ->
  rebuild_loop 512 0 rom s1 = Ok r1 -> rebuild_loop 512 0 rom s2 = Ok r2 ->
  r1 = r2.
Proof.
  intros Hl1 Hl2 H1 H2.
  apply rebuild_loop_inv in H1 as [Hlen1 H1]; [| lia].
  apply rebuild_loop_inv in H2 as [Hlen2 H2]; [| lia].
  apply list_eq. intros j.
  destruct (r1 !! j) as [a |] eqn:Ha; destruct (r2 !! j) as [b |] eqn:Hb.
  - specialize (H1 j a Ha). specialize (H2 j b Hb).
    apply lookup_lt_Some in Ha. rewrite Hlen1, Hl1 in Ha.
    rewrite bool_decide_eq_true_2 in H1, H2 by lia. congruence.
  - apply lookup_lt_Some in Ha. apply lookup_ge_None in Hb. lia.
  - apply lookup_lt_Some in Hb. apply lookup_ge_None in Ha. lia.
  - reflexivity.
Qed.

Lemma ROM_written_twice (ptChip : MultiPCM) (offset length : Z) (data : list Z) :
  Z.of_nat (List.length (ROM ptChip)) = ROMSize ptChip ->
  0 <= offset <= ROMSize ptChip -> 0 <= length ->
  length <= Z.of_nat (List.length data) ->
  ROM_written (set_ROM (ROM_written ptChip offset length data) ptChip)
    offset length data
  = ROM_written ptChip offset length data.
Proof.
  intros Hrom Ho Hl Hdata. unfold ROM_written. cbn [ROM ROMSize set_ROM].
  set (n := Z.min length (ROMSize ptChip - offset)).
  assert (Hn : 0 <= n <= Z.of_nat (List.length data)) by lia.
  assert (Hn' : offset + n <= Z.of_nat (List.length (ROM ptChip))) by lia.
  f_equal.
  - rewrite take_app_le by (rewrite length_take; lia).
    rewrite take_take. f_equal. lia.
  - f_equal.
    rewrite drop_app_ge by (rewrite length_take; lia).
    rewrite length_take.
    rewrite drop_app_ge by (rewrite length_take; lia).
    rewrite length_take, drop_drop. f_equal. lia.
Qed.

(** X9. Writing the same bytes to the same place again changes nothing:
    the second [write_rom] returns the chip the first one left. *)
Theorem write_rom_idempotent (ptChip ptChip' : MultiPCM)
    (offset length : Z) (data : list Z) :
  chip_ok ptChip ->
  0 <= offset <= ROMSize ptChip -> 0 <= length ->
  offset + length < 2 ^ 32 ->
  length <= Z.of_nat (List.length data) ->
  multipcm_write_rom ptChip offset length data = Ok ptChip' ->
  multipcm_write_rom ptChip' offset length data = Ok ptChip'.
Proof.
  intros [Hrom Hsmp] Ho Hl Hsum Hdata.
  rewrite write_rom_accepted by done. cbn zeta.
  pose proof (ROM_written_length ptChip offset length data Ho Hl Hrom Hdata)
    as Hlen.
  pose proof (ROM_written_twice ptChip offset length data Hrom Ho Hl Hdata)
    as Htwice.
  set (c1 := set_ROM _ ptChip) in *.
  assert (Hrom1 : Z.of_nat (List.length (ROM c1)) = ROMSize c1).
  { subst c1. cbn [ROM ROMSize set_ROM]. lia. }
  destruct (Z.ltb_spec offset (0x200 * 12)) as [Hhead | Hbody].
  - intros (samples & Hre & [= <-])%bind_Ok.
    rewrite write_rom_accepted; [| done ..].
    cbn zeta. cbn [ROM ROMSize Samples set_ROM set_Samples].
    destruct (Z.ltb_spec offset (0x200 * 12)); [| lia].
    assert (Hw : ROM_written (set_Samples samples c1) offset length data
                 = ROM c1).
    { change (ROM_written (set_Samples samples c1) offset length data)
        with (ROM_written c1 offset length data).
      rewrite Htwice. reflexivity. }
    rewrite Hw.
    cbn [ROM Samples set_ROM set_Samples] in Hre.
    pose proof Hre as [Hlen1 _]%rebuild_loop_inv; [| lia].
    change (ROM_written ptChip offset length data) with (ROM c1) in Hre.
    destruct (rebuild_loop 512 0 (ROM c1) samples) as [samples' |] eqn:Hre'.
    + cbn [mbind result_bind].
      assert (samples' = samples) as ->; [| reflexivity].
      eapply rebuild_loop_unique; [| | exact Hre' | exact Hre].
      * rewrite Hlen1. exact Hsmp.
      * exact Hsmp.
    + exfalso.
      destruct (Z.lt_ge_cases (Z.of_nat (List.length (ROM c1))) (0x200 * 12)).
      * rewrite rebuild_loop_oob in Hre; [done | lia | lia |].
        change (Samples c1) with (Samples ptChip). lia.
      * destruct (rebuild_loop_Ok 512 0 (ROM c1) samples) as (r & Hr & _);
          [lia | lia | | congruence].
        change (Samples c1) with (Samples ptChip) in Hlen1. lia.
  - intros [= <-].
    rewrite write_rom_accepted; [| done ..].
    cbn zeta. destruct (Z.ltb_spec offset (0x200 * 12)); [lia |].
    rewrite Htwice. reflexivity.
Qed.

End Rom.

Section RomMask.
Context {FA : FloatArith}.

(** X10. The address mask fits the ROM only for a power of two.  After
    [alloc_rom] of a new size between 1 and 2^31 the ROM has that many
    bytes; when the size is a power of two the mask is [size - 1] and a
    masked read of any address returns (the fill byte 0xFF); when it is not,
    the mask exceeds the ROM: the masked read of address [size] is past
    its end. *)
Theorem alloc_rom_mask_covers (ptChip : MultiPCM) (memsize : Z) :
  0 < memsize <= 2 ^ 31 -> ROMSize ptChip <> memsize ->
  exists ptChip',
    multipcm_alloc_rom 32 ptChip memsize = Ok ptChip' /\
    Z.of_nat (length (ROM ptChip')) = memsize /\
    ((exists k, 0 <= k /\ memsize = 2 ^ k) ->
       ROMMask ptChip' = memsize - 1 /\
       forall a, index A_ROM (ROM ptChip') (Z.land a (ROMMask ptChip'))
                 = Ok 0xFF) /\
    ((forall k, 0 <= k -> memsize <> 2 ^ k) ->
       index A_ROM (ROM ptChip') (Z.land memsize (ROMMask ptChip'))
       = Err (OutOfBounds A_ROM memsize)).
Proof.
  intros Hm Hne.
  destruct (alloc_rom_up_to_2GiB ptChip memsize) as (k & Hk & Halloc & Hle & Hmin);
    [lia | done |].
  eexists. split; [exact Halloc |].
  cbn [ROM ROMMask set_ROM set_ROMMask set_ROMSize].
  rewrite length_replicate.
  split; [lia |].
  assert (Hones : 2 ^ k - 1 = Z.ones k) by (rewrite Z.ones_equiv; lia).
  rewrite Hones.
  split.
  - intros (j & Hj & ->).
    specialize (Hmin j Hj ltac:(lia)).
    assert (Hk2 : 2 ^ k = 2 ^ j) by lia.
    split; [lia |].
    intros a. rewrite Z.land_ones by lia.
    pose proof (Z.mod_pos_bound a (2 ^ k) ltac:(lia)) as Ha.
    apply index_Ok. split; [lia |].
    apply lookup_replicate_2. lia.
  - intros Hnp.
    assert (memsize < 2 ^ k) by (specialize (Hnp k ltac:(lia)); lia).
    rewrite Z.land_ones by lia. rewrite Z.mod_small by lia.
    apply index_out_of_range. rewrite length_replicate. lia.
Qed.

End RomMask.

(** ** The interface keeps the chip well formed *)

Lemma PLFO_TRI_range : Forall (fun p => 0 <= p + 128 < 256) PLFO_TRI.
Proof.
  apply (bool_decide_eq_true_1 (Forall (fun p => 0 <= p + 128 < 256) PLFO_TRI)).
  vm_compute. reflexivity.
Qed.

Lemma ALFO_TRI_range : Forall (fun p => 0 <= p + 0 < 256) ALFO_TRI.
Proof.
  apply (bool_decide_eq_true_1 (Forall (fun p => 0 <= p + 0 < 256) ALFO_TRI)).
  vm_compute. reflexivity.
Qed.

Lemma pitch_index_range (r2 r3 : Z) :
  is_byte r2 ->
  0 <= Z.lor (Z.shiftl (Z.land r3 0xf) 6) (Z.shiftr r2 2) < 0x400.
Proof.
  intros Hr2. unfold is_byte in Hr2. change 0x400 with (2 ^ 10).
  pose proof (land_0xf_range r3).
  apply lor_range; [lia | |].
  - rewrite Z.shiftl_mul_pow2 by lia. change (2 ^ 6) with 64.
    change (2 ^ 10) with 1024. lia.
  - rewrite Z.shiftr_div_pow2 by lia. change (2 ^ 2) with 4.
    change (2 ^ 10) with 1024.
    split; [apply Z.div_pos; lia | apply Z.div_lt_upper_bound; lia].
Qed.

Lemma level_snap (d : Z) :
  0 <= d <= 0x7f ->
  0 <= u32 (Z.shiftl d SHIFT) /\ Z.shiftr (u32 (Z.shiftl d SHIFT)) SHIFT = d.
Proof.
  intros Hd.
  rewrite u32_small.
  - split; [apply Z.shiftl_nonneg; lia |].
    rewrite Z.shiftr_shiftl_l by (unfold SHIFT; lia).
    rewrite Z.sub_diag. apply Z.shiftl_0_r.
  - rewrite Z.shiftl_mul_pow2 by (unfold SHIFT; lia).
    change (2 ^ SHIFT) with 4096. lia.
Qed.

Lemma bind_Ok_eq {A B : Type} (a : A) (k : A -> result B) : Ok a ≫= k = k a.
Proof. reflexivity. Qed.

Lemma bind_Err_eq {A B : Type} (e : error) (k : A -> result B) :
  Err e ≫= k = Err e.
Proof. reflexivity. Qed.

Section Invariant.
Context {FA : FloatArith}.
Variable T : Tables.

Lemma LFO_ComputeStep_ok (ptChip : MultiPCM) (L L' : LFO.t) (LFOF LFOS : Z)
    (ALFO : bool) :
  SCALES_ok T ->
  LFO_ComputeStep T ptChip L LFOF LFOS ALFO = Ok L' ->
  LFO_ok (if ALFO then 0 else 128) L'.
Proof.
  intros [HP HA] (sc & Hsc & _ & Htab & Hscale)%LFO_ComputeStep_inv.
  apply index_elem_of in Hsc.
  rewrite list.Forall_forall in HP, HA.
  exists (if ALFO then ALFO_TRI else PLFO_TRI), sc.
  split; [done |]. split; [done |].
  destruct ALFO.
  - rewrite (HA sc Hsc). split; [reflexivity | apply ALFO_TRI_range].
  - rewrite (HP sc Hsc). split; [reflexivity | apply PLFO_TRI_range].
Qed.

Lemma LFO_ComputeStep_returns (ptChip : MultiPCM) (L : LFO.t) (LFOF LFOS : Z)
    (ALFO : bool) :
  Tables_sized T -> 0 <= LFOF < 8 -> 0 <= LFOS < 8 ->
  exists L', LFO_ComputeStep T ptChip L LFOF LFOS ALFO = Ok L'.
Proof.
  intros (_ & _ & _ & _ & HP & HA) HF HS. unfold LFO_ComputeStep.
  destruct (index_in_range A_SCALES LFOFreq LFOF) as [f Hf]; [cbn; lia |].
  rewrite Hf. cbn [mbind result_bind]. cbn zeta.
  destruct ALFO.
  - destruct (index_in_range A_SCALES (ASCALES T) LFOS) as [sc Hsc]; [lia |].
    rewrite Hsc. cbn [mbind result_bind]. eauto.
  - destruct (index_in_range A_SCALES (PSCALES T) LFOS) as [sc Hsc]; [lia |].
    rewrite Hsc. cbn [mbind result_bind]. eauto.
Qed.

Lemma WriteSlot_LFO_total (ptChip : MultiPCM) (slot : SLOT.t) (data : Z) :
  Tables_sized T -> SCALES_ok T ->
  exists slot',
    WriteSlot_LFO T ptChip slot data = Ok slot' /\
    ((data = 0 /\ slot' = slot) \/
     (data <> 0 /\ exists P A,
        slot' = SLOT.set_ALFO A (SLOT.set_PLFO P slot) /\
        LFO_ok 128 P /\ LFO_ok 0 A)).
Proof.
  intros HT HS. unfold WriteSlot_LFO, truthy.
  destruct (Z.eqb_spec data 0) as [-> | Hne]; cbn [negb]; [eauto |].
  set (f := Z.land (Z.shiftr (Regs.r6 (SLOT.Regs slot)) 3) 7).
  pose proof (land_7_range (Z.shiftr (Regs.r6 (SLOT.Regs slot)) 3)) as Hf.
  pose proof (land_7_range (Regs.r6 (SLOT.Regs slot))) as H6.
  pose proof (land_7_range (Regs.r7 (SLOT.Regs slot))) as H7.
  destruct (LFO_ComputeStep_returns ptChip (SLOT.PLFO slot) f
              (Z.land (Regs.r6 (SLOT.Regs slot)) 7) false HT Hf H6) as [P HP].
  rewrite HP. cbn [mbind result_bind]. cbn zeta.
  destruct (LFO_ComputeStep_returns ptChip (SLOT.ALFO (SLOT.set_PLFO P slot)) f
              (Z.land (Regs.r7 (SLOT.Regs slot)) 7) true HT Hf H7) as [A HA].
  rewrite HA. cbn [mbind result_bind].
  eexists. split; [reflexivity |]. right. split; [done |].
  exists P, A. split; [done |].
  split.
  - exact (LFO_ComputeStep_ok _ _ _ _ _ false HS HP).
  - exact (LFO_ComputeStep_ok _ _ _ _ _ true HS HA).
Qed.

(** What the four rates of a voice are after [EG_Calc]: entries of the
    step tables. *)
Lemma EG_Calc_total (ptChip : MultiPCM) (slot : SLOT.t) (smp : Sample.t) :
  Steps_ok (ARStep ptChip) -> Steps_ok (DRStep ptChip) ->
  slot_Sample ptChip slot = Ok smp ->
  (exists slot', EG_Calc ptChip slot = Ok slot' /\ EG_rates_ok (SLOT.EG slot')) \/
  (exists i, i < 0 /\ EG_Calc ptChip slot = Err (OutOfBounds A_Steps i)).
Proof.
  intros HA HD Hsmp.
  destruct (EG_Calc ptChip slot) as [slot' | e] eqn:Hcalc.
  { left. exists slot'. split; [done |]. by eapply EG_Calc_rates_ok. }
  right. revert Hcalc. unfold EG_Calc. rewrite Hsmp.
  cbn [mbind result_bind].
  set (rate := u32 _).
  destruct (Get_RATE_total (ARStep ptChip) rate (Sample.AR smp) (proj1 HA))
    as [[ar ->] | (i & Hi & ->)]; cbn [mbind result_bind];
    [| intros [= <-]; eauto].
  destruct (Get_RATE_total (DRStep ptChip) rate (Sample.DR1 smp) (proj1 HD))
    as [[d1r ->] | (i & Hi & ->)]; cbn [mbind result_bind];
    [| intros [= <-]; eauto].
  destruct (Get_RATE_total (DRStep ptChip) rate (Sample.DR2 smp) (proj1 HD))
    as [[d2r ->] | (i & Hi & ->)]; cbn [mbind result_bind];
    [| intros [= <-]; eauto].
  destruct (Get_RATE_total (DRStep ptChip) rate (Sample.RR smp) (proj1 HD))
    as [[rr ->] | (i & Hi & ->)]; cbn [mbind result_bind];
    [| intros [= <-]; eauto].
  discriminate.
Qed.

(** Unfolds the voice invariant of the goal and closes the conjuncts that
    are hypotheses or linear arithmetic. *)
Ltac inv_goal :=
  cbn; unfold slot_inv, TL_ramp_ok; cbn;
  change (Z.shiftl 1 SHIFT) with 4096; split_and!; try done; try lia.

(** A register write to a well-formed voice returns a well-formed voice,
    or is the key-on whose rate index is negative.  One lemma per case of
    the [switch]. *)

(** Opens the invariant of [slot] into hypotheses on its fields. *)
Ltac open_slot Hinv slot :=
  destruct Hinv as (Hr1 & Hr2 & Hpan & Htl & Hlfo & Hplay);
  destruct slot as [num regs pl sm base off stp pan tl dst tls prev eg P A mu];
  destruct regs as [r0 r1 r2 r3 r4 r5 r6 r7];
  unfold TL_ramp_ok, is_byte in *;
  cbn in Hr1, Hr2, Hpan, Htl, Hlfo, Hplay;
  destruct Htl as (Htl0 & Hlev & Hdst & Hramp);
  unfold write_result_ok, WriteSlot_reg;
  cbn [Regs.set mbind result_bind SLOT.set_Regs SLOT.Regs Regs.r1 Regs.r2
       Regs.r3 Regs.r6 Regs.r7 SLOT.Num SLOT.Playing SLOT.Sample SLOT.Base
       SLOT.offset SLOT.step SLOT.Pan SLOT.TL SLOT.DstTL SLOT.TLStep
       SLOT.Prev SLOT.EG SLOT.PLFO SLOT.ALFO SLOT.Muted].

Lemma WriteSlot_reg_pan (ptChip : MultiPCM) (slot : SLOT.t) (data : Z) :
  slot_inv slot ->
  write_result_ok 0 data (WriteSlot_reg T ptChip slot 0 data).
Proof.
  intros Hinv. open_slot Hinv slot.
  pose proof (land_0xf_range (Z.shiftr data 4)). inv_goal.
Qed.

Lemma WriteSlot_reg_sample (ptChip : MultiPCM) (slot : SLOT.t) (data : Z) :
  slot_inv slot -> is_byte data ->
  write_result_ok 1 data (WriteSlot_reg T ptChip slot 1 data).
Proof.
  intros Hinv Hbyte. open_slot Hinv slot. inv_goal.
Qed.

Lemma WriteSlot_reg_pitch_low (ptChip : MultiPCM) (slot : SLOT.t) (data : Z) :
  length (FNS_Table ptChip) = 0x400%nat ->
  slot_inv slot -> is_byte data ->
  write_result_ok 2 data (WriteSlot_reg T ptChip slot 2 data).
Proof.
  intros HF Hinv Hbyte. open_slot Hinv slot.
  destruct (index_in_range A_FNS_Table (FNS_Table ptChip)
              (Z.lor (Z.shiftl (Z.land r3 0xf) 6) (Z.shiftr data 2)))
    as [pitch Hp].
  { rewrite HF. by apply pitch_index_range. }
  rewrite Hp. cbn [mbind result_bind]. inv_goal.
Qed.

Lemma WriteSlot_reg_pitch_high (ptChip : MultiPCM) (slot : SLOT.t) (data : Z) :
  length (FNS_Table ptChip) = 0x400%nat ->
  slot_inv slot ->
  write_result_ok 3 data (WriteSlot_reg T ptChip slot 3 data).
Proof.
  intros HF Hinv. open_slot Hinv slot.
  destruct (index_in_range A_FNS_Table (FNS_Table ptChip)
              (Z.lor (Z.shiftl (Z.land data 0xf) 6) (Z.shiftr r2 2)))
    as [pitch Hp].
  { rewrite HF. by apply pitch_index_range. }
  rewrite Hp. cbn [mbind result_bind]. inv_goal.
Qed.

Lemma WriteSlot_reg_key_off (ptChip : MultiPCM) (slot : SLOT.t) (data : Z) :
  length (Samples ptChip) = 0x200%nat ->
  slot_inv slot -> Z.land data 0x80 = 0 ->
  write_result_ok 4 data (WriteSlot_reg T ptChip slot 4 data).
Proof.
  intros HSm Hinv Hoff. open_slot Hinv slot.
  rewrite Hoff. cbn [truthy Z.eqb negb]. unfold truthy.
  destruct (Z.eqb_spec pl 0) as [-> | Hpl]; cbn [negb]; [inv_goal |].
  destruct (Hplay Hpl) as ((k & -> & Hk) & Hrates & Hvol).
  destruct (index_in_range A_Samples (Samples ptChip) k) as [smp Hsmp];
    [lia |].
  unfold slot_Sample.
  cbn [SLOT.Sample SLOT.set_Regs deref mbind result_bind].
  rewrite Hsmp. cbn [mbind result_bind].
  destruct (negb (Sample.RR smp =? 15)); inv_goal.
Qed.

Lemma WriteSlot_reg_key_on (ptChip : MultiPCM) (slot : SLOT.t) (data : Z) :
  Steps_ok (ARStep ptChip) -> Steps_ok (DRStep ptChip) ->
  length (Samples ptChip) = 0x200%nat ->
  slot_inv slot -> Z.land data 0x80 <> 0 ->
  write_result_ok 4 data (WriteSlot_reg T ptChip slot 4 data).
Proof.
  intros HA HD HSm Hinv Hon. open_slot Hinv slot.
  unfold truthy at 1.
  destruct (Z.eqb_spec (Z.land data 128) 0) as [? | _]; [done |].
  cbn [negb].
  destruct (index_in_range A_Samples (Samples ptChip) r1) as [smp Hsmp];
    [lia |].
  match goal with
  | |- context [slot_Sample ptChip ?s] =>
      change (slot_Sample ptChip s) with (index A_Samples (Samples ptChip) r1)
  end.
  rewrite Hsmp, bind_Ok_eq. cbn zeta.
  match goal with
  | |- context [EG_Calc ptChip ?s] =>
      destruct (EG_Calc_total ptChip s smp HA HD)
        as [(s1 & Hcalc & Hrates) | (i & Hi & Hcalc)]
  end.
  { exact Hsmp. }
  - rewrite Hcalc, bind_Ok_eq.
    apply EG_Calc_inv in Hcalc as (smp' & ar & d1r & d2r & rr & _ & ->).
    destruct (level_snap dst Hdst) as [Hs0 Hs1].
    cbn in Hrates.
    cbn zeta.
    match goal with
    | |- context [SLOT.Base ?s >=? _] => set (s10 := s)
    end.
    assert (Hgoal : slot_inv s10 /\ forall b, slot_inv (SLOT.set_Base b s10)).
    { subst s10. split; [| intros b]; inv_goal;
        (intros _; split_and!; [by exists r1 | exact Hrates |];
         unfold EG_volume_ok; cbn; change EG_VOLUME_MAX with 67043328; lia). }
    clearbody s10. destruct Hgoal as [Hs10 Hb].
    destruct (SLOT.Base s10 >=? 1048576);
      [destruct (truthy (Z.land (SLOT.Pan s10) 8)) |];
      [apply Hb | apply Hb | exact Hs10].
  - rewrite Hcalc, bind_Err_eq. eauto.
Qed.

Lemma WriteSlot_reg_level (ptChip : MultiPCM) (slot : SLOT.t) (data : Z) :
  TLSteps_ok T -> slot_inv slot ->
  write_result_ok 5 data (WriteSlot_reg T ptChip slot 5 data).
Proof.
  intros HTL Hinv. open_slot Hinv slot.
  destruct HTL as (lower & raise & HTLs & Hlo & Hra).
  rewrite HTLs.
  cbn [SLOT.TL SLOT.DstTL SLOT.TLStep SLOT.set_DstTL SLOT.set_Regs].
  set (d := Z.land (Z.shiftr data 1) 0x7f).
  assert (Hd : 0 <= d <= 0x7f) by (apply land_mask_range; lia).
  change (Z.shiftl 1 SHIFT) with 4096 in *.
  unfold truthy.
  destruct (Z.eqb_spec (Z.land data 1) 0) as [H0 | Hn0]; cbn [negb].
  - change (index A_TLSteps [lower; raise] 0) with (@Ok Z lower).
    change (index A_TLSteps [lower; raise] 1) with (@Ok Z raise).
    destruct (Z.gtb_spec (Z.shiftr tl SHIFT) d); inv_goal.
  - destruct (level_snap d Hd) as [Hs0 Hs1]. inv_goal.
Qed.

Lemma WriteSlot_reg_vibrato (ptChip : MultiPCM) (slot : SLOT.t) (data : Z) :
  Tables_sized T -> SCALES_ok T -> slot_inv slot ->
  write_result_ok 6 data (WriteSlot_reg T ptChip slot 6 data).
Proof.
  intros HT HS Hinv. open_slot Hinv slot.
  match goal with
  | |- context [WriteSlot_LFO T ptChip ?s data] =>
      destruct (WriteSlot_LFO_total ptChip s data HT HS)
        as (s' & Hw & [[-> ->] | (Hne & P' & A' & -> & HP' & HA')])
  end; rewrite Hw; inv_goal.
  intros [? | Hr7]; [done |]. apply Hlfo. by right.
Qed.

Lemma WriteSlot_reg_tremolo (ptChip : MultiPCM) (slot : SLOT.t) (data : Z) :
  Tables_sized T -> SCALES_ok T -> slot_inv slot ->
  write_result_ok 7 data (WriteSlot_reg T ptChip slot 7 data).
Proof.
  intros HT HS Hinv. open_slot Hinv slot.
  match goal with
  | |- context [WriteSlot_LFO T ptChip ?s data] =>
      destruct (WriteSlot_LFO_total ptChip s data HT HS)
        as (s' & Hw & [[-> ->] | (Hne & P' & A' & -> & HP' & HA')])
  end; rewrite Hw; inv_goal.
  intros [Hr6 | ?]; [| done]. apply Hlfo. by left.
Qed.

End Invariant.

Section InterfaceSafety.
Context {FA : FloatArith}.
Variable T : Tables.

Lemma WriteSlot_total (ptChip : MultiPCM) (slot : SLOT.t) (reg data : Z) :
  chip_inv T ptChip -> slot_inv slot -> 0 <= reg <= 7 -> is_byte data ->
  write_result_ok reg data (WriteSlot T ptChip slot reg data).
Proof.
  intros (HT & HTL & HS & HA & HD & HF & HSm & _) Hinv Hreg Hbyte.
  assert (Hcases : reg = 0 \/ reg = 1 \/ reg = 2 \/ reg = 3 \/ reg = 4 \/
                   reg = 5 \/ reg = 6 \/ reg = 7) by lia.
  destruct Hcases as [-> | [-> | [-> | [-> | [-> | [-> | [-> | ->]]]]]]].
  - by apply WriteSlot_reg_pan.
  - (* sample select *)
    unfold WriteSlot.
    pose proof (WriteSlot_reg_sample T ptChip slot data Hinv Hbyte) as H1.
    unfold WriteSlot_reg in H1.
    destruct (Regs.set 1 data (SLOT.Regs slot)) as [regs |] eqn:Hregs;
      [| discriminate Hregs].
    rewrite bind_Ok_eq in H1 |- *. cbn zeta. cbn beta iota in H1.
    assert (Hr1 : Regs.r1 regs = data) by (by injection Hregs as <-).
    rewrite Hr1.
    destruct (index_in_range A_Samples (Samples ptChip) data) as [smp Hsmp].
    { unfold is_byte in Hbyte. lia. }
    rewrite Hsmp, bind_Ok_eq.
    pose proof (WriteSlot_reg_vibrato T ptChip _ (Sample.LFOVIB smp) HT HS H1)
      as H6.
    destruct (WriteSlot_reg T ptChip _ 6 (Sample.LFOVIB smp)) as [s6 | e];
      [| by destruct H6].
    rewrite bind_Ok_eq.
    pose proof (WriteSlot_reg_tremolo T ptChip s6 (Sample.AM smp) HT HS H6)
      as H7.
    destruct (WriteSlot_reg T ptChip s6 7 (Sample.AM smp)) as [s7 | e];
      [exact H7 | by destruct H7].
  - by apply WriteSlot_reg_pitch_low.
  - by apply WriteSlot_reg_pitch_high.
  - destruct (Z.eq_dec (Z.land data 0x80) 0).
    + by apply WriteSlot_reg_key_off.
    + by apply WriteSlot_reg_key_on.
  - by apply WriteSlot_reg_level.
  - by apply WriteSlot_reg_vibrato.
  - by apply WriteSlot_reg_tremolo.
Qed.

(** The outcome of a write through the ports: a well-formed chip that
    differs from the old one in its voices at most, or the key-on fault. *)
Lemma WriteSlot_at_total (ptChip : MultiPCM) (data : Z) :
  chip_inv T ptChip -> 0 <= CurSlot ptChip < 28 -> is_byte data ->
  match WriteSlot_at T ptChip data with
  | Ok ptChip' =>
      chip_inv T ptChip' /\ exists slots, ptChip' = set_Slots slots ptChip
  | Err e =>
      Address ptChip = 4 /\ Z.land data 0x80 <> 0 /\
      exists i, i < 0 /\ e = OutOfBounds A_Steps i
  end.
Proof.
  intros Hinv Hcur Hbyte.
  pose proof Hinv as (HT & HTL & HS & HA & HD & HF & HSm & HSl & Hif & Hall).
  unfold WriteSlot_at.
  destruct (index_in_range A_Slots (Slots ptChip) (CurSlot ptChip))
    as [slot Hslot]; [lia |].
  rewrite Hslot, bind_Ok_eq.
  assert (Hsinv : slot_inv slot).
  { rewrite list.Forall_forall in Hall. apply Hall.
    by eapply index_elem_of. }
  pose proof (WriteSlot_total ptChip slot (Address ptChip) data Hinv Hsinv
                (proj1 Hif) Hbyte) as Hw.
  destruct (WriteSlot T ptChip slot (Address ptChip) data) as [slot' | e].
  - rewrite bind_Ok_eq, store_Ok by lia. rewrite bind_Ok_eq.
    split; [| eauto].
    split_and!; try done.
    + cbn [Slots set_Slots]. by rewrite length_insert.
    + cbn [Slots set_Slots]. by apply Forall_insert.
  - rewrite bind_Err_eq. destruct Hw as (Hreg & Hon & Hi). done.
Qed.

Lemma multipcm_w_total (ptChip : MultiPCM) (offset data : Z) :
  chip_inv T ptChip -> is_byte data ->
  match multipcm_w T ptChip offset data with
  | Ok ptChip' =>
      chip_inv T ptChip' /\
      ROM ptChip' = ROM ptChip /\ ROMMask ptChip' = ROMMask ptChip /\
      Samples ptChip' = Samples ptChip
  | Err e =>
      offset = 0 /\ Address ptChip = 4 /\ Z.land data 0x80 <> 0 /\
      exists i, i < 0 /\ e = OutOfBounds A_Steps i
  end.
Proof.
  intros Hinv Hbyte.
  pose proof Hinv as (HT & HTL & HS & HA & HD & HF & HSm & HSl & Hif & Hall).
  unfold multipcm_w.
  destruct offset as [| [p | [p | p |] |] | p]; try done.
  - (* port 0 *)
    destruct (Z.eqb_spec (CurSlot ptChip) (-1)) as [Hgap | Hsel]; [done |].
    assert (Hcur : 0 <= CurSlot ptChip < 28) by (destruct Hif as [_ [? | ?]]; done).
    pose proof (WriteSlot_at_total ptChip data Hinv Hcur Hbyte) as Hw.
    destruct (WriteSlot_at T ptChip data) as [c' | e]; [| done].
    destruct Hw as [Hinv' [slots ->]]. done.
  - (* port 2 *)
    split; [| done]. split_and!; try done.
    destruct Hif as [_ Hcur]. split; [| exact Hcur].
    cbn. unfold is_byte in Hbyte. destruct (Z.gtb_spec data 7); lia.
  - (* port 1 *)
    destruct (val2chan_spec _ (land_0x1f_range data)) as (Hidx & _ & Hch).
    rewrite Hidx, bind_Ok_eq.
    split; [| done]. split_and!; try done.
    destruct Hif as [Haddr _]. split; [exact Haddr | exact Hch].
Qed.

Lemma multipcm_w_quick_total (ptChip : MultiPCM) (offset data : Z) :
  chip_inv T ptChip -> is_byte data ->
  match multipcm_w_quick T ptChip offset data with
  | Ok ptChip' =>
      chip_inv T ptChip' /\
      ROM ptChip' = ROM ptChip /\ ROMMask ptChip' = ROMMask ptChip /\
      Samples ptChip' = Samples ptChip
  | Err e =>
      Z.land offset 7 = 4 /\ Z.land data 0x80 <> 0 /\
      exists i, i < 0 /\ e = OutOfBounds A_Steps i
  end.
Proof.
  intros Hinv Hbyte.
  pose proof Hinv as (HT & HTL & HS & HA & HD & HF & HSm & HSl & Hif & Hall).
  unfold multipcm_w_quick.
  destruct (val2chan_spec _ (land_0x1f_range (Z.shiftr offset 3)))
    as (Hidx & _ & Hch).
  rewrite Hidx, bind_Ok_eq. cbn zeta.
  set (c1 := set_Address _ (set_CurSlot _ ptChip)).
  assert (Hinv1 : chip_inv T c1).
  { split_and!; try done. pose proof (land_7_range offset).
    split; [subst c1; cbn; lia | exact Hch]. }
  destruct (Z.eqb_spec (CurSlot c1) (-1)) as [Hgap | Hsel]; [done |].
  assert (Hcur : 0 <= CurSlot c1 < 28) by (destruct Hch; done).
  pose proof (WriteSlot_at_total c1 data Hinv1 Hcur Hbyte) as Hw.
  destruct (WriteSlot_at T c1 data) as [c' | e]; [| done].
  destruct Hw as [Hinv' [slots ->]]. done.
Qed.

(** X11. Register writes keep the chip well formed.  On a chip whose
    tables have the sizes of the C arrays and whose voices are well formed,
    a write of a byte to any port, or a quick write, that returns leaves
    such a chip, and leaves the ROM, its mask and the descriptor table
    untouched. *)
Theorem multipcm_w_keeps_chip_inv (ptChip ptChip' : MultiPCM) (offset data : Z) :
  chip_inv T ptChip -> is_byte data ->
  multipcm_w T ptChip offset data = Ok ptChip' \/
  multipcm_w_quick T ptChip offset data = Ok ptChip' ->
  chip_inv T ptChip' /\
  ROM ptChip' = ROM ptChip /\ ROMMask ptChip' = ROMMask ptChip /\
  Samples ptChip' = Samples ptChip.
Proof.
  intros Hinv Hbyte [Hw | Hw].
  - pose proof (multipcm_w_total ptChip offset data Hinv Hbyte) as H.
    by rewrite Hw in H.
  - pose proof (multipcm_w_quick_total ptChip offset data Hinv Hbyte) as H.
    by rewrite Hw in H.
Qed.

(** X12. The one fault of a register write.  On such a chip a write of a
    byte fails only as a key-on: the data port with register 4 selected (for
    a quick write, [offset & 7 = 4]), bit 7 of the data set, and the error
    is a read of a step table at a negative index. *)
Theorem multipcm_w_fails_only_at_key_on (ptChip : MultiPCM) (offset data : Z)
    (e : error) :
  chip_inv T ptChip -> is_byte data ->
  (multipcm_w T ptChip offset data = Err e ->
   offset = 0 /\ Address ptChip = 4 /\ Z.land data 0x80 <> 0 /\
   exists i, i < 0 /\ e = OutOfBounds A_Steps i) /\
  (multipcm_w_quick T ptChip offset data = Err e ->
   Z.land offset 7 = 4 /\ Z.land data 0x80 <> 0 /\
   exists i, i < 0 /\ e = OutOfBounds A_Steps i).
Proof.
  intros Hinv Hbyte. split; intros Hw.
  - pose proof (multipcm_w_total ptChip offset data Hinv Hbyte) as H.
    by rewrite Hw in H.
  - pose proof (multipcm_w_quick_total ptChip offset data Hinv Hbyte) as H.
    by rewrite Hw in H.
Qed.

End InterfaceSafety.

(** ** The render loop keeps the chip well formed *)

Lemma advance_frame_static (smp : Sample.t) (adr csample step : Z) (slot : SLOT.t) :
  let slot' := advance smp adr csample step slot in
  SLOT.Sample slot' = SLOT.Sample slot /\
  SLOT.Pan slot' = SLOT.Pan slot /\
  SLOT.Playing slot' = SLOT.Playing slot /\
  SLOT.Muted slot' = SLOT.Muted slot.
Proof.
  unfold advance. cbn zeta.
  repeat match goal with
         | |- context [if ?b then _ else _] => destruct b
         end; done.
Qed.

Lemma EG_Update_frame_static (T : Tables) (slot slot' : SLOT.t) (g : Z) :
  EG_Update T slot = Ok (slot', g) ->
  SLOT.Sample slot' = SLOT.Sample slot /\
  SLOT.Pan slot' = SLOT.Pan slot.
Proof.
  unfold EG_Update.
  match goal with
  | |- context [index A_lin2expvol _ (Z.shiftr (EG.volume (SLOT.EG ?s)) _)] =>
      set (s1 := s)
  end.
  assert (Hs : SLOT.Sample s1 = SLOT.Sample slot /\
               SLOT.Pan s1 = SLOT.Pan slot).
  { subst s1. destruct (EG.state (SLOT.EG slot));
      repeat match goal with
             | |- context [if ?b then _ else _] => destruct b
             end; done. }
  clearbody s1.
  destruct (index A_lin2expvol _ _) as [g' |]; [| done].
  cbn [mbind result_bind]. by intros [= <- _].
Qed.

Section RenderSafety.
Context {FA : FloatArith}.
Variable T : Tables.

(** One rendered sample leaves the registers, the latched sample and the
    pan of a voice alone, and moves the LFOs by their phase at most. *)
Lemma voice_update_frame (ptChip : MultiPCM) (slot slot' : SLOT.t) (l r : Z) :
  voice_update T ptChip slot = Ok (slot', l, r) ->
  SLOT.Regs slot' = SLOT.Regs slot /\
  SLOT.Sample slot' = SLOT.Sample slot /\
  SLOT.Pan slot' = SLOT.Pan slot /\
  (SLOT.PLFO slot' = SLOT.PLFO slot \/
   exists p, SLOT.PLFO slot' = LFO.set_phase p (SLOT.PLFO slot)) /\
  (SLOT.ALFO slot' = SLOT.ALFO slot \/
   exists p, SLOT.ALFO slot' = LFO.set_phase p (SLOT.ALFO slot)).
Proof.
  intros (b & s1 & step1 & smp & s2 & sample2 & g & _ & Hv & _ & Ht & He & _)
         %voice_update_inv.
  destruct (EG_Update_frame T s2 slot' g He) as (ER & EP & EA & _).
  destruct (EG_Update_frame_static T s2 slot' g He) as (ES & EPan).
  rewrite ER, ES, EPan, EP, EA. clear He ER ES EPan EP EA.
  set (adv := advance smp (Z.shiftr (SLOT.offset slot) SHIFT) (csample_of b)
                step1 s1) in *.
  destruct (advance_frame smp (Z.shiftr (SLOT.offset slot) SHIFT)
              (csample_of b) step1 s1) as (AR & AP & AA & _).
  destruct (advance_frame_static smp (Z.shiftr (SLOT.offset slot) SHIFT)
              (csample_of b) step1 s1) as (AS & APan & _ & _).
  fold adv in AR, AP, AA, AS, APan.
  assert (H2 : SLOT.Regs s2 = SLOT.Regs s1 /\ SLOT.Sample s2 = SLOT.Sample s1 /\
               SLOT.Pan s2 = SLOT.Pan s1 /\ SLOT.PLFO s2 = SLOT.PLFO s1 /\
               (SLOT.ALFO s2 = SLOT.ALFO s1 \/
                exists p, SLOT.ALFO s2 = LFO.set_phase p (SLOT.ALFO s1))).
  { destruct (tremolo_inv _ _ _ _ Ht)
      as [(_ & -> & _) | (_ & L & a & HL & -> & _)].
    - rewrite AR, AS, APan, AP, AA. split_and!; try done. by left.
    - apply ALFO_Step_phase in HL. cbn. rewrite AR, AS, APan, AP.
      split_and!; try done. right. rewrite HL, AA. eauto. }
  destruct H2 as (-> & -> & -> & -> & HA2).
  destruct (vibrato_inv _ _ _ _ Hv)
    as [(_ & -> & _) | (_ & L & p & HL & -> & _)].
  - split_and!; try done. by left.
  - apply PLFO_Step_phase in HL. cbn in HA2 |- *.
    split_and!; try done. right. rewrite HL. eauto.
Qed.

Lemma chip_inv_render_ok (ptChip : MultiPCM) :
  chip_inv T ptChip -> ROM_covers ptChip -> render_ok T ptChip.
Proof.
  intros (HT & HTL & HS & HA & HD & HF & HSm & HSl & Hif & Hall) Hrom.
  split; [exact HT |]. split; [exact Hrom |]. split; [exact HSl |].
  rewrite list.Forall_forall in Hall |- *.
  intros slot (Hr1 & Hr2 & Hpan & Htl & Hlfo & Hplay)%Hall.
  destruct (Z.eq_dec (SLOT.Playing slot) 0) as [? | Hpl]; [by left |].
  right; right. destruct (Hplay Hpl) as ((k & Hk & Hkr) & Hrates & Hvol).
  unfold voice_ok.
  split; [| split; [| split; [| done]]].
  - exists k. split; [done |]. rewrite HSm. lia.
  - intros H6. apply Hlfo. left. intros H0. by rewrite H0 in H6.
  - intros H7. apply Hlfo. right. intros H0. by rewrite H0 in H7.
Qed.

Lemma voice_update_slot_inv (ptChip : MultiPCM) (slot slot' : SLOT.t) (l r : Z) :
  chip_inv T ptChip -> ROM_covers ptChip ->
  slot_inv slot -> SLOT.Playing slot <> 0 ->
  voice_update T ptChip slot = Ok (slot', l, r) ->
  slot_inv slot'.
Proof.
  intros Hinv Hrom Hs Hpl Hup.
  pose proof Hinv as (HT & HTL & HS & HA & HD & HF & HSm & HSl & Hif & Hall).
  pose proof Hs as (Hr1 & Hr2 & Hpan & Htl & Hlfo & Hplay).
  destruct (Hplay Hpl) as ((k & Hk & Hkr) & Hrates & Hvol).
  assert (Hvoice : voice_ok ptChip slot).
  { unfold voice_ok. split; [| split; [| split; [| done]]].
    - exists k. split; [done |]. rewrite HSm. lia.
    - intros H6. apply Hlfo. left. intros H0. by rewrite H0 in H6.
    - intros H7. apply Hlfo. right. intros H0. by rewrite H0 in H7. }
  destruct (voice_update_returns T ptChip slot HT Hrom Hvoice)
    as (s' & l' & r' & Hup' & Hvoice').
  rewrite Hup in Hup'. injection Hup' as <- <- <-.
  destruct (voice_update_frame ptChip slot slot' l r Hup)
    as (FR & FS & FPan & FP & FA').
  destruct Hvoice' as (_ & _ & _ & Hrates' & Hvol' & _ & Htl').
  unfold slot_inv. rewrite FR, FS, FPan.
  split; [exact Hr1 |]. split; [exact Hr2 |]. split; [exact Hpan |].
  split; [exact Htl' |]. split.
  - intros Hd. destruct (Hlfo Hd) as [HP0 HA0]. split.
    + destruct FP as [-> | [p ->]]; [done | by apply LFO_ok_set_phase].
    + destruct FA' as [-> | [p ->]]; [done | by apply LFO_ok_set_phase].
  - intros _. split; [eauto |]. split; done.
Qed.

Lemma update_slot_chip_inv (ptChip ptChip' : MultiPCM) (smpl smpr l r sl : Z) :
  chip_inv T ptChip -> ROM_covers ptChip ->
  update_slot T (ptChip, smpl, smpr) sl = Ok (ptChip', l, r) ->
  chip_inv T ptChip' /\ ROM_covers ptChip'.
Proof.
  intros Hinv Hrom. unfold update_slot.
  pose proof Hinv as (HT & HTL & HS & HA & HD & HF & HSm & HSl & Hif & Hall).
  intros (slot & Hslot & H)%bind_Ok.
  destruct (truthy (SLOT.Playing slot) && negb (truthy (SLOT.Muted slot)))
    eqn:Hon; [| by injection H as <- <- <-].
  apply andb_true_iff in Hon as [Hplay _]. unfold truthy in Hplay.
  assert (Hpl : SLOT.Playing slot <> 0).
  { intros H0. rewrite H0 in Hplay. discriminate. }
  apply bind_Ok in H as ([[slot' l'] r'] & Hup & H).
  apply bind_Ok in H as (slots & Hst & [= <- <- <-]).
  assert (Hsinv : slot_inv slot).
  { rewrite list.Forall_forall in Hall. apply Hall.
    by eapply index_elem_of. }
  pose proof (voice_update_slot_inv ptChip slot slot' l' r' Hinv Hrom Hsinv
                Hpl Hup) as Hs'.
  unfold store in Hst.
  destruct ((0 <=? sl) && _); [| done]. injection Hst as <-.
  split; [| exact Hrom].
  split_and!; try done.
  - cbn [Slots set_Slots]. by rewrite length_insert.
  - cbn [Slots set_Slots]. by apply Forall_insert.
Qed.

Lemma slots_loop_chip_inv (n : nat) :
  forall (sl : Z) (ptChip ptChip' : MultiPCM) (smpl smpr l r : Z),
    chip_inv T ptChip -> ROM_covers ptChip ->
    slots_loop T n sl (ptChip, smpl, smpr) = Ok (ptChip', l, r) ->
    chip_inv T ptChip' /\ ROM_covers ptChip'.
Proof.
  induction n as [| n IH]; intros sl c c' smpl smpr l r Hinv Hrom;
    cbn [slots_loop].
  - by intros [= <- <- <-].
  - intros ([[c1 l1] r1] & Hup & H)%bind_Ok.
    destruct (update_slot_chip_inv _ _ _ _ _ _ _ Hinv Hrom Hup) as [Hinv1 Hrom1].
    by eapply IH.
Qed.

Lemma render_chip_inv (n : nat) :
  forall (ptChip ptChip' : MultiPCM) (ls rs : list Z),
    chip_inv T ptChip -> ROM_covers ptChip ->
    render T n ptChip = Ok (ptChip', ls, rs) ->
    chip_inv T ptChip' /\ ROM_covers ptChip'.
Proof.
  induction n as [| n IH]; intros c c' ls rs Hinv Hrom; cbn [render].
  - by intros [= <- <- <-].
  - intros ([[c1 l1] r1] & Hloop & H)%bind_Ok.
    apply bind_Ok in H as ([[c2 ls'] rs'] & Hr & [= <- <- <-]).
    destruct (slots_loop_chip_inv _ _ _ _ _ _ _ _ Hinv Hrom Hloop)
      as [Hinv1 Hrom1].
    by eapply IH.
Qed.

(** X13. A render call is safe on a well-formed chip.  When the chip is
    well formed, the address mask is inside the ROM and the two buffers hold
    at least [samples] entries, [MultiPCM_update] returns: no table, ROM or
    buffer access is out of range and no LFO pointer is null; the chip it
    leaves is again well formed with the mask inside the ROM. *)
Theorem MultiPCM_update_safe (ptChip : MultiPCM) (samples : Z)
    (out0 out1 : list Z) :
  chip_inv T ptChip -> ROM_covers ptChip ->
  samples <= Z.of_nat (length out0) -> samples <= Z.of_nat (length out1) ->
  exists ptChip' out0' out1',
    MultiPCM_update T ptChip samples (out0, out1) = Ok (ptChip', (out0', out1')) /\
    length out0' = length out0 /\ length out1' = length out1 /\
    chip_inv T ptChip' /\ ROM_covers ptChip'.
Proof.
  intros Hinv Hrom H0 H1.
  destruct (render_returns T (Z.to_nat samples) ptChip
              (chip_inv_render_ok ptChip Hinv Hrom))
    as (c' & ls & rs & Hr & _).
  destruct (render_length T _ _ _ _ _ Hr) as [Hls Hrs].
  destruct (render_chip_inv _ _ _ _ _ Hinv Hrom Hr) as [Hinv' Hrom'].
  unfold MultiPCM_update. change 0 with (Z.of_nat 0).
  rewrite samples_loop_render by lia. rewrite Hr, bind_Ok_eq.
  eexists _, _, _. split; [reflexivity |].
  rewrite !length_app, !length_take, !length_drop, Hls, Hrs.
  split_and!; try done; lia.
Qed.

End RenderSafety.

(** ** Start-up and the other entry points *)

Lemma slot_inv_zero : slot_inv SLOT.zero.
Proof.
  unfold slot_inv, TL_ramp_ok, is_byte.
  split; [by vm_compute |]. split; [by vm_compute |].
  split; [by vm_compute |].
  split; [split; [by vm_compute |]; split; [by vm_compute |];
          split; [by vm_compute | by left] |].
  split; [intros [? | ?]; done | done].
Qed.

Lemma memcpy_length (dst : list Z) (offset : Z) (src : list Z) (n : Z)
    (rom : list Z) :
  0 <= offset -> 0 <= n ->
  memcpy dst offset src n = Ok rom -> length rom = length dst.
Proof.
  intros Ho Hn. unfold memcpy.
  destruct (n =? 0); [by intros [= <-] |].
  destruct (Z.ltb_spec (Z.of_nat (length dst)) (offset + n)); [done |].
  destruct (Z.ltb_spec (Z.of_nat (length src)) n); [done |].
  intros [= <-]. rewrite !length_app, !length_take, length_drop. lia.
Qed.

Section EntryPoints.
Context {FA : FloatArith}.
Variable T : Tables.

(** X14. Start-up gives a well-formed chip, and the entry points that do
    not touch the ROM keep it well formed: reset, the mute mask and the two
    ways of setting the banks. *)
Theorem start_and_controls_keep_chip_inv :
  (forall (rate : float) (ar dr fns : list Z),
     Tables_sized T -> TLSteps_ok T -> SCALES_ok T ->
     Steps_ok ar -> Steps_ok dr -> length fns = 0x400%nat ->
     chip_inv T (device_start_state rate ar dr fns)) /\
  (forall ptChip : MultiPCM,
     chip_inv T ptChip ->
     chip_inv T (device_reset_multipcm ptChip) /\
     (forall MuteMask, chip_inv T (multipcm_set_mute_mask ptChip MuteMask)) /\
     (forall offset data, chip_inv T (multipcm_bank_write ptChip offset data)) /\
     (forall leftoffs rightoffs,
        chip_inv T (multipcm_set_bank ptChip leftoffs rightoffs))).
Proof.
  split.
  - intros rate ar dr fns HT HTL HS HA HD HF.
    unfold chip_inv.
    split; [exact HT |]. split; [exact HTL |]. split; [exact HS |].
    split; [exact HA |]. split; [exact HD |]. split; [exact HF |].
    split; [reflexivity |]. split; [reflexivity |].
    split; [unfold iface_ok; cbn; lia |].
    apply Forall_replicate. exact slot_inv_zero.
  - intros c (HT & HTL & HS & HA & HD & HF & HSm & HSl & Hif & Hall).
    assert (Himap : forall f : nat -> SLOT.t -> SLOT.t,
              (forall i s, slot_inv s -> slot_inv (f i s)) ->
              chip_inv T (set_Slots (imap f (Slots c)) c)).
    { intros f Hf. unfold chip_inv.
      split; [exact HT |]. split; [exact HTL |]. split; [exact HS |].
      split; [exact HA |]. split; [exact HD |]. split; [exact HF |].
      split; [exact HSm |].
      split; [cbn [Slots set_Slots]; by rewrite length_imap |].
      split; [exact Hif |].
      cbn [Slots set_Slots]. apply Forall_lookup. intros i x Hx.
      rewrite list_lookup_imap in Hx.
      destruct (Slots c !! i) as [s |] eqn:Hs; [| done].
      injection Hx as <-. apply Hf.
      rewrite Forall_lookup in Hall. by eapply Hall. }
    split; [| split; [| split]].
    + apply Himap. intros i s Hs. destruct s. unfold slot_inv in *.
      cbn in *. destruct Hs as (? & ? & ? & ? & ? & _). done.
    + intros m. apply Himap. intros i s Hs. by destruct s.
    + intros offset data. unfold multipcm_bank_write.
      destruct (truthy (Z.land offset 1)), (truthy (Z.land offset 2)); done.
    + done.
Qed.

(** X15. The ROM entry points keep the chip well formed.  [alloc_rom] and
    [write_rom], when they return, leave the tables, the voices and the 512
    entries of the descriptor table in place; [write_rom] also leaves the
    ROM at its length and the mask as it was, so a mask inside the ROM
    stays inside. *)
Theorem rom_calls_keep_chip_inv (ptChip ptChip' : MultiPCM) :
  chip_inv T ptChip ->
  (forall fuel memsize,
     multipcm_alloc_rom fuel ptChip memsize = Ok ptChip' ->
     chip_inv T ptChip') /\
  (forall offset length data,
     0 <= offset -> 0 <= length ->
     multipcm_write_rom ptChip offset length data = Ok ptChip' ->
     chip_inv T ptChip' /\ (ROM_covers ptChip -> ROM_covers ptChip')).
Proof.
  intros (HT & HTL & HS & HA & HD & HF & HSm & HSl & Hif & Hall).
  split.
  - intros fuel memsize. unfold multipcm_alloc_rom.
    destruct (ROMSize ptChip =? memsize); [by intros [= <-] |].
    intros (mask & _ & [= <-])%bind_Ok. done.
  - intros offset len data Ho Hl. unfold multipcm_write_rom.
    destruct (Z.gtb_spec offset (ROMSize ptChip)) as [Hgt | Hle];
      [by intros [= <-] |].
    intros (rom & Hcopy & H)%bind_Ok. cbn zeta in H.
    apply memcpy_length in Hcopy; [| lia |].
    2: { destruct (_ >? _); [| lia]. unfold u32. apply Z.mod_pos_bound. lia. }
    assert (Hcov : ROM_covers ptChip -> ROM_covers (set_ROM rom ptChip)).
    { unfold ROM_covers. cbn [ROM ROMMask set_ROM]. by rewrite Hcopy. }
    destruct (offset <? 0x200 * 12).
    + apply bind_Ok in H as (samples & Hre & Heq). injection Heq as <-.
      apply rebuild_loop_inv in Hre as [Hlen _]; [| lia].
      cbn [Samples set_ROM] in Hlen.
      split; [| exact Hcov].
      unfold chip_inv. cbn [Samples set_Samples].
      split; [exact HT |]. split; [exact HTL |]. split; [exact HS |].
      split; [exact HA |]. split; [exact HD |]. split; [exact HF |].
      split; [by rewrite Hlen |]. done.
    + injection H as <-. split; [done | exact Hcov].
Qed.

End EntryPoints.

(** ** Reset and mute *)

Lemma land_1_testbit (m : Z) (i : nat) :
  Z.land (Z.shiftr m (Z.of_nat i)) 1 = Z.b2z (Z.testbit m (Z.of_nat i)).
Proof.
  change 1 with (Z.ones 1). rewrite Z.land_ones by lia.
  change (2 ^ 1) with 2. rewrite <- Z.bit0_mod.
  rewrite Z.shiftr_spec by lia. reflexivity.
Qed.

Section Silence.
Context {FA : FloatArith}.
Variable T : Tables.

Lemma update_silent (ptChip : MultiPCM) (samples : Z) (out0 out1 : list Z) :
  length (Slots ptChip) = 28%nat -> all_silent ptChip ->
  samples <= Z.of_nat (length out0) -> samples <= Z.of_nat (length out1) ->
  MultiPCM_update T ptChip samples (out0, out1)
  = Ok (ptChip,
        (replicate (Z.to_nat samples) 0 ++ drop (Z.to_nat samples) out0,
         replicate (Z.to_nat samples) 0 ++ drop (Z.to_nat samples) out1)).
Proof.
  intros Hlen Hs H0 H1. unfold MultiPCM_update. change 0 with (Z.of_nat 0).
  rewrite samples_loop_render by lia.
  rewrite render_silent by done. reflexivity.
Qed.

(** X16. Reset silences the chip and keeps its registers.  After
    [device_reset] every voice has [Playing = 0], so a render call returns
    zeros and leaves the chip as it is; the reset keeps the registers of
    every voice, the register-select state, the banks, the ROM and the
    descriptor table. *)
Theorem device_reset_silences (ptChip : MultiPCM) (samples : Z)
    (out0 out1 : list Z) :
  length (Slots ptChip) = 28%nat ->
  samples <= Z.of_nat (length out0) -> samples <= Z.of_nat (length out1) ->
  let ptChip' := device_reset_multipcm ptChip in
  Forall (fun s => SLOT.Playing s = 0) (Slots ptChip') /\
  MultiPCM_update T ptChip' samples (out0, out1)
  = Ok (ptChip',
        (replicate (Z.to_nat samples) 0 ++ drop (Z.to_nat samples) out0,
         replicate (Z.to_nat samples) 0 ++ drop (Z.to_nat samples) out1)) /\
  map SLOT.Regs (Slots ptChip') = map SLOT.Regs (Slots ptChip) /\
  CurSlot ptChip' = CurSlot ptChip /\ Address ptChip' = Address ptChip /\
  BankL ptChip' = BankL ptChip /\ BankR ptChip' = BankR ptChip /\
  ROM ptChip' = ROM ptChip /\ Samples ptChip' = Samples ptChip.
Proof.
  intros Hlen H0 H1 c'.
  assert (Hplay : Forall (fun s => SLOT.Playing s = 0) (Slots c')).
  { subst c'. unfold device_reset_multipcm. cbn [Slots set_Slots].
    apply Forall_lookup. intros i x Hx. rewrite list_lookup_imap in Hx.
    destruct (Slots ptChip !! i) as [s |]; [| done].
    by injection Hx as <-. }
  split; [exact Hplay |]. split.
  - apply update_silent; [| | done | done].
    + subst c'. unfold device_reset_multipcm. cbn [Slots set_Slots].
      by rewrite length_imap.
    + unfold all_silent. rewrite list.Forall_forall in Hplay |- *.
      intros s Hs%Hplay. by left.
  - split; [| done].
    subst c'. unfold device_reset_multipcm. cbn [Slots set_Slots].
    apply list_eq. intros i. rewrite !list_lookup_fmap, list_lookup_imap.
    by destruct (Slots ptChip !! i).
Qed.

(** X17. Muting pauses a voice.  [set_mute_mask] gives voice [i] the bit
    [i] of the mask as its [Muted] flag and changes nothing else: every other
    field of every voice, the number of voices and every other field of the
    chip are kept.  When the mask covers every playing voice, a render call
    returns zeros and leaves the chip as it is: a muted voice does not
    advance its offset, its envelope or its LFOs. *)
Theorem set_mute_mask_pauses (ptChip : MultiPCM) (MuteMask samples : Z)
    (out0 out1 : list Z) :
  length (Slots ptChip) = 28%nat ->
  samples <= Z.of_nat (length out0) -> samples <= Z.of_nat (length out1) ->
  let ptChip' := multipcm_set_mute_mask ptChip MuteMask in
  (forall (i : nat) (s : SLOT.t),
     Slots ptChip !! i = Some s ->
     exists s',
       Slots ptChip' !! i = Some s' /\
       SLOT.Muted s' = Z.b2z (Z.testbit MuteMask (Z.of_nat i)) /\
       SLOT.Num s' = SLOT.Num s /\ SLOT.Regs s' = SLOT.Regs s /\
       SLOT.Playing s' = SLOT.Playing s /\ SLOT.Sample s' = SLOT.Sample s /\
       SLOT.Base s' = SLOT.Base s /\ SLOT.offset s' = SLOT.offset s /\
       SLOT.step s' = SLOT.step s /\ SLOT.Pan s' = SLOT.Pan s /\
       SLOT.TL s' = SLOT.TL s /\ SLOT.DstTL s' = SLOT.DstTL s /\
       SLOT.TLStep s' = SLOT.TLStep s /\ SLOT.Prev s' = SLOT.Prev s /\
       SLOT.EG s' = SLOT.EG s /\ SLOT.PLFO s' = SLOT.PLFO s /\
       SLOT.ALFO s' = SLOT.ALFO s) /\
  (length (Slots ptChip') = length (Slots ptChip) /\
   Samples ptChip' = Samples ptChip /\ CurSlot ptChip' = CurSlot ptChip /\
   Address ptChip' = Address ptChip /\ BankR ptChip' = BankR ptChip /\
   BankL ptChip' = BankL ptChip /\ Rate ptChip' = Rate ptChip /\
   ROMMask ptChip' = ROMMask ptChip /\ ROMSize ptChip' = ROMSize ptChip /\
   ROM ptChip' = ROM ptChip /\ ARStep ptChip' = ARStep ptChip /\
   DRStep ptChip' = DRStep ptChip /\ FNS_Table ptChip' = FNS_Table ptChip) /\
  ((forall (i : nat) (s : SLOT.t),
      Slots ptChip !! i = Some s -> SLOT.Playing s <> 0 ->
      Z.testbit MuteMask (Z.of_nat i) = true) ->
   MultiPCM_update T ptChip' samples (out0, out1)
   = Ok (ptChip',
         (replicate (Z.to_nat samples) 0 ++ drop (Z.to_nat samples) out0,
          replicate (Z.to_nat samples) 0 ++ drop (Z.to_nat samples) out1))).
Proof.
  intros Hlen H0 H1 c'.
  assert (Hslots : forall (i : nat) (s : SLOT.t),
     Slots ptChip !! i = Some s ->
     exists s',
       Slots c' !! i = Some s' /\
       SLOT.Muted s' = Z.b2z (Z.testbit MuteMask (Z.of_nat i)) /\
       SLOT.Num s' = SLOT.Num s /\ SLOT.Regs s' = SLOT.Regs s /\
       SLOT.Playing s' = SLOT.Playing s /\ SLOT.Sample s' = SLOT.Sample s /\
       SLOT.Base s' = SLOT.Base s /\ SLOT.offset s' = SLOT.offset s /\
       SLOT.step s' = SLOT.step s /\ SLOT.Pan s' = SLOT.Pan s /\
       SLOT.TL s' = SLOT.TL s /\ SLOT.DstTL s' = SLOT.DstTL s /\
       SLOT.TLStep s' = SLOT.TLStep s /\ SLOT.Prev s' = SLOT.Prev s /\
       SLOT.EG s' = SLOT.EG s /\ SLOT.PLFO s' = SLOT.PLFO s /\
       SLOT.ALFO s' = SLOT.ALFO s).
  { intros i s Hs. subst c'. unfold multipcm_set_mute_mask.
    cbn [Slots set_Slots]. rewrite list_lookup_imap, Hs. cbn [fmap option_fmap option_map].
    eexists. split; [reflexivity |]. cbn. split; [apply land_1_testbit | done]. }
  assert (Hlen' : length (Slots c') = length (Slots ptChip)).
  { subst c'. unfold multipcm_set_mute_mask. cbn [Slots set_Slots].
    by rewrite length_imap. }
  split; [exact Hslots |].
  split.
  { split; [exact Hlen' |]. subst c'. by destruct ptChip. }
  intros Hcover. apply update_silent; [| | done | done].
  - by rewrite Hlen'.
  - unfold all_silent. apply Forall_lookup. intros i s' Hs'.
    destruct (Slots ptChip !! i) as [s |] eqn:Hs.
    + destruct (Hslots i s Hs) as (s2 & Hs2 & Hm & _ & _ & Hp & _).
      rewrite Hs' in Hs2. injection Hs2 as <-.
      destruct (Z.eq_dec (SLOT.Playing s') 0) as [? | Hpl]; [by left |].
      right. rewrite Hm, (Hcover i s Hs) by congruence. done.
    + exfalso. apply lookup_ge_None in Hs. apply lookup_lt_Some in Hs'. lia.
Qed.

End Silence.

(** ** The envelope, state by state *)

(** X18. The envelope only moves forward.  One [EG_Update] step never goes
    back to an earlier state (ATTACK, DECAY1, DECAY2, RELEASE in this
    order), so RELEASE is kept; it leaves the four rates and the decay
    level alone; it never starts a voice, and stops one only in RELEASE,
    with the volume at 0; the gain it returns is the [lin2expvol] entry of
    the new volume. *)
Theorem EG_Update_state_order (T : Tables) (slot slot' : SLOT.t) (g : Z) :
  EG_Update T slot = Ok (slot', g) ->
  state_rank (EG.state (SLOT.EG slot)) <= state_rank (EG.state (SLOT.EG slot')) /\
  (EG.state (SLOT.EG slot) = RELEASE -> EG.state (SLOT.EG slot') = RELEASE) /\
  same_rates (SLOT.EG slot') (SLOT.EG slot) /\
  EG.DL (SLOT.EG slot') = EG.DL (SLOT.EG slot) /\
  (SLOT.Playing slot' = SLOT.Playing slot \/
   (EG.state (SLOT.EG slot) = RELEASE /\ SLOT.Playing slot' = 0 /\
    EG.volume (SLOT.EG slot') = 0)) /\
  index A_lin2expvol (lin2expvol T)
        (Z.shiftr (EG.volume (SLOT.EG slot')) EG_SHIFT) = Ok g.
Proof.
  unfold EG_Update.
  match goal with
  | |- context [index A_lin2expvol _ (Z.shiftr (EG.volume (SLOT.EG ?s)) _)] =>
      set (s1 := s)
  end.
  assert (Hs :
    state_rank (EG.state (SLOT.EG slot)) <= state_rank (EG.state (SLOT.EG s1)) /\
    (EG.state (SLOT.EG slot) = RELEASE -> EG.state (SLOT.EG s1) = RELEASE) /\
    same_rates (SLOT.EG s1) (SLOT.EG slot) /\
    EG.DL (SLOT.EG s1) = EG.DL (SLOT.EG slot) /\
    (SLOT.Playing s1 = SLOT.Playing slot \/
     (EG.state (SLOT.EG slot) = RELEASE /\ SLOT.Playing s1 = 0 /\
      EG.volume (SLOT.EG s1) = 0))).
  { subst s1. unfold same_rates.
    destruct slot as [? ? ? ? ? ? ? ? ? ? ? ? [vol st ? ar d1r d2r rr dl] ? ? ?].
    cbn [SLOT.EG EG.state EG.volume EG.AR EG.D1R EG.D2R EG.RR EG.DL].
    destruct st;
      repeat match goal with
             | |- context [if ?b then _ else _] => destruct b
             end; cbn; split_and!; try done; try lia; auto. }
  clearbody s1.
  destruct (index A_lin2expvol _ _) as [g' |] eqn:Hg; [| done].
  cbn [mbind result_bind]. intros [= <- <-].
  destruct Hs as (? & ? & ? & ? & ?). done.
Qed.

(** ** A released voice ends *)

(** One RELEASE step: the volume falls by [RR]; the voice stops when that
    reaches 0. *)
Lemma EG_Update_release (T : Tables) (slot slot' : SLOT.t) (g : Z) :
  EG_Update T slot = Ok (slot', g) ->
  EG.state (SLOT.EG slot) = RELEASE ->
  EG_rates_ok (SLOT.EG slot) -> EG_volume_ok (SLOT.EG slot) ->
  SLOT.Muted slot' = SLOT.Muted slot /\
  (EG.volume (SLOT.EG slot) <= EG.RR (SLOT.EG slot) -> SLOT.Playing slot' = 0) /\
  (EG.RR (SLOT.EG slot) < EG.volume (SLOT.EG slot) ->
   SLOT.Playing slot' = SLOT.Playing slot /\
   EG.state (SLOT.EG slot') = RELEASE /\
   EG.RR (SLOT.EG slot') = EG.RR (SLOT.EG slot) /\
   EG.volume (SLOT.EG slot') = EG.volume (SLOT.EG slot) - EG.RR (SLOT.EG slot)).
Proof.
  intros Hup Hst (_ & _ & _ & HRR) Hvol. revert Hup. unfold EG_Update.
  match goal with
  | |- context [index A_lin2expvol _ (Z.shiftr (EG.volume (SLOT.EG ?s)) _)] =>
      set (s1 := s)
  end.
  assert (Hs :
    SLOT.Muted s1 = SLOT.Muted slot /\
    (EG.volume (SLOT.EG slot) <= EG.RR (SLOT.EG slot) -> SLOT.Playing s1 = 0) /\
    (EG.RR (SLOT.EG slot) < EG.volume (SLOT.EG slot) ->
     SLOT.Playing s1 = SLOT.Playing slot /\
     EG.state (SLOT.EG s1) = RELEASE /\
     EG.RR (SLOT.EG s1) = EG.RR (SLOT.EG slot) /\
     EG.volume (SLOT.EG s1) = EG.volume (SLOT.EG slot) - EG.RR (SLOT.EG slot))).
  { subst s1. unfold EG_volume_ok in Hvol.
    change EG_VOLUME_MAX with 67043328 in Hvol.
    change INT_MAX with 2147483647 in HRR.
    destruct slot as [? ? ? ? ? ? ? ? ? ? ? ? [vol st ? ar d1r d2r rr dl] ? ? ?].
    cbn [SLOT.EG EG.state EG.volume EG.RR] in *. subst st.
    cbn [EG.volume EG.set_volume].
    rewrite (s32_small (vol - rr)) by lia.
    destruct (Z.leb_spec (vol - rr) 0); cbn; split_and!; try done; lia. }
  clearbody s1.
  destruct (index A_lin2expvol _ _) as [g' |]; [| done].
  cbn [mbind result_bind]. by intros [= <- _].
Qed.

Section Release.
Context {FA : FloatArith}.
Variable T : Tables.

(** The envelope step at the end of a rendered sample sees the envelope
    the voice had before it. *)
Lemma voice_update_EG (ptChip : MultiPCM) (slot slot' : SLOT.t) (l r : Z) :
  voice_update T ptChip slot = Ok (slot', l, r) ->
  exists s2 g,
    EG_Update T s2 = Ok (slot', g) /\
    SLOT.EG s2 = SLOT.EG slot /\
    SLOT.Playing s2 = SLOT.Playing slot /\
    SLOT.Muted s2 = SLOT.Muted slot.
Proof.
  intros (b & s1 & step1 & smp & s2 & sample2 & g & _ & Hv & _ & Ht & He & _)
         %voice_update_inv.
  exists s2, g. split; [exact He |].
  destruct (advance_frame smp (Z.shiftr (SLOT.offset slot) SHIFT)
              (csample_of b) step1 s1) as (_ & _ & _ & AE).
  destruct (advance_frame_static smp (Z.shiftr (SLOT.offset slot) SHIFT)
              (csample_of b) step1 s1) as (_ & _ & APl & AM).
  assert (H1 : SLOT.EG s1 = SLOT.EG slot /\
               SLOT.Playing s1 = SLOT.Playing slot /\
               SLOT.Muted s1 = SLOT.Muted slot).
  { destruct (vibrato_inv _ _ _ _ Hv)
      as [(_ & -> & _) | (_ & L & p & _ & -> & _)]; done. }
  destruct H1 as (E1 & P1 & M1).
  destruct (tremolo_inv _ _ _ _ Ht)
    as [(_ & -> & _) | (_ & L & a & _ & -> & _)]; cbn;
    rewrite ?AE, ?APl, ?AM; done.
Qed.

Lemma slots_loop_app (n m : nat) :
  forall (sl : Z) (acc : MultiPCM * Z * Z),
    slots_loop T (n + m) sl acc
    = acc' ← slots_loop T n sl acc; slots_loop T m (sl + Z.of_nat n) acc'.
Proof.
  induction n as [| n IH]; intros sl acc; cbn [slots_loop Nat.add].
  - rewrite bind_Ok_eq. f_equal. lia.
  - destruct (update_slot T acc sl) as [acc1 |]; [| reflexivity].
    rewrite !bind_Ok_eq, IH.
    destruct (slots_loop T n (sl + 1) acc1) as [acc2 |]; [| reflexivity].
    rewrite !bind_Ok_eq. f_equal. lia.
Qed.

(** The voices outside the range of the loop are not touched. *)
Lemma slots_loop_untouched (n : nat) :
  forall (k i : nat) (c c' : MultiPCM) (l r l' r' : Z),
    slots_loop T n (Z.of_nat k) (c, l, r) = Ok (c', l', r') ->
    (i < k \/ k + n <= i)%nat ->
    Slots c' !! i = Slots c !! i.
Proof.
  induction n as [| n IH]; intros k i c c' l r l' r'; cbn [slots_loop].
  - by intros [= <- <- <-].
  - intros ([[c1 l1] r1] & Hup & Hloop)%bind_Ok Hi.
    replace (Z.of_nat k + 1) with (Z.of_nat (S k)) in Hloop by lia.
    rewrite (IH (S k) i _ _ _ _ _ _ Hloop) by lia.
    revert Hup. unfold update_slot.
    intros (slot & _ & H)%bind_Ok.
    destruct (truthy _ && _); [| by injection H as <- <- <-].
    apply bind_Ok in H as ([[s' l0] r0] & _ & H).
    apply bind_Ok in H as (slots & Hst & [= <- <- <-]).
    unfold store in Hst. destruct (_ && _); [| done]. injection Hst as <-.
    cbn [Slots set_Slots]. apply list_lookup_insert_ne. lia.
Qed.

(** What one pass of the voice loop does to voice [i]. *)
Lemma slots_loop_at (i : nat) (c c' : MultiPCM) (l' r' : Z) (s : SLOT.t) :
  (i < 28)%nat ->
  slots_loop T 28 0 (c, 0, 0) = Ok (c', l', r') ->
  Slots c !! i = Some s ->
  ((SLOT.Playing s = 0 \/ SLOT.Muted s <> 0) /\ Slots c' !! i = Some s) \/
  (SLOT.Playing s <> 0 /\ SLOT.Muted s = 0 /\
   exists s2 g s',
     EG_Update T s2 = Ok (s', g) /\
     SLOT.EG s2 = SLOT.EG s /\ SLOT.Playing s2 = SLOT.Playing s /\
     SLOT.Muted s2 = SLOT.Muted s /\
     Slots c' !! i = Some s').
Proof.
  intros Hi Hloop Hs.
  replace 28%nat with (i + (1 + (27 - i)))%nat in Hloop by lia.
  rewrite slots_loop_app in Hloop.
  apply bind_Ok in Hloop as ([[c1 l1] r1] & Hpre & Hloop).
  rewrite slots_loop_app in Hloop.
  apply bind_Ok in Hloop as ([[c2 l2] r2] & Hmid & Hpost).
  change 0 with (Z.of_nat 0) in Hpre.
  pose proof (slots_loop_untouched _ _ i _ _ _ _ _ _ Hpre ltac:(lia)) as E1.
  replace (0 + Z.of_nat i + Z.of_nat 1) with (Z.of_nat (S i)) in Hpost by lia.
  pose proof (slots_loop_untouched _ _ i _ _ _ _ _ _ Hpost ltac:(lia)) as E2.
  rewrite E2. rewrite Hs in E1.
  cbn [slots_loop] in Hmid. rewrite Z.add_0_l in Hmid.
  apply bind_Ok in Hmid as (acc & Hup & [= ->]).
  revert Hup. unfold update_slot.
  intros (slot & Hslot & H)%bind_Ok.
  apply index_Ok in Hslot as [_ Hslot]. rewrite Nat2Z.id, E1 in Hslot.
  injection Hslot as <-.
  destruct (truthy (SLOT.Playing s) && negb (truthy (SLOT.Muted s))) eqn:Hon.
  - right. apply andb_true_iff in Hon as [Hp Hm]. unfold truthy in Hp, Hm.
    destruct (Z.eqb_spec (SLOT.Playing s) 0) as [? | Hpl]; [done |].
    destruct (Z.eqb_spec (SLOT.Muted s) 0) as [Hmu | ?]; [| done].
    split; [exact Hpl |]. split; [exact Hmu |].
    apply bind_Ok in H as ([[s' l0] r0] & Hvu & H).
    apply bind_Ok in H as (slots & Hst & [= <- <- <-]).
    destruct (voice_update_EG _ _ _ _ _ Hvu) as (s2 & g & He & EE & EP & EM).
    exists s2, g, s'. split_and!; try done.
    unfold store in Hst. destruct (_ && _); [| done]. injection Hst as <-.
    cbn [Slots set_Slots]. rewrite Nat2Z.id.
    apply list_lookup_insert_eq. by eapply lookup_lt_Some.
  - left. injection H as <- <- <-. split; [| exact E1].
    apply andb_false_iff in Hon as [Hp | Hm]; unfold truthy in *.
    + left. destruct (Z.eqb_spec (SLOT.Playing s) 0); done.
    + right. destruct (Z.eqb_spec (SLOT.Muted s) 0); done.
Qed.

(** X19. A released voice ends.  On a well-formed chip with the mask inside
    the ROM, a playing, unmuted voice in RELEASE with release rate [RR] has
    stopped after [n] rendered samples as soon as [n >= 1] and [n * RR]
    reaches its volume. *)
Theorem release_ends_voice (n : nat) :
  forall (ptChip : MultiPCM) (i : nat) (slot : SLOT.t),
    chip_inv T ptChip -> ROM_covers ptChip ->
    Slots ptChip !! i = Some slot ->
    SLOT.Playing slot <> 0 -> SLOT.Muted slot = 0 ->
    EG.state (SLOT.EG slot) = RELEASE ->
    (0 < n)%nat ->
    EG.volume (SLOT.EG slot) <= Z.of_nat n * EG.RR (SLOT.EG slot) ->
    exists ptChip' ls rs slot',
      render T n ptChip = Ok (ptChip', ls, rs) /\
      Slots ptChip' !! i = Some slot' /\
      SLOT.Playing slot' = 0.
Proof.
  intros c i slot Hinv Hrom Hs Hpl Hmu Hst Hn Hvol.
  assert (Hi : (i < 28)%nat).
  { apply lookup_lt_Some in Hs.
    destruct Hinv as (_ & _ & _ & _ & _ & _ & _ & HSl & _). lia. }
  assert (Hgen : forall (rr : Z) (m : nat) (c0 : MultiPCM) (s0 : SLOT.t),
    chip_inv T c0 -> ROM_covers c0 -> Slots c0 !! i = Some s0 ->
    SLOT.Playing s0 = 0 \/
    (SLOT.Muted s0 = 0 /\ EG.state (SLOT.EG s0) = RELEASE /\
     EG.RR (SLOT.EG s0) = rr /\ (0 < m)%nat /\
     EG.volume (SLOT.EG s0) <= Z.of_nat m * rr) ->
    exists c' ls rs s',
      render T m c0 = Ok (c', ls, rs) /\
      Slots c' !! i = Some s' /\ SLOT.Playing s' = 0).
  { clear c slot Hinv Hrom Hs Hpl Hmu Hst Hn Hvol. intros rr.
    induction m as [| m IH]; intros c0 s0 Hinv Hrom Hs Hcase.
    - destruct Hcase as [Hp0 | (_ & _ & _ & ? & _)]; [| lia].
      exists c0, [], [], s0. done.
    - cbn [render].
      destruct (slots_loop_returns T 28 0 c0 0 0
                  (chip_inv_render_ok T c0 Hinv Hrom) ltac:(lia))
        as (c1 & l1 & r1 & Hloop & _).
      change (Z.of_nat 0) with 0 in Hloop. rewrite Hloop, bind_Ok_eq.
      destruct (slots_loop_chip_inv T _ _ _ _ _ _ _ _ Hinv Hrom Hloop)
        as [Hinv1 Hrom1].
      assert (Hnext : exists s1, Slots c1 !! i = Some s1 /\
                (SLOT.Playing s1 = 0 \/
                 (SLOT.Muted s1 = 0 /\ EG.state (SLOT.EG s1) = RELEASE /\
                  EG.RR (SLOT.EG s1) = rr /\ (0 < m)%nat /\
                  EG.volume (SLOT.EG s1) <= Z.of_nat m * rr))).
      { destruct (slots_loop_at i c0 c1 l1 r1 s0 Hi Hloop Hs)
          as [[Hidle Hs1] | (Hp & Hm & s2 & g & s' & He & EE & EP & EM & Hs1)].
        - exists s0. split; [exact Hs1 |].
          destruct Hcase as [? | (Hm0 & _)]; [by left |].
          destruct Hidle as [? | ?]; [by left | done].
        - exists s'. split; [exact Hs1 |].
          destruct Hcase as [? | (Hm0 & Hst0 & Hrr0 & Hm1 & Hv0)]; [done |].
          assert (Hsinv : slot_inv s0).
          { destruct Hinv as (_ & _ & _ & _ & _ & _ & _ & _ & _ & Hall).
            rewrite Forall_lookup in Hall. by eapply Hall. }
          destruct Hsinv as (_ & _ & _ & _ & _ & Hplay).
          destruct (Hplay Hp) as (_ & Hrates & Hvok).
          rewrite <- EE in Hst0, Hrr0, Hv0, Hrates, Hvok.
          destruct (EG_Update_release T s2 s' g He Hst0 Hrates Hvok)
            as (HM & Hstop & Hgo).
          rewrite Hrr0 in Hstop, Hgo.
          destruct (Z.le_gt_cases (EG.volume (SLOT.EG s2)) rr) as [Hle | Hgt].
          + left. by apply Hstop.
          + right. destruct (Hgo ltac:(lia)) as (_ & Hst' & Hrr' & Hv').
            rewrite HM, EM, Hst', Hrr', Hv'.
            assert (Hmpos : (0 < m)%nat).
            { destruct m; [| lia]. change (Z.of_nat 1) with 1 in Hv0. lia. }
            rewrite Nat2Z.inj_succ in Hv0.
            split_and!; try done; lia. }
      destruct Hnext as (s1 & Hs1 & Hcase1).
      destruct (IH c1 s1 Hinv1 Hrom1 Hs1 Hcase1) as (c' & ls & rs & s' & Hr & Hs' & Hp').
      rewrite Hr, bind_Ok_eq. exists c', (l1 :: ls), (r1 :: rs), s'. done. }
  apply (Hgen (EG.RR (SLOT.EG slot)) n c slot Hinv Hrom Hs).
  right. done.
Qed.

End Release.

(** ** Samples and addresses *)

Lemma s16_range (z : Z) : - 2 ^ 15 <= s16 z < 2 ^ 15.
Proof.
  unfold s16. pose proof (Z.mod_pos_bound (z + 2 ^ 15) (2 ^ 16) ltac:(lia)).
  lia.
Qed.

(** X20. Interpolation stays between its two samples.  The ROM byte read
    for a voice becomes a 16-bit sample, a multiple of 256 for a byte; the
    interpolated sample lies between the previous sample [Prev] and this
    one, and is [Prev] itself when the offset has no fractional part. *)
Theorem interpolate_between (b : Z) (slot : SLOT.t) :
  - 2 ^ 15 <= SLOT.Prev slot < 2 ^ 15 ->
  let csample := csample_of b in
  - 2 ^ 15 <= csample < 2 ^ 15 /\
  (0 <= b <= 255 -> csample = 256 * s8 b) /\
  Z.min csample (SLOT.Prev slot) <= interpolate csample slot
    <= Z.max csample (SLOT.Prev slot) /\
  (Z.land (SLOT.offset slot) 0xfff = 0 ->
   interpolate csample slot = SLOT.Prev slot).
Proof.
  intros HP csample.
  assert (Hc : - 2 ^ 15 <= csample < 2 ^ 15) by apply s16_range.
  split; [exact Hc |]. split.
  { intros Hb. subst csample. unfold csample_of, s16.
    rewrite Z.shiftl_mul_pow2 by lia. change (2 ^ 8) with 256.
    assert (Hs : - 128 <= s8 b < 128).
    { unfold s8. pose proof (Z.mod_pos_bound (b + 2 ^ 7) (2 ^ 8) ltac:(lia)).
      lia. }
    rewrite Z.mod_small by lia. lia. }
  clearbody csample. unfold interpolate. cbn zeta.
  change (Z.shiftl 1 SHIFT - 1) with 0xfff. change (Z.shiftl 1 SHIFT) with 4096.
  set (f := Z.land (SLOT.offset slot) 0xfff).
  assert (Hf : 0 <= f <= 0xfff) by (apply land_mask_range; lia).
  set (P := SLOT.Prev slot) in *.
  assert (Hx : - 2 ^ 31 <= csample * f + P * (4096 - f) < 2 ^ 31) by nia.
  rewrite s32_small by exact Hx.
  rewrite Z.shiftr_div_pow2 by (unfold SHIFT; lia).
  change (2 ^ SHIFT) with 4096.
  split.
  - split.
    + apply Z.div_le_lower_bound; [lia |]. nia.
    + apply Z.div_le_upper_bound; [lia |]. nia.
  - intros H0. clearbody f. subst f. rewrite Z.mul_0_r, Z.add_0_l, Z.sub_0_r.
    apply Z.div_mul. lia.
Qed.

Section Address.
Context {FA : FloatArith}.

(** X21. The read position stays inside the sample.  After a rendered
    sample of a voice whose descriptor has [Loop < End] (16-bit values),
    the integer part of the offset is below [End]: the next read is at most
    [End - 1] bytes after the base. *)
Theorem voice_update_address_in_sample (T : Tables) (ptChip : MultiPCM)
    (slot slot' : SLOT.t) (l r : Z) (smp : Sample.t) :
  voice_update T ptChip slot = Ok (slot', l, r) ->
  slot_Sample ptChip slot = Ok smp ->
  0 <= Sample.Loop smp < Sample.End_ smp -> Sample.End_ smp < 2 ^ 16 ->
  0 <= Z.shiftr (SLOT.offset slot') SHIFT < Sample.End_ smp.
Proof.
  intros (b & s1 & step1 & smp' & s2 & sample2 & g & _ & Hv & Hsmp & Ht & He & _)
         %voice_update_inv Hsmp' HL HE.
  rewrite Hsmp in Hsmp'. injection Hsmp' as ->.
  destruct (EG_Update_frame T s2 slot' g He) as (_ & _ & _ & ->).
  set (adv := advance smp (Z.shiftr (SLOT.offset slot) SHIFT) (csample_of b)
                step1 s1) in *.
  assert (Hadv : 0 <= Z.shiftr (SLOT.offset adv) SHIFT < Sample.End_ smp).
  { subst adv. unfold advance.
    set (o1 := u32 (SLOT.offset s1 + step1)).
    assert (Ho1 : 0 <= o1 < 2 ^ 32) by (apply Z.mod_pos_bound; lia).
    assert (HEnd : u32 (Z.shiftl (Sample.End_ smp) SHIFT) = Sample.End_ smp * 4096).
    { rewrite Z.shiftl_mul_pow2 by (unfold SHIFT; lia).
      change (2 ^ SHIFT) with 4096. apply u32_small. lia. }
    assert (HLoop : u32 (Z.shiftl (Sample.Loop smp) SHIFT) = Sample.Loop smp * 4096).
    { rewrite Z.shiftl_mul_pow2 by (unfold SHIFT; lia).
      change (2 ^ SHIFT) with 4096. apply u32_small. lia. }
    assert (Hoff : forall o, 0 <= o < Sample.End_ smp * 4096 ->
              0 <= Z.shiftr o SHIFT < Sample.End_ smp).
    { intros o Ho. rewrite Z.shiftr_div_pow2 by (unfold SHIFT; lia).
      change (2 ^ SHIFT) with 4096.
      split; [apply Z.div_pos; lia | apply Z.div_lt_upper_bound; lia]. }
    cbn zeta. cbn [SLOT.offset SLOT.set_offset].
    fold o1. rewrite HEnd, HLoop.
    destruct (Z.geb_spec o1 (Sample.End_ smp * 4096));
      cbn [SLOT.offset SLOT.set_offset];
      repeat match goal with
             | |- context [if ?c then _ else _] => destruct c
             end;
      cbn [SLOT.offset SLOT.set_offset SLOT.set_Prev SLOT.set_TL];
      apply Hoff; lia. }
  clearbody adv.
  destruct (tremolo_inv _ _ _ _ Ht)
    as [(_ & -> & _) | (_ & L & a & _ & -> & _)]; exact Hadv.
Qed.

End Address.

(** ** Programming the LFOs *)

Section LfoWrites.
Context {FA : FloatArith}.
Variable T : Tables.

(** X22. A programmed LFO can be stepped.  A write of a non-zero byte to
    register 6 or 7 returns, sets both LFOs of the voice and keeps their
    phases; from then on [PLFO_Step] and [ALFO_Step] return for them: the
    table and scale pointers are set and every triangle value indexes its
    256-entry scale row.  A write of 0 stores the byte and leaves both LFOs
    as they are. *)
Theorem WriteSlot_LFO_programs (ptChip : MultiPCM) (slot : SLOT.t)
    (reg data : Z) :
  Tables_sized T -> SCALES_ok T -> reg = 6 \/ reg = 7 ->
  exists slot',
    WriteSlot T ptChip slot reg data = Ok slot' /\
    LFO.phase (SLOT.PLFO slot') = LFO.phase (SLOT.PLFO slot) /\
    LFO.phase (SLOT.ALFO slot') = LFO.phase (SLOT.ALFO slot) /\
    (data <> 0 ->
     (exists L p, PLFO_Step (SLOT.PLFO slot') = Ok (L, p)) /\
     (exists L a, ALFO_Step (SLOT.ALFO slot') = Ok (L, a))) /\
    (data = 0 ->
     SLOT.PLFO slot' = SLOT.PLFO slot /\ SLOT.ALFO slot' = SLOT.ALFO slot).
Proof.
  intros HT HS Hreg.
  assert (Hw : exists regs,
            Regs.set reg data (SLOT.Regs slot) = Ok regs /\
            WriteSlot T ptChip slot reg data
            = WriteSlot_LFO T ptChip (SLOT.set_Regs regs slot) data).
  { destruct Hreg as [-> | ->]; eexists; split; reflexivity. }
  destruct Hw as (regs & _ & ->).
  destruct (WriteSlot_LFO_total T ptChip (SLOT.set_Regs regs slot) data HT HS)
    as (s' & Hw & Hcase).
  exists s'. split; [exact Hw |].
  destruct (WriteSlot_LFO_frame T _ _ _ _ Hw) as (P & A & Heq & HPp & HAp).
  assert (HP : SLOT.PLFO s' = P) by (rewrite Heq; reflexivity).
  assert (HA : SLOT.ALFO s' = A) by (rewrite Heq; reflexivity).
  rewrite HP, HA.
  split; [exact HPp |]. split; [exact HAp |].
  destruct Hcase as [[-> ->] | (Hne & P' & A' & Heq' & HP' & HA')].
  - split; [done |]. intros _. by rewrite <- HP, <- HA.
  - split; [| done]. intros _.
    assert (P = P') as -> by (rewrite <- HP, Heq'; reflexivity).
    assert (A = A') as -> by (rewrite <- HA, Heq'; reflexivity).
    destruct (PLFO_Step_returns P' HP') as (L & p & HL & _).
    destruct (ALFO_Step_returns A' HA') as (L' & a & HL' & _).
    eauto 6.
Qed.

End LfoWrites.

(** ** What rendering leaves alone *)

Section RenderFrame.
Context {FA : FloatArith}.
Variable T : Tables.

(** Everything of the chip but the running state of its voices. *)
Lemma update_slot_frame (c c' : MultiPCM) (l r l' r' sl : Z) :
  update_slot T (c, l, r) sl = Ok (c', l', r') ->
  (exists slots, c' = set_Slots slots c) /\
  map SLOT.Regs (Slots c') = map SLOT.Regs (Slots c) /\
  map SLOT.Muted (Slots c') = map SLOT.Muted (Slots c).
Proof.
  unfold update_slot.
  intros (slot & Hslot & H)%bind_Ok.
  destruct (truthy _ && _).
  - apply bind_Ok in H as ([[s' l0] r0] & Hvu & H).
    apply bind_Ok in H as (slots & Hst & [= <- <- <-]).
    split; [eauto |].
    unfold store in Hst. destruct (_ && _); [| done]. injection Hst as <-.
    apply index_Ok in Hslot as [_ Hslot].
    destruct (voice_update_EG T _ _ _ _ _ Hvu) as (s2 & g & He & _ & _ & EM).
    destruct (voice_update_frame T _ _ _ _ _ Hvu) as (ER & _).
    cbn [Slots set_Slots]. rewrite !list_fmap_insert.
    split; apply list_insert_id; rewrite list_lookup_fmap, Hslot; cbn;
      f_equal; [by rewrite ER |].
    rewrite <- EM. symmetry. clear -He. revert He. unfold EG_Update.
    match goal with
    | |- context [index A_lin2expvol _ (Z.shiftr (EG.volume (SLOT.EG ?s)) _)] =>
        set (s1 := s)
    end.
    assert (Hs : SLOT.Muted s1 = SLOT.Muted s2).
    { subst s1. destruct (EG.state (SLOT.EG s2));
        repeat match goal with
               | |- context [if ?b then _ else _] => destruct b
               end; done. }
    clearbody s1.
    destruct (index A_lin2expvol _ _) as [g' |]; [| done].
    cbn [mbind result_bind]. by intros [= <- _].
  - injection H as <- <- <-. split; [| done]. exists (Slots c). by destruct c.
Qed.

Lemma slots_loop_frame (n : nat) :
  forall (sl : Z) (c c' : MultiPCM) (l r l' r' : Z),
    slots_loop T n sl (c, l, r) = Ok (c', l', r') ->
    (exists slots, c' = set_Slots slots c) /\
    map SLOT.Regs (Slots c') = map SLOT.Regs (Slots c) /\
    map SLOT.Muted (Slots c') = map SLOT.Muted (Slots c).
Proof.
  induction n as [| n IH]; intros sl c c' l r l' r'; cbn [slots_loop].
  - intros [= <- <- <-]. split; [| done]. exists (Slots c). by destruct c.
  - intros ([[c1 l1] r1] & Hup & Hloop)%bind_Ok.
    destruct (update_slot_frame _ _ _ _ _ _ _ Hup) as ([s1 ->] & HR1 & HM1).
    destruct (IH _ _ _ _ _ _ _ Hloop) as ([s2 ->] & HR2 & HM2).
    split; [by exists s2 |]. split; congruence.
Qed.

(** X23. Rendering changes nothing but the running state of the voices.
    A render call leaves the ROM, its mask and size, the descriptor table,
    the register-select state and the banks as they were, and in every
    voice the eight registers and the mute flag. *)
Theorem render_keeps_registers (n : nat) :
  forall (ptChip ptChip' : MultiPCM) (ls rs : list Z),
    render T n ptChip = Ok (ptChip', ls, rs) ->
    (exists slots, ptChip' = set_Slots slots ptChip) /\
    map SLOT.Regs (Slots ptChip') = map SLOT.Regs (Slots ptChip) /\
    map SLOT.Muted (Slots ptChip') = map SLOT.Muted (Slots ptChip).
Proof.
  induction n as [| n IH]; intros c c' ls rs; cbn [render].
  - intros [= <- <- <-]. split; [| done]. exists (Slots c). by destruct c.
  - intros ([[c1 l1] r1] & Hloop & H)%bind_Ok.
    apply bind_Ok in H as ([[c2 ls'] rs'] & Hr & [= <- <- <-]).
    destruct (slots_loop_frame _ _ _ _ _ _ _ _ Hloop) as ([s1 ->] & HR1 & HM1).
    destruct (IH _ _ _ _ Hr) as ([s2 ->] & HR2 & HM2).
    split; [by exists s2 |]. split; congruence.
Qed.

End RenderFrame.

(** ** The bounds check of a ROM write *)

Section RomWrap.
Context {FA : FloatArith}.

(** X24. The bounds check of [write_rom] wraps.  When [offset + length]
    reaches 2^32 the 32-bit sum is small, the length is not cut down and
    the copy runs past the end of the ROM. *)
Theorem write_rom_wrapped_sum_overruns (ptChip : MultiPCM)
    (offset length : Z) (data : list Z) :
  Z.of_nat (List.length (ROM ptChip)) = ROMSize ptChip ->
  0 <= offset <= ROMSize ptChip -> ROMSize ptChip < 2 ^ 32 ->
  0 <= length < 2 ^ 32 -> 2 ^ 32 <= offset + length ->
  multipcm_write_rom ptChip offset length data
  = Err (OutOfBoundsWrite A_ROM (ROMSize ptChip)).
Proof.
  intros Hrom Ho Hsize Hl Hwrap. unfold multipcm_write_rom.
  destruct (Z.gtb_spec offset (ROMSize ptChip)); [lia |].
  assert (Hsum : u32 (offset + length) = offset + length - 2 ^ 32).
  { unfold u32. symmetry.
    apply (Z.mod_unique_pos _ _ 1); lia. }
  rewrite Hsum.
  destruct (Z.gtb_spec (offset + length - 2 ^ 32) (ROMSize ptChip)); [lia |].
  unfold memcpy.
  destruct (Z.eqb_spec length 0); [lia |].
  destruct (Z.ltb_spec (Z.of_nat (List.length (ROM ptChip))) (offset + length));
    [| lia].
  rewrite bind_Err_eq. by rewrite Hrom.
Qed.

End RomWrap.

(** ** Voices do not interact *)

Section Independence.
Context {FA : FloatArith}.
Variable T : Tables.

(** A rendered sample of a voice reads the chip's ROM, mask and descriptor
    table, and nothing else of the chip. *)
Lemma voice_update_ext (c1 c2 : MultiPCM) (slot : SLOT.t) :
  ROM c1 = ROM c2 -> ROMMask c1 = ROMMask c2 -> Samples c1 = Samples c2 ->
  voice_update T c1 slot = voice_update T c2 slot.
Proof.
  intros HR HM HS. unfold voice_update, slot_Sample.
  rewrite HR, HM, HS. reflexivity.
Qed.

(** What one pass of the voice loop leaves in voice [i]: the voice itself
    when it is idle or muted, its rendered successor otherwise. *)
Lemma slots_loop_at_exact (i : nat) (c c' : MultiPCM) (l' r' : Z) (s : SLOT.t) :
  (i < 28)%nat ->
  slots_loop T 28 0 (c, 0, 0) = Ok (c', l', r') ->
  Slots c !! i = Some s ->
  exists s',
    Slots c' !! i = Some s' /\
    (exists slots, c' = set_Slots slots c) /\
    if truthy (SLOT.Playing s) && negb (truthy (SLOT.Muted s))
    then exists l0 r0, voice_update T c s = Ok (s', l0, r0)
    else s' = s.
Proof.
  intros Hi Hloop Hs.
  pose proof (slots_loop_frame T _ _ _ _ _ _ _ _ Hloop) as (Hframe & _).
  replace 28%nat with (i + (1 + (27 - i)))%nat in Hloop by lia.
  rewrite slots_loop_app in Hloop.
  apply bind_Ok in Hloop as ([[c1 l1] r1] & Hpre & Hloop).
  rewrite slots_loop_app in Hloop.
  apply bind_Ok in Hloop as ([[c2 l2] r2] & Hmid & Hpost).
  change 0 with (Z.of_nat 0) in Hpre.
  pose proof (slots_loop_untouched T _ _ i _ _ _ _ _ _ Hpre ltac:(lia)) as E1.
  pose proof (slots_loop_frame T _ _ _ _ _ _ _ _ Hpre) as ([sl1 Hc1] & _).
  replace (0 + Z.of_nat i + Z.of_nat 1) with (Z.of_nat (S i)) in Hpost by lia.
  pose proof (slots_loop_untouched T _ _ i _ _ _ _ _ _ Hpost ltac:(lia)) as E2.
  rewrite E2. rewrite Hs in E1.
  cbn [slots_loop] in Hmid. rewrite Z.add_0_l in Hmid.
  apply bind_Ok in Hmid as (acc & Hup & [= ->]).
  revert Hup. unfold update_slot.
  intros (slot & Hslot & H)%bind_Ok.
  apply index_Ok in Hslot as [_ Hslot]. rewrite Nat2Z.id, E1 in Hslot.
  injection Hslot as <-.
  destruct (truthy (SLOT.Playing s) && negb (truthy (SLOT.Muted s))).
  - apply bind_Ok in H as ([[s' l0] r0] & Hvu & H).
    apply bind_Ok in H as (slots & Hst & [= <- <- <-]).
    exists s'. split; [| split; [exact Hframe |]].
    + unfold store in Hst. destruct (_ && _); [| done]. injection Hst as <-.
      cbn [Slots set_Slots]. rewrite Nat2Z.id.
      apply list_lookup_insert_eq. by eapply lookup_lt_Some.
    + exists l0, r0. rewrite <- Hvu. apply voice_update_ext; by rewrite Hc1.
  - injection H as <- <- <-. exists s. done.
Qed.

(** X25. Voices do not interact.  The state of voice [i] after a render of
    [n] samples depends on that voice, the ROM, its mask and the descriptor
    table only: on two chips that agree on these, whatever their other
    voices, two render calls that return leave voice [i] in the same
    state. *)
Theorem render_voice_independent (n : nat) :
  forall (i : nat) (c1 c2 c1' c2' : MultiPCM) (ls1 rs1 ls2 rs2 : list Z),
    (i < 28)%nat ->
    ROM c1 = ROM c2 -> ROMMask c1 = ROMMask c2 -> Samples c1 = Samples c2 ->
    is_Some (Slots c1 !! i) ->
    Slots c1 !! i = Slots c2 !! i ->
    render T n c1 = Ok (c1', ls1, rs1) ->
    render T n c2 = Ok (c2', ls2, rs2) ->
    Slots c1' !! i = Slots c2' !! i.
Proof.
  induction n as [| n IH];
    intros i c1 c2 c1' c2' ls1 rs1 ls2 rs2 Hi HR HM HS [s Hs1] Heq;
    cbn [render].
  - intros [= <- <- <-] [= <- <- <-]. exact Heq.
  - intros ([[d1 l1] r1] & Hloop1 & H1)%bind_Ok
           ([[d2 l2] r2] & Hloop2 & H2)%bind_Ok.
    apply bind_Ok in H1 as ([[e1 ls1'] rs1'] & Hr1 & [= <- <- <-]).
    apply bind_Ok in H2 as ([[e2 ls2'] rs2'] & Hr2 & [= <- <- <-]).
    assert (Hs2 : Slots c2 !! i = Some s) by (by rewrite <- Heq).
    destruct (slots_loop_at_exact i c1 d1 l1 r1 s Hi Hloop1 Hs1)
      as (s1' & Hd1 & [sl1 ->] & Hnext1).
    destruct (slots_loop_at_exact i c2 d2 l2 r2 s Hi Hloop2 Hs2)
      as (s2' & Hd2 & [sl2 ->] & Hnext2).
    assert (s1' = s2') as ->.
    { destruct (truthy (SLOT.Playing s) && negb (truthy (SLOT.Muted s)));
        [| congruence].
      destruct Hnext1 as (a1 & b1 & Hv1). destruct Hnext2 as (a2 & b2 & Hv2).
      rewrite (voice_update_ext c1 c2 s HR HM HS) in Hv1. congruence. }
    apply (IH i (set_Slots sl1 c1) (set_Slots sl2 c2) e1 e2
             ls1' rs1' ls2' rs2' Hi HR HM HS);
      [rewrite Hd1; eauto | by rewrite Hd1, Hd2 | exact Hr1 | exact Hr2].
Qed.

End Independence.

Section Hold.
Context {FA : FloatArith}.
Variable T : Tables.

(** X26. A release rate of 0 holds the voice.  On a well-formed chip with
    the mask inside the ROM, a playing, unmuted voice in RELEASE with
    [RR = 0] and a positive volume is still playing, at the same volume,
    after any number of rendered samples: key-off does not end it. *)
Theorem release_rate_0_holds (n : nat) :
  forall (ptChip : MultiPCM) (i : nat) (slot : SLOT.t),
    chip_inv T ptChip -> ROM_covers ptChip ->
    Slots ptChip !! i = Some slot ->
    SLOT.Playing slot <> 0 -> SLOT.Muted slot = 0 ->
    EG.state (SLOT.EG slot) = RELEASE ->
    EG.RR (SLOT.EG slot) = 0 -> 0 < EG.volume (SLOT.EG slot) ->
    exists ptChip' ls rs slot',
      render T n ptChip = Ok (ptChip', ls, rs) /\
      Slots ptChip' !! i = Some slot' /\
      SLOT.Playing slot' = SLOT.Playing slot /\
      EG.state (SLOT.EG slot') = RELEASE /\
      EG.volume (SLOT.EG slot') = EG.volume (SLOT.EG slot).
Proof.
  induction n as [| n IH]; intros c i slot Hinv Hrom Hs Hpl Hmu Hst Hrr Hvol;
    cbn [render].
  - exists c, [], [], slot. done.
  - assert (Hi : (i < 28)%nat).
    { apply lookup_lt_Some in Hs.
      destruct Hinv as (_ & _ & _ & _ & _ & _ & _ & HSl & _). lia. }
    destruct (slots_loop_returns T 28 0 c 0 0
                (chip_inv_render_ok T c Hinv Hrom) ltac:(lia))
      as (c1 & l1 & r1 & Hloop & _).
    change (Z.of_nat 0) with 0 in Hloop. rewrite Hloop, bind_Ok_eq.
    destruct (slots_loop_chip_inv T _ _ _ _ _ _ _ _ Hinv Hrom Hloop)
      as [Hinv1 Hrom1].
    destruct (slots_loop_at T i c c1 l1 r1 slot Hi Hloop Hs)
      as [[[? | ?] _] | (_ & _ & s2 & g & s' & He & EE & EP & EM & Hs1)];
      [done | done |].
    assert (Hsinv : slot_inv slot).
    { destruct Hinv as (_ & _ & _ & _ & _ & _ & _ & _ & _ & Hall).
      rewrite Forall_lookup in Hall. by eapply Hall. }
    destruct Hsinv as (_ & _ & _ & _ & _ & Hplay).
    destruct (Hplay Hpl) as (_ & Hrates & Hvok).
    rewrite <- EE in Hst, Hrr, Hvol, Hrates, Hvok.
    destruct (EG_Update_release T s2 s' g He Hst Hrates Hvok)
      as (HM & _ & Hgo).
    destruct (Hgo ltac:(lia)) as (Hp' & Hst' & Hrr' & Hv').
    destruct (IH c1 i s' Hinv1 Hrom1 Hs1) as (c' & ls & rs & s'' & Hr & Hs' & Hp'' & Hst'' & Hv'');
      try congruence; try lia.
    rewrite Hr, bind_Ok_eq.
    exists c', (l1 :: ls), (r1 :: rs), s''.
    split; [reflexivity |]. split; [exact Hs' |].
    rewrite Hp'', Hst'', Hv'', Hp', Hv', Hrr, EP, EE. split_and!; try done; lia.
Qed.

End Hold.

(** * The further properties on concrete runs *)

Lemma Tables_sample_sized : Tables_sized Tables_sample.
Proof. repeat split. Qed.

Lemma Tables_sample_TLSteps : TLSteps_ok Tables_sample.
Proof.
  exists (-152), 76. split; [reflexivity |].
  change (Z.shiftl 1 SHIFT) with 4096. lia.
Qed.

Lemma Tables_sample_SCALES : SCALES_ok Tables_sample.
Proof.
  split; apply Forall_replicate; apply length_replicate.
Qed.

Lemma ARStep_sample_ok : Steps_ok ARStep_sample.
Proof.
  apply (bool_decide_eq_true_1 (Steps_ok ARStep_sample)). vm_compute. reflexivity.
Qed.

Lemma DRStep_sample_ok : Steps_ok DRStep_sample.
Proof.
  apply (bool_decide_eq_true_1 (Steps_ok DRStep_sample)). vm_compute. reflexivity.
Qed.

(** A chip run from [chip_sample] whose voices are fresh but for voice 0. *)
Lemma chip_inv_concrete (c : @MultiPCM Z_arith) (v : SLOT.t) :
  ARStep c = ARStep_sample -> DRStep c = DRStep_sample ->
  FNS_Table c = FNS_Table_sample ->
  length (Samples c) = 0x200%nat ->
  iface_ok c ->
  Slots c = v :: replicate 27 SLOT.zero -> slot_inv v ->
  chip_inv Tables_sample c.
Proof.
  intros HA HD HF HSm Hif HSl Hv. unfold chip_inv.
  rewrite HA, HD, HF, HSl.
  split; [exact Tables_sample_sized |]. split; [exact Tables_sample_TLSteps |].
  split; [exact Tables_sample_SCALES |]. split; [exact ARStep_sample_ok |].
  split; [exact DRStep_sample_ok |]. split; [reflexivity |].
  split; [exact HSm |]. split; [reflexivity |]. split; [exact Hif |].
  constructor; [exact Hv |]. apply Forall_replicate. exact slot_inv_zero.
Qed.

Lemma iface_ok_concrete (c : @MultiPCM Z_arith) (a s : Z) :
  Address c = a -> CurSlot c = s -> 0 <= a <= 7 -> 0 <= s < 28 -> iface_ok c.
Proof. intros Ha Hs ? ?. unfold iface_ok. rewrite Ha, Hs. lia. Qed.

Lemma chip_sample_inv : chip_inv Tables_sample chip_sample.
Proof.
  apply (chip_inv_concrete chip_sample SLOT.zero); try reflexivity.
  - apply (iface_ok_concrete _ 0 0); (reflexivity || lia).
  - exact slot_inv_zero.
Qed.

(** A playing voice on descriptor 0 with no LFO depth and rates from the
    sample step tables. *)
Lemma slot_inv_concrete (v : SLOT.t) :
  Regs.r1 (SLOT.Regs v) = 0 -> Regs.r2 (SLOT.Regs v) = 0 ->
  Regs.r6 (SLOT.Regs v) = 0 -> Regs.r7 (SLOT.Regs v) = 0 ->
  SLOT.Pan v = 0 -> SLOT.TL v = 0 -> SLOT.DstTL v = 0 ->
  (SLOT.Playing v <> 0 ->
   SLOT.Sample v = Some 0 /\
   EG_rates_ok (SLOT.EG v) /\ EG_volume_ok (SLOT.EG v)) ->
  slot_inv v.
Proof.
  intros H1 H2 H6 H7 HP HT HD Hplay.
  unfold slot_inv, TL_ramp_ok, is_byte. rewrite H1, H2, H6, H7, HP, HT, HD.
  change (Z.shiftr 0 SHIFT) with 0.
  split; [lia |]. split; [lia |]. split; [lia |].
  split; [split; [lia |]; split; [lia |]; split; [lia | by left] |].
  split; [intros [? | ?]; done |].
  intros Hp. destruct (Hplay Hp) as (HS & Hr & Hv). rewrite HS.
  split; [exists 0; split; [reflexivity | lia] |]. done.
Qed.

Lemma voice_keyed_inv : slot_inv voice_keyed.
Proof.
  apply slot_inv_concrete; try reflexivity.
  intros _. split; [reflexivity |]. split.
  - vm_compute. repeat split; discriminate.
  - vm_compute. split; discriminate.
Qed.

Lemma chip_keyed_inv : chip_inv Tables_sample chip_keyed.
Proof.
  apply (chip_inv_concrete chip_keyed voice_keyed); try reflexivity.
  - apply (iface_ok_concrete _ 4 0); (reflexivity || lia).
  - exact voice_keyed_inv.
Qed.

Lemma chip_keyed_covers : ROM_covers chip_keyed.
Proof.
  unfold ROM_covers. change (ROMMask chip_keyed) with 0x1fff.
  change (length (ROM chip_keyed)) with 0x2000%nat. lia.
Qed.

Lemma multipcm_w_keeps_iface_witness :
  is_byte 200 /\ @iface_ok Z_arith chip_sample /\
  @iface_ok Z_arith (@set_Address Z_arith 7 chip_sample).
Proof.
  assert (Hb : is_byte 200) by (unfold is_byte; lia).
  assert (Hi : @iface_ok Z_arith chip_sample).
  { apply (iface_ok_concrete _ 0 0); (reflexivity || lia). }
  split; [exact Hb |]. split; [exact Hi |].
  apply (proj1 (@multipcm_w_keeps_iface Z_arith Tables_sample chip_sample
                  (@set_Address Z_arith 7 chip_sample) 2 200 Hb Hi)).
  vm_compute. reflexivity.
Defined.

Lemma EG_Calc_returns_iff_witness :
  @slot_Sample Z_arith chip_keyed voice_keyed = Ok sample_envelope /\
  EG_octave (Regs.r3 (SLOT.Regs voice_keyed)) + Sample.KRS sample_envelope = 0 /\
  exists slot', @EG_Calc Z_arith chip_keyed voice_keyed = Ok slot'.
Proof.
  assert (Hs : @slot_Sample Z_arith chip_keyed voice_keyed = Ok sample_envelope)
    by (vm_compute; reflexivity).
  split; [exact Hs |]. split; [reflexivity |].
  apply (proj2 (@EG_Calc_returns_iff Z_arith chip_keyed voice_keyed
                  sample_envelope eq_refl eq_refl Hs
                  ltac:(cbn; lia) ltac:(cbn; lia) ltac:(cbn; lia)
                  ltac:(cbn; lia) ltac:(cbn; lia))).
  right. vm_compute. discriminate.
Defined.

Lemma WriteSlot_key_on_witness :
  Z.land 0x80 0x80 <> 0 /\
  @WriteSlot Z_arith Tables_sample chip_keyed voice_keyed 4 0x80 = Ok voice_rekeyed /\
  SLOT.Playing voice_rekeyed = 1 /\ SLOT.offset voice_rekeyed = 0 /\
  EG.state (SLOT.EG voice_rekeyed) = ATTACK /\
  EG.volume (SLOT.EG voice_rekeyed) = 0.
Proof.
  assert (Hon : Z.land 0x80 0x80 <> 0) by (vm_compute; discriminate).
  assert (Hw : @WriteSlot Z_arith Tables_sample chip_keyed voice_keyed 4 0x80
               = Ok voice_rekeyed) by (vm_compute; reflexivity).
  split; [exact Hon |]. split; [exact Hw |].
  destruct (@WriteSlot_key_on Z_arith Tables_sample chip_keyed voice_keyed
              voice_rekeyed 0x80 Hon Hw)
    as (smp & _ & _ & Hp & Ho & _ & _ & Hst & Hv & _).
  split; [exact Hp |]. split; [exact Ho |]. split; [exact Hst | exact Hv].
Defined.

Lemma WriteSlot_level_witness :
  TLSteps Tables_sample = [-152; 76] /\
  exists slot',
    @WriteSlot Z_arith Tables_sample chip_sample SLOT.zero 5 0x20 = Ok slot' /\
    SLOT.DstTL slot' = 0x10 /\ SLOT.TL slot' = 0 /\ SLOT.TLStep slot' = 76.
Proof.
  split; [reflexivity |].
  destruct (@WriteSlot_level Z_arith Tables_sample chip_sample SLOT.zero 0x20
              (-152) 76 eq_refl)
    as (slot' & Hw & Hd & _ & Hramp).
  exists slot'. split; [exact Hw |]. split; [exact Hd |].
  destruct (Hramp eq_refl) as [Htl Hstep].
  split; [exact Htl |]. rewrite Hstep, Hd. reflexivity.
Defined.

Lemma WriteSlot_sample_select_witness :
  @WriteSlot Z_arith Tables_sample chip_keyed voice_keyed 1 0 = Ok voice_reselected /\
  SLOT.Playing voice_reselected = SLOT.Playing voice_keyed /\
  SLOT.Sample voice_reselected = SLOT.Sample voice_keyed /\
  SLOT.EG voice_reselected = SLOT.EG voice_keyed.
Proof.
  assert (Hw : @WriteSlot Z_arith Tables_sample chip_keyed voice_keyed 1 0
               = Ok voice_reselected) by (vm_compute; reflexivity).
  split; [exact Hw |].
  destruct (@WriteSlot_sample_select Z_arith Tables_sample chip_keyed
              voice_keyed voice_reselected 0 Hw)
    as (smp & _ & _ & Hp & Hs & _ & _ & _ & _ & _ & He & _).
  split; [exact Hp |]. split; [exact Hs | exact He].
Defined.

Lemma write_header_run :
  @multipcm_write_rom Z_arith chip_rom_6144 0 12 header_bytes = Ok chip_byte_order.
Proof. vm_compute. reflexivity. Qed.

Lemma chip_rom_6144_bytes : Forall is_byte (ROM chip_rom_6144).
Proof.
  apply (bool_decide_eq_true_1
           (Forall (fun z => 0 <= z <= 255) (ROM chip_rom_6144))).
  vm_compute. reflexivity.
Qed.

Lemma write_rom_descriptors_ranged_witness :
  Forall is_byte header_bytes /\
  Forall Sample_ranged (Samples chip_byte_order) /\
  Forall is_byte (ROM chip_byte_order).
Proof.
  assert (Hd : Forall is_byte header_bytes).
  { apply (bool_decide_eq_true_1 (Forall (fun z => 0 <= z <= 255) header_bytes)).
    vm_compute. reflexivity. }
  split; [exact Hd |].
  apply (@write_rom_descriptors_ranged Z_arith chip_rom_6144 chip_byte_order
           0 12 header_bytes eq_refl chip_rom_6144_bytes Hd).
  - change (ROMSize chip_rom_6144) with 6144. lia.
  - lia.
  - exact write_header_run.
Defined.

Lemma write_rom_idempotent_witness :
  @multipcm_write_rom Z_arith chip_rom_6144 0 12 header_bytes = Ok chip_byte_order /\
  @multipcm_write_rom Z_arith chip_byte_order 0 12 header_bytes = Ok chip_byte_order.
Proof.
  split; [exact write_header_run |].
  apply (@write_rom_idempotent Z_arith chip_rom_6144 chip_byte_order 0 12
           header_bytes).
  - split; reflexivity.
  - change (ROMSize chip_rom_6144) with 6144. lia.
  - lia.
  - lia.
  - simpl. lia.
  - exact write_header_run.
Defined.

Lemma alloc_rom_mask_covers_witness :
  exists ptChip',
    @multipcm_alloc_rom Z_arith 32 chip_sample 16 = Ok ptChip' /\
    ROMMask ptChip' = 15 /\
    index A_ROM (ROM ptChip') (Z.land 0x12345 (ROMMask ptChip')) = Ok 0xFF.
Proof.
  destruct (@alloc_rom_mask_covers Z_arith chip_sample 16)
    as (c' & Halloc & _ & Hpow & _).
  - lia.
  - change (ROMSize chip_sample) with 0. lia.
  - exists c'. split; [exact Halloc |].
    destruct Hpow as [Hmask Hread].
    + exists 4. split; [lia | reflexivity].
    + split; [exact Hmask | apply Hread].
Defined.

Lemma multipcm_w_keeps_chip_inv_witness :
  is_byte 0x00 /\
  @multipcm_w Z_arith Tables_sample chip_keyed 0 0x00 = Ok chip_keyed_off /\
  chip_inv Tables_sample chip_keyed_off /\
  ROM chip_keyed_off = ROM chip_keyed.
Proof.
  assert (Hb : is_byte 0x00) by (unfold is_byte; lia).
  assert (Hw : @multipcm_w Z_arith Tables_sample chip_keyed 0 0x00
               = Ok chip_keyed_off) by (vm_compute; reflexivity).
  split; [exact Hb |]. split; [exact Hw |].
  destruct (@multipcm_w_keeps_chip_inv Z_arith Tables_sample chip_keyed
              chip_keyed_off 0 0x00 chip_keyed_inv Hb (or_introl Hw))
    as (Hinv & Hrom & _).
  split; [exact Hinv | exact Hrom].
Defined.

Lemma voice_octave_minus_8_inv :
  slot_inv (default SLOT.zero (Slots chip_octave_minus_8 !! 0%nat)).
Proof.
  apply slot_inv_concrete; try reflexivity.
  intros Hp. exfalso. apply Hp. reflexivity.
Qed.

Lemma chip_octave_minus_8_inv : chip_inv Tables_sample chip_octave_minus_8.
Proof.
  apply (chip_inv_concrete chip_octave_minus_8
           (default SLOT.zero (Slots chip_octave_minus_8 !! 0%nat)));
    try reflexivity.
  - apply (iface_ok_concrete _ 4 0); (reflexivity || lia).
  - exact voice_octave_minus_8_inv.
Qed.

Lemma multipcm_w_fails_only_at_key_on_witness :
  @multipcm_w Z_arith Tables_sample chip_octave_minus_8 0 0x80
  = Err (OutOfBounds A_Steps (-12)) /\
  Address chip_octave_minus_8 = 4 /\ Z.land 0x80 0x80 <> 0.
Proof.
  assert (Hb : is_byte 0x80) by (unfold is_byte; lia).
  assert (Hw : @multipcm_w Z_arith Tables_sample chip_octave_minus_8 0 0x80
               = Err (OutOfBounds A_Steps (-12))) by (vm_compute; reflexivity).
  split; [exact Hw |].
  destruct (proj1 (@multipcm_w_fails_only_at_key_on Z_arith Tables_sample
                     chip_octave_minus_8 0 0x80 (OutOfBounds A_Steps (-12))
                     chip_octave_minus_8_inv Hb) Hw)
    as (_ & Ha & Hon & _).
  split; [exact Ha | exact Hon].
Defined.

Lemma MultiPCM_update_safe_witness :
  exists ptChip' out0' out1',
    @MultiPCM_update Z_arith Tables_sample chip_keyed 2 ([9; 9; 9], [7; 7; 7])
    = Ok (ptChip', (out0', out1')) /\
    length out0' = 3%nat /\ length out1' = 3%nat /\
    chip_inv Tables_sample ptChip' /\ ROM_covers ptChip'.
Proof.
  apply (@MultiPCM_update_safe Z_arith Tables_sample chip_keyed 2
           [9; 9; 9] [7; 7; 7] chip_keyed_inv chip_keyed_covers);
    simpl; lia.
Defined.

Lemma start_and_controls_keep_chip_inv_witness :
  chip_inv Tables_sample chip_sample /\
  chip_inv Tables_sample (@device_reset_multipcm Z_arith chip_keyed) /\
  chip_inv Tables_sample (@multipcm_set_mute_mask Z_arith chip_keyed 1) /\
  chip_inv Tables_sample (@multipcm_bank_write Z_arith chip_keyed 3 0x12).
Proof.
  destruct (@start_and_controls_keep_chip_inv Z_arith Tables_sample)
    as [Hstart Hkeep].
  split.
  - apply (Hstart 44100 ARStep_sample DRStep_sample FNS_Table_sample
             Tables_sample_sized Tables_sample_TLSteps Tables_sample_SCALES
             ARStep_sample_ok DRStep_sample_ok).
    vm_compute. reflexivity.
  - destruct (Hkeep chip_keyed chip_keyed_inv) as (Hreset & Hmute & Hbank & _).
    split; [exact Hreset |]. split; [apply Hmute | apply Hbank].
Defined.

Lemma chip_rom_6144_inv : chip_inv Tables_sample chip_rom_6144.
Proof.
  apply (chip_inv_concrete chip_rom_6144 SLOT.zero); try reflexivity.
  - apply (iface_ok_concrete _ 0 0); (reflexivity || lia).
  - exact slot_inv_zero.
Qed.

Lemma rom_calls_keep_chip_inv_witness :
  chip_inv Tables_sample chip_byte_order /\
  (ROM_covers chip_rom_6144 -> ROM_covers chip_byte_order).
Proof.
  apply (proj2 (@rom_calls_keep_chip_inv Z_arith Tables_sample chip_rom_6144
                  chip_byte_order chip_rom_6144_inv) 0 12 header_bytes);
    [lia | lia | exact write_header_run].
Defined.

Lemma device_reset_silences_witness :
  @MultiPCM_update Z_arith Tables_sample (@device_reset_multipcm Z_arith chip_keyed)
    2 ([9; 9; 9], [7; 7; 7])
  = Ok (@device_reset_multipcm Z_arith chip_keyed, ([0; 0; 9], [0; 0; 7])) /\
  map SLOT.Regs (Slots (@device_reset_multipcm Z_arith chip_keyed))
  = map SLOT.Regs (Slots chip_keyed).
Proof.
  destruct (@device_reset_silences Z_arith Tables_sample chip_keyed 2
              [9; 9; 9] [7; 7; 7] eq_refl)
    as (_ & Hup & Hregs & _).
  - simpl. lia.
  - simpl. lia.
  - split; [exact Hup | exact Hregs].
Defined.

Lemma chip_keyed_slots : Slots chip_keyed = voice_keyed :: replicate 27 SLOT.zero.
Proof. reflexivity. Qed.

Lemma set_mute_mask_pauses_witness :
  (exists s',
     Slots (@multipcm_set_mute_mask Z_arith chip_keyed 1) !! 0%nat = Some s' /\
     SLOT.Muted s' = 1 /\
     SLOT.Num s' = SLOT.Num voice_keyed /\ SLOT.Regs s' = SLOT.Regs voice_keyed /\
     SLOT.Playing s' = 1 /\ SLOT.Sample s' = Some 0 /\
     SLOT.Base s' = SLOT.Base voice_keyed /\
     SLOT.offset s' = SLOT.offset voice_keyed /\
     SLOT.step s' = SLOT.step voice_keyed /\ SLOT.Pan s' = SLOT.Pan voice_keyed /\
     SLOT.TL s' = SLOT.TL voice_keyed /\ SLOT.DstTL s' = SLOT.DstTL voice_keyed /\
     SLOT.TLStep s' = SLOT.TLStep voice_keyed /\
     SLOT.Prev s' = SLOT.Prev voice_keyed /\ SLOT.EG s' = SLOT.EG voice_keyed /\
     SLOT.PLFO s' = SLOT.PLFO voice_keyed /\
     SLOT.ALFO s' = SLOT.ALFO voice_keyed) /\
  ROM (@multipcm_set_mute_mask Z_arith chip_keyed 1) = ROM chip_keyed /\
  @MultiPCM_update Z_arith Tables_sample (@multipcm_set_mute_mask Z_arith chip_keyed 1)
    2 ([9; 9; 9], [7; 7; 7])
  = Ok (@multipcm_set_mute_mask Z_arith chip_keyed 1, ([0; 0; 9], [0; 0; 7])).
Proof.
  destruct (@set_mute_mask_pauses Z_arith Tables_sample chip_keyed 1 2
              [9; 9; 9] [7; 7; 7] eq_refl) as (Hvoice & Hchip & Hpause).
  - simpl. lia.
  - simpl. lia.
  - split; [| split].
    + exact (Hvoice 0%nat voice_keyed eq_refl).
    + destruct Hchip as (_ & _ & _ & _ & _ & _ & _ & _ & _ & Hrom & _).
      exact Hrom.
    + apply Hpause. intros i s Hs Hp.
      rewrite chip_keyed_slots in Hs. destruct i as [| i]; [reflexivity |].
      exfalso. apply Hp.
      change (replicate 27 SLOT.zero !! i = Some s) in Hs.
      apply lookup_replicate in Hs as [-> _]. reflexivity.
Defined.

Lemma EG_Update_state_order_witness :
  EG_Update Tables_sample voice_keyed = Ok voice_keyed_EG_next /\
  EG.state (SLOT.EG voice_keyed) = ATTACK /\
  EG.state (SLOT.EG (fst voice_keyed_EG_next)) = ATTACK /\
  SLOT.Playing (fst voice_keyed_EG_next) = 1 /\
  EG.RR (SLOT.EG (fst voice_keyed_EG_next)) = EG.RR (SLOT.EG voice_keyed).
Proof.
  assert (Hup : EG_Update Tables_sample voice_keyed = Ok voice_keyed_EG_next)
    by (vm_compute; reflexivity).
  split; [exact Hup |]. split; [reflexivity |]. split; [reflexivity |].
  destruct (EG_Update_state_order Tables_sample voice_keyed
              (fst voice_keyed_EG_next) (snd voice_keyed_EG_next) Hup)
    as (_ & _ & (_ & _ & _ & Hrr) & _ & Hplay & _).
  split; [| exact Hrr].
  destruct Hplay as [Hp | (Hrel & _)]; [exact Hp | discriminate Hrel].
Defined.

Lemma voice_released_inv : slot_inv voice_released.
Proof.
  apply slot_inv_concrete; try reflexivity.
  intros _. split; [reflexivity |]. split.
  - vm_compute. repeat split; discriminate.
  - vm_compute. split; discriminate.
Qed.

Lemma chip_released_inv : chip_inv Tables_sample chip_released.
Proof.
  apply (chip_inv_concrete chip_released voice_released); try reflexivity.
  - apply (iface_ok_concrete _ 4 0); (reflexivity || lia).
  - exact voice_released_inv.
Qed.

Lemma chip_released_covers : ROM_covers chip_released.
Proof.
  unfold ROM_covers. change (ROMMask chip_released) with 0x1fff.
  change (length (ROM chip_released)) with 0x2000%nat. lia.
Qed.

Lemma release_ends_voice_witness :
  EG.volume (SLOT.EG voice_released) = 93894 /\
  EG.RR (SLOT.EG voice_released) = 1092 /\
  exists ptChip' ls rs slot',
    @render Z_arith Tables_sample 86 chip_released = Ok (ptChip', ls, rs) /\
    Slots ptChip' !! 0%nat = Some slot' /\
    SLOT.Playing slot' = 0.
Proof.
  split; [reflexivity |]. split; [reflexivity |].
  apply (@release_ends_voice Z_arith Tables_sample 86 chip_released 0
           voice_released chip_released_inv chip_released_covers eq_refl).
  - vm_compute. discriminate.
  - reflexivity.
  - reflexivity.
  - lia.
  - vm_compute. discriminate.
Defined.

Lemma interpolate_between_witness :
  csample_of 0x80 = -32768 /\
  Z.min (csample_of 0x80) (SLOT.Prev voice_keyed)
    <= interpolate (csample_of 0x80) voice_keyed
    <= Z.max (csample_of 0x80) (SLOT.Prev voice_keyed) /\
  interpolate (csample_of 0x80) voice_keyed = SLOT.Prev voice_keyed.
Proof.
  split; [reflexivity |].
  destruct (interpolate_between 0x80 voice_keyed) as (_ & _ & Hb & H0).
  - vm_compute. split; [discriminate | reflexivity].
  - split; [exact Hb |]. apply H0. reflexivity.
Defined.

Lemma voice_update_address_in_sample_witness :
  @voice_update Z_arith Tables_sample chip_keyed voice_keyed
  = Ok voice_keyed_rendered /\
  0 <= Z.shiftr (SLOT.offset (fst (fst voice_keyed_rendered))) SHIFT < 0x10.
Proof.
  assert (Hup : @voice_update Z_arith Tables_sample chip_keyed voice_keyed
                = Ok voice_keyed_rendered) by (vm_compute; reflexivity).
  split; [exact Hup |].
  apply (@voice_update_address_in_sample Z_arith Tables_sample chip_keyed
           voice_keyed (fst (fst voice_keyed_rendered))
           (snd (fst voice_keyed_rendered)) (snd voice_keyed_rendered)
           sample_envelope Hup).
  - vm_compute. reflexivity.
  - cbn. lia.
  - cbn. lia.
Defined.

Lemma WriteSlot_LFO_programs_witness :
  exists slot',
    @WriteSlot Z_arith Tables_sample chip_sample SLOT.zero 6 0x09 = Ok slot' /\
    (exists L p, PLFO_Step (SLOT.PLFO slot') = Ok (L, p)) /\
    (exists L a, ALFO_Step (SLOT.ALFO slot') = Ok (L, a)).
Proof.
  destruct (@WriteSlot_LFO_programs Z_arith Tables_sample chip_sample SLOT.zero
              6 0x09 Tables_sample_sized Tables_sample_SCALES (or_introl eq_refl))
    as (slot' & Hw & _ & _ & Hstep & _).
  exists slot'. split; [exact Hw |]. apply Hstep. discriminate.
Defined.

Lemma render_keeps_registers_witness :
  @render Z_arith Tables_sample 1 chip_keyed = Ok chip_keyed_rendered /\
  map SLOT.Regs (Slots (fst (fst chip_keyed_rendered)))
  = map SLOT.Regs (Slots chip_keyed) /\
  ROM (fst (fst chip_keyed_rendered)) = ROM chip_keyed.
Proof.
  assert (Hr : @render Z_arith Tables_sample 1 chip_keyed
               = Ok chip_keyed_rendered) by (vm_compute; reflexivity).
  split; [exact Hr |].
  destruct (@render_keeps_registers Z_arith Tables_sample 1 chip_keyed
              (fst (fst chip_keyed_rendered)) (snd (fst chip_keyed_rendered))
              (snd chip_keyed_rendered) Hr)
    as ([slots Heq] & Hregs & _).
  split; [exact Hregs |]. rewrite Heq. reflexivity.
Defined.

Lemma write_rom_wrapped_sum_overruns_witness :
  u32 (1 + (2 ^ 32 - 1)) = 0 /\
  @multipcm_write_rom Z_arith chip_rom_16 1 (2 ^ 32 - 1) [1; 2; 3]
  = Err (OutOfBoundsWrite A_ROM 16).
Proof.
  split; [reflexivity |].
  apply (@write_rom_wrapped_sum_overruns Z_arith chip_rom_16 1 (2 ^ 32 - 1)
           [1; 2; 3] eq_refl).
  - change (ROMSize chip_rom_16) with 16. lia.
  - change (ROMSize chip_rom_16) with 16. lia.
  - lia.
  - lia.
Defined.

Lemma render_voice_independent_witness :
  @render Z_arith Tables_sample 1 chip_keyed = Ok chip_keyed_rendered /\
  @render Z_arith Tables_sample 1 (@multipcm_set_mute_mask Z_arith chip_keyed 2)
  = Ok chip_keyed_other_rendered /\
  Slots chip_keyed !! 1%nat
  <> Slots (@multipcm_set_mute_mask Z_arith chip_keyed 2) !! 1%nat /\
  Slots (fst (fst chip_keyed_rendered)) !! 0%nat
  = Slots (fst (fst chip_keyed_other_rendered)) !! 0%nat.
Proof.
  assert (H1 : @render Z_arith Tables_sample 1 chip_keyed
               = Ok chip_keyed_rendered) by (vm_compute; reflexivity).
  assert (H2 : @render Z_arith Tables_sample 1
                 (@multipcm_set_mute_mask Z_arith chip_keyed 2)
               = Ok chip_keyed_other_rendered) by (vm_compute; reflexivity).
  split; [exact H1 |]. split; [exact H2 |].
  split; [vm_compute; discriminate |].
  apply (@render_voice_independent Z_arith Tables_sample 1 0
           chip_keyed (@multipcm_set_mute_mask Z_arith chip_keyed 2)
           (fst (fst chip_keyed_rendered)) (fst (fst chip_keyed_other_rendered))
           (snd (fst chip_keyed_rendered)) (snd chip_keyed_rendered)
           (snd (fst chip_keyed_other_rendered)) (snd chip_keyed_other_rendered)).
  - lia.
  - reflexivity.
  - reflexivity.
  - reflexivity.
  - exists voice_keyed. reflexivity.
  - reflexivity.
  - exact H1.
  - exact H2.
Defined.

Lemma voice_held_inv : slot_inv voice_held.
Proof.
  apply slot_inv_concrete; try reflexivity.
  intros _. split; [reflexivity |]. split.
  - vm_compute. repeat split; discriminate.
  - vm_compute. split; discriminate.
Qed.

Lemma chip_held_inv : chip_inv Tables_sample chip_held.
Proof.
  apply (chip_inv_concrete chip_held voice_held); try reflexivity.
  - apply (iface_ok_concrete _ 4 0); (reflexivity || lia).
  - exact voice_held_inv.
Qed.

Lemma chip_held_covers : ROM_covers chip_held.
Proof.
  unfold ROM_covers. change (ROMMask chip_held) with 0x1fff.
  change (length (ROM chip_held)) with 0x2000%nat. lia.
Qed.

Lemma release_rate_0_holds_witness :
  EG.state (SLOT.EG voice_held) = RELEASE /\
  EG.RR (SLOT.EG voice_held) = 0 /\
  exists ptChip' ls rs slot',
    @render Z_arith Tables_sample 1000 chip_held = Ok (ptChip', ls, rs) /\
    Slots ptChip' !! 0%nat = Some slot' /\
    SLOT.Playing slot' = 1 /\ EG.volume (SLOT.EG slot') = 732.
Proof.
  split; [reflexivity |]. split; [reflexivity |].
  destruct (@release_rate_0_holds Z_arith Tables_sample 1000 chip_held 0
              voice_held chip_held_inv chip_held_covers eq_refl)
    as (c' & ls & rs & s' & Hr & Hs & Hp & _ & Hv).
  - vm_compute. discriminate.
  - reflexivity.
  - reflexivity.
  - reflexivity.
  - vm_compute. reflexivity.
  - exists c', ls, rs, s'. split; [exact Hr |]. split; [exact Hs |].
    split; [exact Hp | exact Hv].
Defined.
